(** * heapspurs: heap-dump decoder and reverse-reachability engine

    A shallow embedding of the Go packages [heapdump] and [treeclimber]
    and the properties of their index builder, pointer extractor and
    traversal queries.

    Conventions.
    - A [uint64] is a [Z] in [0, 2^64); arithmetic that can overflow is
      written with its wrap-around ([add64]).  Go's [int] is the 64-bit
      signed integer ([wrap_int]).
    - A [[]byte] is a [list byte].
    - A Go map is a [gmap]; the set-like [map[uint64]bool] that only ever
      stores [true] is a [gset].
    - A run-time panic is a value of [result], as is running forever
      (the fuel of a loop that has no bound in the source ran out). *)

From Stdlib Require Import ZArith Lia String Ascii List HexString.
From Stdlib.Strings Require Import Byte.
From stdpp Require Import gmap strings list fin_maps fin_sets pretty.

Local Open Scope Z_scope.
#[local] Set Warnings "-clear-no-such-hyp".

(** ** Machine integers *)

Definition wrap64 (z : Z) : Z := z mod 2 ^ 64.

(** [a + b] on [uint64]. *)
Definition add64 (a b : Z) : Z := wrap64 (a + b).

(** Go's [int] on a 64-bit platform: two's complement wrap-around. *)
Definition wrap_int (z : Z) : Z := (z + 2 ^ 63) mod 2 ^ 64 - 2 ^ 63.

Definition byte_val (b : byte) : Z := Z.of_N (Byte.to_N b).

#[global] Instance byte_eq_decision : EqDecision byte := Byte.byte_eq_dec.

(** [len(x)] on a slice, and on a string. *)
Definition len {A : Type} (l : list A) : Z := Z.of_nat (length l).
Definition strlen (s : string) : Z := Z.of_nat (String.length s).

(** ** Formatting verbs of [fmt] used by the [String] methods *)

(** ["0x%x"] on an unsigned value. *)
Definition fmt_0x (n : Z) : string := HexString.of_Z n.

(** ["%d"]. *)
Definition fmt_d (n : Z) : string := pretty n.

(** ["%v"] on a [bool]. *)
Definition fmt_bool (b : bool) : string := if b then "true" else "false".

(** ["%v"] on a slice or array: the elements between brackets, separated
    by one space. *)
Definition fmt_seq (l : list string) : string :=
  "[" +:+ String.concat " " l +:+ "]".

(** ** Outcomes of running Go code *)

Inductive panic : Type :=
| NilDereference            (* field access or method call through nil *)
| SliceOutOfRange           (* s[i:] with i > len(s) *)
| IndexOutOfRange           (* s[i] with i >= len(s) *)
| NilInterfaceConversion    (* x.(T) without comma-ok, x the nil interface *)
| WrongInterfaceConversion  (* x.(T) without comma-ok, x of another type *)
| Explicit (msg : string).  (* panic(msg) *)

Inductive result (A : Type) : Type :=
| Ret (a : A)
| Panic (p : panic)
| Diverge.
Arguments Ret {A} a.
Arguments Panic {A} p.
Arguments Diverge {A}.

(** Sequencing: a panic, or a loop that never ends, cuts the rest short.
    The notation [x ← m; k] is stdpp's. *)
#[global] Instance result_ret : MRet result := fun _ a => Ret a.
#[global] Instance result_bind : MBind result := fun _ _ k m =>
  match m with
  | Ret a => k a
  | Panic p => Panic p
  | Diverge => Diverge
  end.

(** Go's [error] values carry their message. *)
Definition error : Type := string.

(** ** Records of the dump format *)

Module Object.
Record t : Type := mk
  { Address : Z; Contents : list byte; Fields : list Z; Name : string }.
Definition GetAddress (r : t) : Z := Address r.
Definition GetContents (r : t) : list byte := Contents r.
Definition GetFields (r : t) : list Z := Fields r.
Definition GetName (r : t) : string :=
  if 0 <? strlen (Name r) then Name r else "Object"%string.
Definition String (r : t) : string :=
  GetName r +:+ " @ " +:+ fmt_0x (Address r) +:+ " with " +:+
  fmt_d (len (Fields r)) +:+ " pointers in " +:+
  fmt_d (len (Contents r)) +:+ " bytes".
End Object.

Module OtherRoot.
Record t : Type := mk { Description : string; Address : Z }.
Definition String (r : t) : string :=
  "OtherRoot @ " +:+ fmt_0x (Address r) +:+ ": " +:+ Description r.
Definition GetAddress (r : t) : Z := Address r.
End OtherRoot.

Module TypeDescriptor.
Record t : Type := mk
  { Address : Z; TypeSize : Z; Name : string; Indirect : bool }.
Definition GetAddress (r : t) : Z := Address r.
Definition String (r : t) : string :=
  "TypeDescriptor for '" +:+ Name r +:+ "' @ " +:+ fmt_0x (Address r) +:+
  ": Objects are " +:+ fmt_d (TypeSize r) +:+ " bytes".
End TypeDescriptor.

Module StatusType.
Definition Idle : Z := 0.
Definition Runnable : Z := 1.
Definition Syscall : Z := 3.
Definition Waiting : Z := 4.
Definition String (s : Z) : string :=
  if s =? Idle then "Idle"
  else if s =? Runnable then "Runnable"
  else if s =? Syscall then "Syscall"
  else if s =? Waiting then "Waiting"
  else "Unknown status " +:+ fmt_d s.
End StatusType.

Module Goroutine.
Record t : Type := mk
  { Address : Z; StackPointer : Z; RoutineId : Z; CreatorPointer : Z;
    Status : Z; System : bool; Background : bool; WaitStart : Z;
    WaitReason : string; CurrentContextPointer : Z;
    OsThreadDescriptorAddress : Z; TopDefer : Z; TopPanic : Z }.
Definition GetAddress (r : t) : Z := Address r.
Definition String (r : t) : string :=
  if Status r =? StatusType.Waiting then
    "Goroutine[" +:+ fmt_d (RoutineId r) +:+ "] @ " +:+ fmt_0x (Address r) +:+
    ": " +:+ StatusType.String (Status r) +:+ " (" +:+ WaitReason r +:+
    "), Stack @ " +:+ fmt_0x (StackPointer r)
  else
    "Goroutine[" +:+ fmt_d (RoutineId r) +:+ "] @ " +:+ fmt_0x (Address r) +:+
    ": " +:+ StatusType.String (Status r) +:+
    ", Stack @ " +:+ fmt_0x (StackPointer r).
End Goroutine.

Module StackFrame.
Record t : Type := mk
  { Address : Z; Depth : Z; ChildPointer : Z; Contents : list byte;
    EntryPc : Z; CurrentPc : Z; ContinuationPc : Z; Name : string;
    Fields : list Z }.
Definition GetAddress (r : t) : Z := Address r.
Definition GetContents (r : t) : list byte := Contents r.
Definition GetFields (r : t) : list Z := Fields r.
Definition String (r : t) : string :=
  "StackFrame[" +:+ fmt_d (Depth r) +:+ "] @ " +:+ fmt_0x (Address r) +:+
  ": " +:+ Name r +:+ " with " +:+ fmt_d (len (Fields r)) +:+
  " pointers in " +:+ fmt_d (len (Contents r)) +:+ " bytes; child = " +:+
  fmt_0x (ChildPointer r).
End StackFrame.

Module DumpParams.
Record t : Type := mk
  { BigEndian : bool; PointerSize : Z; HeapStart : Z; HeapEnd : Z;
    Architecture : string; GoExperiment : string; Ncpu : Z }.
Definition String (r : t) : string :=
  "DumpParams: BigEndian=" +:+ fmt_bool (BigEndian r) +:+
  ", PointerSize=" +:+ fmt_d (PointerSize r) +:+
  ", Heap=" +:+ fmt_0x (HeapStart r) +:+ "-" +:+ fmt_0x (HeapEnd r) +:+
  ", Architecture=" +:+ Architecture r +:+
  ", GOEXPERIMENT=" +:+ GoExperiment r +:+
  ", Cpus=" +:+ fmt_d (Ncpu r).
End DumpParams.

Module RegisteredFinalizer.
Record t : Type := mk
  { ObjectAddress : Z; FinalizerAddress : Z; FinalizerEntryPc : Z;
    FinalizerType : Z; ObjectType : Z }.
Definition String (r : t) : string :=
  "RegisteredFinalizer @ " +:+ fmt_0x (ObjectAddress r) +:+
  ": FuncVal: " +:+ fmt_0x (FinalizerAddress r) +:+
  ", Type: " +:+ fmt_0x (FinalizerType r) +:+
  ", Object Type: " +:+ fmt_0x (ObjectType r).
End RegisteredFinalizer.

Module Itab.
Record t : Type := mk { Address : Z; TypeDescriptorAddress : Z }.
Definition GetAddress (r : t) : Z := Address r.
Definition String (r : t) : string :=
  "Itab @ " +:+ fmt_0x (Address r) +:+ ": " +:+
  fmt_0x (TypeDescriptorAddress r).
End Itab.

Module OsThread.
Record t : Type := mk { ThreadDescriptorAddress : Z; GoId : Z; OsId : Z }.
Definition String (r : t) : string :=
  "OsThread @ " +:+ fmt_0x (ThreadDescriptorAddress r) +:+
  ": GoId = " +:+ fmt_d (GoId r) +:+ "; OsId = " +:+ fmt_0x (OsId r).
End OsThread.

Module MemStats.
(** [PauseNs] is the array [[256]uint64]. *)
Record t : Type := mk
  { Alloc : Z; TotalAlloc : Z; Sys : Z; Lookups : Z; Mallocs : Z;
    Frees : Z; HeapAlloc : Z; HeapSys : Z; HeapIdle : Z; HeapInuse : Z;
    HeapReleased : Z; HeapObjects : Z; StackInuse : Z; StackSys : Z;
    MSpanInuse : Z; MSpanSys : Z; MCacheInuse : Z; MCacheSys : Z;
    BuckHashSys : Z; GCSys : Z; OtherSys : Z; NextGC : Z; LastGC : Z;
    PauseTotalNs : Z; PauseNs : list Z; NumGC : Z }.
(** ["MemStats: %+v"] on the struct. *)
Definition String (r : t) : string :=
  "MemStats: {Alloc:" +:+ fmt_d (Alloc r) +:+
  " TotalAlloc:" +:+ fmt_d (TotalAlloc r) +:+
  " Sys:" +:+ fmt_d (Sys r) +:+
  " Lookups:" +:+ fmt_d (Lookups r) +:+
  " Mallocs:" +:+ fmt_d (Mallocs r) +:+
  " Frees:" +:+ fmt_d (Frees r) +:+
  " HeapAlloc:" +:+ fmt_d (HeapAlloc r) +:+
  " HeapSys:" +:+ fmt_d (HeapSys r) +:+
  " HeapIdle:" +:+ fmt_d (HeapIdle r) +:+
  " HeapInuse:" +:+ fmt_d (HeapInuse r) +:+
  " HeapReleased:" +:+ fmt_d (HeapReleased r) +:+
  " HeapObjects:" +:+ fmt_d (HeapObjects r) +:+
  " StackInuse:" +:+ fmt_d (StackInuse r) +:+
  " StackSys:" +:+ fmt_d (StackSys r) +:+
  " MSpanInuse:" +:+ fmt_d (MSpanInuse r) +:+
  " MSpanSys:" +:+ fmt_d (MSpanSys r) +:+
  " MCacheInuse:" +:+ fmt_d (MCacheInuse r) +:+
  " MCacheSys:" +:+ fmt_d (MCacheSys r) +:+
  " BuckHashSys:" +:+ fmt_d (BuckHashSys r) +:+
  " GCSys:" +:+ fmt_d (GCSys r) +:+
  " OtherSys:" +:+ fmt_d (OtherSys r) +:+
  " NextGC:" +:+ fmt_d (NextGC r) +:+
  " LastGC:" +:+ fmt_d (LastGC r) +:+
  " PauseTotalNs:" +:+ fmt_d (PauseTotalNs r) +:+
  " PauseNs:" +:+ fmt_seq (fmt_d <$> PauseNs r) +:+
  " NumGC:" +:+ fmt_d (NumGC r) +:+ "}".
End MemStats.

Module QueuedFinalizer.
Record t : Type := mk
  { ObjectAddress : Z; FinalizerAddress : Z; FinalizerEntryPc : Z;
    FinalizerType : Z; ObjectType : Z }.
Definition String (r : t) : string :=
  "QueuedFinalizer @ " +:+ fmt_0x (ObjectAddress r) +:+
  ": FuncVal: " +:+ fmt_0x (FinalizerAddress r) +:+
  ", Type: " +:+ fmt_0x (FinalizerType r) +:+
  ", Object Type: " +:+ fmt_0x (ObjectType r).
End QueuedFinalizer.

Module DataSegment.
Record t : Type := mk
  { Address : Z; Contents : list byte; Fields : list Z }.
Definition GetAddress (r : t) : Z := Address r.
Definition GetContents (r : t) : list byte := Contents r.
Definition GetFields (r : t) : list Z := Fields r.
Definition String (r : t) : string :=
  "DataSegment @ " +:+ fmt_0x (Address r) +:+ "-" +:+
  fmt_0x (add64 (Address r) (len (Contents r))) +:+ " with " +:+
  fmt_d (len (Fields r)) +:+ " pointers".
End DataSegment.

Module BssSegment.
Record t : Type := mk
  { Address : Z; Contents : list byte; Fields : list Z }.
Definition GetAddress (r : t) : Z := Address r.
Definition GetContents (r : t) : list byte := Contents r.
Definition GetFields (r : t) : list Z := Fields r.
Definition String (r : t) : string :=
  "BssSegment @ " +:+ fmt_0x (Address r) +:+ "-" +:+
  fmt_0x (add64 (Address r) (len (Contents r))) +:+ " with " +:+
  fmt_d (len (Fields r)) +:+ " pointers".
End BssSegment.

Module DeferRecord.
Record t : Type := mk
  { Address : Z; ContainingGoroutine : Z; Arcp : Z; Pc : Z; FuncVal : Z;
    EntryPointPc : Z; Next : Z }.
Definition GetAddress (r : t) : Z := Address r.
End DeferRecord.

Module PanicRecord.
Record t : Type := mk
  { Address : Z; Goroutine : Z; PanicArgType : Z; PanicArgData : Z;
    DeferRecordPtr : Z; Next : Z }.
Definition GetAddress (r : t) : Z := Address r.
End PanicRecord.

Module AllocFreeProfileRecord.
Record frame : Type := mkframe
  { Name : string; Filename : string; Line : Z }.
Record t : Type := mk
  { Id : Z; Size : Z; Frames : list frame; AllocationCount : Z;
    FreeCount : Z }.
Definition fmt_frame (f : frame) : string :=
  "{Name:" +:+ Name f +:+ " Filename:" +:+ Filename f +:+
  " Line:" +:+ fmt_d (Line f) +:+ "}".
(** ["AllocFreeProfileRecord: %+v"] on the struct. *)
Definition String (r : t) : string :=
  "AllocFreeProfileRecord: {Id:" +:+ fmt_d (Id r) +:+
  " Size:" +:+ fmt_d (Size r) +:+
  " Frames:" +:+ fmt_seq (fmt_frame <$> Frames r) +:+
  " AllocationCount:" +:+ fmt_d (AllocationCount r) +:+
  " FreeCount:" +:+ fmt_d (FreeCount r) +:+ "}".
End AllocFreeProfileRecord.

Module AllocStackTraceSample.
Record t : Type := mk { Address : Z; AllocFreeProfileRecordId : Z }.
Definition GetAddress (r : t) : Z := Address r.
(** ["AllocStackTraceSample: %+v"] on the struct. *)
Definition String (r : t) : string :=
  "AllocStackTraceSample: {Address:" +:+ fmt_d (Address r) +:+
  " AllocFreeProfileRecordId:" +:+ fmt_d (AllocFreeProfileRecordId r) +:+
  "}".
End AllocStackTraceSample.

(** A value of the interface [Record]: one constructor per dynamic type. *)
Inductive Record : Type :=
| Eof
| Object (r : Object.t)
| OtherRoot (r : OtherRoot.t)
| TypeDescriptor (r : TypeDescriptor.t)
| Goroutine (r : Goroutine.t)
| StackFrame (r : StackFrame.t)
| DumpParams (r : DumpParams.t)
| RegisteredFinalizer (r : RegisteredFinalizer.t)
| Itab (r : Itab.t)
| OsThread (r : OsThread.t)
| MemStats (r : MemStats.t)
| QueuedFinalizer (r : QueuedFinalizer.t)
| DataSegment (r : DataSegment.t)
| BssSegment (r : BssSegment.t)
| DeferRecord (r : DeferRecord.t)
| PanicRecord (r : PanicRecord.t)
| AllocFreeProfileRecord (r : AllocFreeProfileRecord.t)
| AllocStackTraceSample (r : AllocStackTraceSample.t).

(** ** The capability interfaces, tested by dynamic type assertion *)

(** [record.(Addressable)]: [Some] of [GetAddress()] exactly for the types
    that declare the method. *)
Definition GetAddress (record : Record) : option Z :=
  match record with
  | Object r => Some (Object.GetAddress r)
  | OtherRoot r => Some (OtherRoot.GetAddress r)
  | TypeDescriptor r => Some (TypeDescriptor.GetAddress r)
  | Goroutine r => Some (Goroutine.GetAddress r)
  | StackFrame r => Some (StackFrame.GetAddress r)
  | Itab r => Some (Itab.GetAddress r)
  | DataSegment r => Some (DataSegment.GetAddress r)
  | BssSegment r => Some (BssSegment.GetAddress r)
  | DeferRecord r => Some (DeferRecord.GetAddress r)
  | PanicRecord r => Some (PanicRecord.GetAddress r)
  | AllocStackTraceSample r => Some (AllocStackTraceSample.GetAddress r)
  | Eof | DumpParams _ | RegisteredFinalizer _ | OsThread _ | MemStats _
  | QueuedFinalizer _ | AllocFreeProfileRecord _ => None
  end.

(** A value of the interface [Owner]: what its three methods return. *)
Record Owner : Type := mkOwner
  { OwnerAddress : Z; GetContents : list byte; GetFields : list Z }.

(** [record.(Owner)]. *)
Definition asOwner (record : Record) : option Owner :=
  match record with
  | Object r =>
      Some (mkOwner (Object.GetAddress r) (Object.GetContents r)
              (Object.GetFields r))
  | StackFrame r =>
      Some (mkOwner (StackFrame.GetAddress r) (StackFrame.GetContents r)
              (StackFrame.GetFields r))
  | DataSegment r =>
      Some (mkOwner (DataSegment.GetAddress r) (DataSegment.GetContents r)
              (DataSegment.GetFields r))
  | BssSegment r =>
      Some (mkOwner (BssSegment.GetAddress r) (BssSegment.GetContents r)
              (BssSegment.GetFields r))
  | _ => None
  end.

(** [record.(fmt.Stringer)]: DeferRecord and PanicRecord have no [String]
    method. *)
Definition asStringer (record : Record) : option string :=
  match record with
  | Eof => Some "End Of File"%string
  | Object r => Some (Object.String r)
  | OtherRoot r => Some (OtherRoot.String r)
  | TypeDescriptor r => Some (TypeDescriptor.String r)
  | Goroutine r => Some (Goroutine.String r)
  | StackFrame r => Some (StackFrame.String r)
  | Itab r => Some (Itab.String r)
  | DataSegment r => Some (DataSegment.String r)
  | BssSegment r => Some (BssSegment.String r)
  | AllocStackTraceSample r => Some (AllocStackTraceSample.String r)
  | DumpParams r => Some (DumpParams.String r)
  | RegisteredFinalizer r => Some (RegisteredFinalizer.String r)
  | OsThread r => Some (OsThread.String r)
  | MemStats r => Some (MemStats.String r)
  | QueuedFinalizer r => Some (QueuedFinalizer.String r)
  | AllocFreeProfileRecord r => Some (AllocFreeProfileRecord.String r)
  | DeferRecord _ | PanicRecord _ => None
  end.

(** ** [encoding/binary]: fixed-width unsigned integers

    [Uint16], [Uint32] and [Uint64] read the first 2, 4 or 8 bytes of the
    slice they are given and panic on a shorter one. *)

Inductive ByteOrder : Type := LittleEndian | BigEndian.

Definition shl (x : Z) (n : Z) : Z := Z.shiftl x n.

Definition Uint16 (byteOrder : ByteOrder) (b : list byte) : result Z :=
  match b with
  | b0 :: b1 :: _ =>
      let '(x0, x1) := (byte_val b0, byte_val b1) in
      Ret match byteOrder with
          | LittleEndian => Z.lor x0 (shl x1 8)
          | BigEndian => Z.lor x1 (shl x0 8)
          end
  | _ => Panic IndexOutOfRange
  end.

Definition Uint32 (byteOrder : ByteOrder) (b : list byte) : result Z :=
  match b with
  | b0 :: b1 :: b2 :: b3 :: _ =>
      let '(x0, x1, x2, x3) :=
        (byte_val b0, byte_val b1, byte_val b2, byte_val b3) in
      Ret match byteOrder with
          | LittleEndian =>
              Z.lor (Z.lor (Z.lor x0 (shl x1 8)) (shl x2 16)) (shl x3 24)
          | BigEndian =>
              Z.lor (Z.lor (Z.lor x3 (shl x2 8)) (shl x1 16)) (shl x0 24)
          end
  | _ => Panic IndexOutOfRange
  end.

Definition Uint64 (byteOrder : ByteOrder) (b : list byte) : result Z :=
  match b with
  | b0 :: b1 :: b2 :: b3 :: b4 :: b5 :: b6 :: b7 :: _ =>
      let '(x0, x1, x2, x3) :=
        (byte_val b0, byte_val b1, byte_val b2, byte_val b3) in
      let '(x4, x5, x6, x7) :=
        (byte_val b4, byte_val b5, byte_val b6, byte_val b7) in
      Ret match byteOrder with
          | LittleEndian =>
              Z.lor (Z.lor (Z.lor (Z.lor (Z.lor (Z.lor (Z.lor
                x0 (shl x1 8)) (shl x2 16)) (shl x3 24)) (shl x4 32))
                (shl x5 40)) (shl x6 48)) (shl x7 56)
          | BigEndian =>
              Z.lor (Z.lor (Z.lor (Z.lor (Z.lor (Z.lor (Z.lor
                x7 (shl x6 8)) (shl x5 16)) (shl x4 24)) (shl x3 32))
                (shl x2 40)) (shl x1 48)) (shl x0 56)
          end
  | _ => Panic IndexOutOfRange
  end.

(** [s[offset:]] for a [uint64] offset. *)
Definition slice_from (s : list byte) (offset : Z) : result (list byte) :=
  if len s <? offset then Panic SliceOutOfRange
  else Ret (drop (Z.to_nat offset) s).

(** ** The pointer extractor *)

(** The loop of [GetPointerInfo] over the field list.  The source writes
    [pointerSource[i]] and [pointerTarget[i]] in the same turn, so the two
    slices are built together here, and the first field that panics ends
    the call. *)
Fixpoint pointerLoop (byteOrder : ByteOrder) (PointerSize : Z)
    (address : Z) (contents : list byte) (fields : list Z)
    : result (list Z * list Z) :=
  match fields with
  | [] => Ret ([], [])
  | offset :: fields' =>
      let source := add64 address offset in
      target ←
        (if PointerSize =? 2 then
           b ← slice_from contents offset; Uint16 byteOrder b
         else if PointerSize =? 4 then
           b ← slice_from contents offset; Uint32 byteOrder b
         else if PointerSize =? 8 then
           b ← slice_from contents offset; Uint64 byteOrder b
         else
           Panic (Explicit ("Cannot handle pointers of size " +:+
                            fmt_d PointerSize)));
      '(pointerSource, pointerTarget) ←
        pointerLoop byteOrder PointerSize address contents fields';
      Ret (source :: pointerSource, target :: pointerTarget)
  end.

(** [p] is a pointer: [None] is nil, and [p.BigEndian] on nil panics. *)
Definition GetPointerInfo (o : Owner) (p : option DumpParams.t)
    : result (list Z * list Z) :=
  match p with
  | None => Panic NilDereference
  | Some p =>
      let byteOrder :=
        if DumpParams.BigEndian p then BigEndian else LittleEndian in
      let contents := GetContents o in
      let fields := GetFields o in
      pointerLoop byteOrder (DumpParams.PointerSize p) (OwnerAddress o)
        contents fields
  end.

Definition GetPointers (o : Owner) (p : option DumpParams.t)
    : result (list Z) :=
  '(_, pointers) ← GetPointerInfo o p; Ret pointers.



(** ** Package [treeclimber] *)

Definition newline : string := String (ascii_of_nat 10) EmptyString.

(** ["%T"] on a record. *)
Definition typeName (record : Record) : string :=
  match record with
  | Eof => "*heapdump.Eof"
  | Object _ => "*heapdump.Object"
  | OtherRoot _ => "*heapdump.OtherRoot"
  | TypeDescriptor _ => "*heapdump.TypeDescriptor"
  | Goroutine _ => "*heapdump.Goroutine"
  | StackFrame _ => "*heapdump.StackFrame"
  | DumpParams _ => "*heapdump.DumpParams"
  | RegisteredFinalizer _ => "*heapdump.RegisteredFinalizer"
  | Itab _ => "*heapdump.Itab"
  | OsThread _ => "*heapdump.OsThread"
  | MemStats _ => "*heapdump.MemStats"
  | QueuedFinalizer _ => "*heapdump.QueuedFinalizer"
  | DataSegment _ => "*heapdump.DataSegment"
  | BssSegment _ => "*heapdump.BssSegment"
  | DeferRecord _ => "*heapdump.DeferRecord"
  | PanicRecord _ => "*heapdump.PanicRecord"
  | AllocFreeProfileRecord _ => "*heapdump.AllocFreeProfileRecord"
  | AllocStackTraceSample _ => "*heapdump.AllocStackTraceSample"
  end.

(** The struct [TreeClimber].  [params] is a pointer ([None] is nil).
    [visited] is [None] while no query runs: a query allocates the map on
    entry and resets the field to nil when it leaves.  A nil [memory],
    [owners] or [finalizers] reads like the empty map. *)
Record TreeClimber : Type := mkTreeClimber
  { params : option DumpParams.t;
    memory : gmap Z Record;
    owners : gmap Z (list Record);
    visited : option (gset Z);
    finalizers : gmap Z Record }.

Definition set_params (p : option DumpParams.t) (c : TreeClimber) :=
  mkTreeClimber p (memory c) (owners c) (visited c) (finalizers c).
Definition set_memory (m : gmap Z Record) (c : TreeClimber) :=
  mkTreeClimber (params c) m (owners c) (visited c) (finalizers c).
Definition set_owners (o : gmap Z (list Record)) (c : TreeClimber) :=
  mkTreeClimber (params c) (memory c) o (visited c) (finalizers c).
Definition set_visited (v : option (gset Z)) (c : TreeClimber) :=
  mkTreeClimber (params c) (memory c) (owners c) v (finalizers c).
Definition set_finalizers (f : gmap Z Record) (c : TreeClimber) :=
  mkTreeClimber (params c) (memory c) (owners c) (visited c) f.

(** [&TreeClimber{}]. *)
Definition zeroTreeClimber : TreeClimber := mkTreeClimber None ∅ ∅ None ∅.

(** *** The index builder *)

Definition Header : string := "go1.7 heap dump" +:+ newline.

Definition bytes_of_string (s : string) : list byte := list_byte_of_string s.

(** What [build] reads: the first [len(Header)] bytes of the stream (fewer
    when the stream is shorter), and then the records that the successive
    calls of [ReadRecord] decode.  When the list is used up [ReadRecord]
    fails: the stream ended, or what follows does not decode. *)
Record Reader : Type := mkReader
  { Magic : list byte; Records : list Record }.

Definition ReadHeader (reader : Reader) : option error :=
  if len (Magic reader) =? 0 then Some "EOF"%string
  else if len (Magic reader) <? strlen Header then
    Some "unexpected EOF"%string
  else if bool_decide (Magic reader = bytes_of_string Header) then None
  else Some ("Bad read: expected string '" +:+ Header +:+ "', read '" +:+
             string_of_list_byte (Magic reader) +:+ "'").

Definition addOwner (c : TreeClimber) (address : Z) (r : Record)
    : TreeClimber :=
  let c :=
    match owners c !! address with
    | Some _ => c
    | None => set_owners (<[address := []]> (owners c)) c
    end in
  set_owners (<[address := (owners c !!! address) ++ [r]]> (owners c)) c.

(** [for i := 0; i < len(pointers); i++ { if pointers[i] != 0 { ... } }] *)
Fixpoint addOwners (c : TreeClimber) (pointers : list Z) (record : Record)
    : TreeClimber :=
  match pointers with
  | [] => c
  | pointer :: pointers' =>
      let c := if pointer =? 0 then c else addOwner c pointer record in
      addOwners c pointers' record
  end.

(** One turn of [readloop] for a record other than [Eof]. *)
Definition buildRecord (c : TreeClimber) (record : Record)
    : result TreeClimber :=
  let c :=
    match record with
    | DumpParams r => set_params (Some r) c
    | QueuedFinalizer r =>
        set_finalizers
          (<[QueuedFinalizer.ObjectAddress r := record]> (finalizers c)) c
    | RegisteredFinalizer r =>
        set_finalizers
          (<[RegisteredFinalizer.ObjectAddress r := record]> (finalizers c)) c
    | _ => c
    end in
  let c :=
    match GetAddress record with
    | Some a => set_memory (<[a := record]> (memory c)) c
    | None => c
    end in
  match asOwner record with
  | Some o =>
      pointers ← GetPointers o (params c);
      Ret (addOwners c pointers record)
  | None => Ret c
  end.

Fixpoint readloop (c : TreeClimber) (records : list Record)
    : result (TreeClimber * option error) :=
  match records with
  | [] => Ret (c, Some "EOF"%string)
  | Eof :: _ => Ret (c, None)
  | record :: records' =>
      c' ← buildRecord c record; readloop c' records'
  end.

Definition build (c : TreeClimber) (reader : Reader)
    : result (TreeClimber * option error) :=
  match ReadHeader reader with
  | Some err => Ret (c, Some ("Reading header: " +:+ err +:+ newline))
  | None =>
      let c := set_memory ∅ c in
      let c := set_owners ∅ c in
      let c := set_finalizers ∅ c in
      readloop c (Records reader)
  end.

Definition NewTreeClimber (reader : Reader)
    : result (TreeClimber * option error) :=
  build zeroTreeClimber reader.

(** *** The traversal engine *)

(** What a running query changes: the entries of [c.visited], and the lines
    written to standard output (each without its final newline). *)
Record Trace : Type := mkTrace { seen : gset Z; stdout : list string }.

Definition mark (address : Z) (s : Trace) : Trace :=
  mkTrace ({[address]} ∪ seen s) (stdout s).

Definition println (line : string) (s : Trace) : Trace :=
  mkTrace (seen s) (stdout s ++ [line]).

Definition notFound (address : Z) : error :=
  "Cound not find record for address " +:+ fmt_0x address.

(** [for _, owner := range o { a, addressable := owner.(Addressable);
    if addressable { body(a.GetAddress()) } }] *)
Fixpoint forAddressable (body : Z -> Trace -> Trace * result unit)
    (o : list Record) (s : Trace) : Trace * result unit :=
  match o with
  | [] => (s, Ret tt)
  | owner :: o' =>
      match GetAddress owner with
      | Some a =>
          match body a s with
          | (s, Ret _) => forAddressable body o' s
          | (s, Panic p) => (s, Panic p)
          | (s, Diverge) => (s, Diverge)
          end
      | None => forAddressable body o' s
      end
  end.

(** [prefix] is the variadic parameter.  Every call costs one unit of
    [fuel]. *)
Fixpoint printOwners (fuel : nat) (c : TreeClimber) (address : Z)
    (depth : Z) (prefix : list string) (s : Trace)
    : Trace * result (option error) :=
  match fuel with
  | O => (s, Diverge)
  | S fuel =>
      if depth =? 0 then (s, Ret None)
      else if bool_decide (address ∈ seen s) then (s, Ret None)
      else
        let s := mark address s in
        match memory c !! address with
        | None => (s, Ret (Some (notFound address)))
        | Some r =>
            let indent := fold_left String.append prefix ""%string in
            match asStringer r with
            | None => (s, Panic NilDereference)
            | Some str =>
                let s := println (indent +:+ str) s in
                match owners c !! address with
                | None => (s, Ret None)
                | Some o =>
                    let body a s :=
                      match printOwners fuel c a (wrap_int (depth - 1))
                              [indent; "  "%string] s with
                      | (s, Ret (Some err)) =>
                          (println (indent +:+ "  " +:+ err) s, Ret tt)
                      | (s, Ret None) => (s, Ret tt)
                      | (s, Panic p) => (s, Panic p)
                      | (s, Diverge) => (s, Diverge)
                      end in
                    match forAddressable body o s with
                    | (s, Ret _) => (s, Ret None)
                    | (s, Panic p) => (s, Panic p)
                    | (s, Diverge) => (s, Diverge)
                    end
                end
            end
        end
  end.

(** The type assertion of [childRecord] to a StackFrame pointer, in the
    form without comma-ok, which panics when it fails.  [childRecord] is
    the nil interface when the map has no entry. *)
Definition assertStackFrame (childRecord : option Record)
    : result StackFrame.t :=
  match childRecord with
  | None => Panic NilInterfaceConversion
  | Some (StackFrame child) => Ret child
  | Some _ => Panic WrongInterfaceConversion
  end.

(** The loop [for childPtr != 0 { ... }] of [printAnchors]; every turn
    costs one unit of [fuel].  [Ret (Some err)] is the [return] inside the
    loop. *)
Fixpoint printChildren (fuel : nat) (c : TreeClimber) (childPtr : Z)
    (s : Trace) : Trace * result (option error) :=
  if childPtr =? 0 then (s, Ret None)
  else
    match fuel with
    | O => (s, Diverge)
    | S fuel =>
        let childRecord := memory c !! childPtr in
        let found := bool_decide (is_Some childRecord) in
        match assertStackFrame childRecord with
        | Ret child =>
            if negb found then
              (s, Ret (Some ("Cound not find stack frame at address " +:+
                             fmt_0x childPtr)))
            else
              let s := println ("  " +:+ StackFrame.String child) s in
              printChildren fuel c (StackFrame.ChildPointer child) s
        | Panic p => (s, Panic p)
        | Diverge => (s, Diverge)
        end
    end.

Fixpoint printAnchors (fuel : nat) (c : TreeClimber) (address : Z)
    (s : Trace) : Trace * result (option error) :=
  match fuel with
  | O => (s, Diverge)
  | S fuel =>
      if bool_decide (address ∈ seen s) then
        (s, Ret (Some ("Loop: already visited address " +:+ fmt_0x address)))
      else
        let s := mark address s in
        match memory c !! address with
        | None => (s, Ret (Some (notFound address)))
        | Some r =>
            let '(s, sw) :=
              match r with
              | OtherRoot root => (println (OtherRoot.String root) s, Ret None)
              | StackFrame root =>
                  let s := println (StackFrame.String root) s in
                  printChildren fuel c (StackFrame.ChildPointer root) s
              | BssSegment root =>
                  (println (BssSegment.String root) s, Ret None)
              | DataSegment root =>
                  (println (DataSegment.String root) s, Ret None)
              | _ => (s, Ret None)
              end in
            match sw with
            | Ret (Some err) => (s, Ret (Some err))
            | Panic p => (s, Panic p)
            | Diverge => (s, Diverge)
            | Ret None =>
                match owners c !! address with
                | None => (s, Ret None)
                | Some o =>
                    let body a s :=
                      match printAnchors fuel c a s with
                      | (s, Ret _) => (s, Ret tt)
                      | (s, Panic p) => (s, Panic p)
                      | (s, Diverge) => (s, Diverge)
                      end in
                    match forAddressable body o s with
                    | (s, Ret _) => (s, Ret None)
                    | (s, Panic p) => (s, Panic p)
                    | (s, Diverge) => (s, Diverge)
                    end
                end
            end
        end
  end.

(** The loop [for framePtr != 0 { ... }] of [fullStack], which the graph
    builder uses to label a StackFrame node; it walks the same chain, with
    the same assertion ahead of the test of [found]. *)
Fixpoint fullStackLoop (fuel : nat) (c : TreeClimber) (framePtr : Z)
    (out : list string) : result (list string) :=
  if framePtr =? 0 then Ret out
  else
    match fuel with
    | O => Diverge
    | S fuel =>
        let frameRecord := memory c !! framePtr in
        let found := bool_decide (is_Some frameRecord) in
        frame ← assertStackFrame frameRecord;
        if negb found then Ret out
        else
          fullStackLoop fuel c (StackFrame.ChildPointer frame)
            (out ++ ["[" +:+ fmt_d (StackFrame.Depth frame) +:+ "] " +:+
                     StackFrame.Name frame])
    end.

Definition fullStack (fuel : nat) (c : TreeClimber) (address : Z)
    (separator : string) : result string :=
  out ← fullStackLoop fuel c address []; Ret (String.concat separator out).

(** *** The query façade

    A query returns the analyzer as it leaves it, the lines it wrote, and
    how it ended.  The deferred function resets [visited] on every way
    out, a panic included. *)

Record Answer (A : Type) : Type := mkAnswer
  { after : TreeClimber; printed : list string; ended : result A }.
Arguments mkAnswer {A} after printed ended.
Arguments after {A} a.
Arguments printed {A} a.
Arguments ended {A} a.

Definition PrintOwners (fuel : nat) (c : TreeClimber) (address : Z)
    (depth : Z) : Answer (option error) :=
  let c := set_visited (Some ∅) c in
  let depth := if 0 <? depth then wrap_int (depth + 1) else depth in
  let '(s, r) :=
    printOwners fuel c address depth [] (mkTrace (default ∅ (visited c)) [])
  in
  mkAnswer (set_visited None c) (stdout s) r.

Definition PrintAnchors (fuel : nat) (c : TreeClimber) (address : Z)
    : Answer (option error) :=
  let c := set_visited (Some ∅) c in
  let '(s, r) :=
    printAnchors fuel c address (mkTrace (default ∅ (visited c)) []) in
  mkAnswer (set_visited None c) (stdout s) r.

Section Hexdump.
(** [hex.Dump] of [encoding/hex], the canonical hex dump of a byte
    slice. *)
Context (hexDump : list byte -> string).

Definition Hexdump (c : TreeClimber) (address : Z)
    : string * option error :=
  match memory c !! address with
  | None => (""%string, Some (notFound address))
  | Some r =>
      match asOwner r with
      | None =>
          (""%string,
           Some ("Object of type " +:+ typeName r +:+
                 " does not have Contents"))
      | Some o =>
          (fold_left
             (fun ret field =>
                ret +:+ "Pointer: " +:+ fmt_0x field +:+ newline)
             (GetFields o) (hexDump (GetContents o)),
           None)
      end
  end.
End Hexdump.

(** ** Package [heapdump]: the name registries (names.go) *)

(** The package variables [nameMap] and [oidMap]. *)
Record Registry : Type := mkRegistry
  { nameMap : gmap Z string; oidMap : gmap Z string }.

(** [init()]. *)
Definition initRegistry : Registry := mkRegistry ∅ ∅.

Definition AddOid (oid : Z) (name : string) (g : Registry) : Registry :=
  mkRegistry (nameMap g) (<[oid := name]> (oidMap g)).

Definition AddName (addr : Z) (name : string) (g : Registry) : Registry :=
  mkRegistry (<[addr := name]> (nameMap g)) (oidMap g).

Definition GetName (addr : Z) (g : Registry) : string :=
  match nameMap g !! addr with
  | Some name => name
  | None => ""%string
  end.

(** What one call [fmt.Fscanln(r, &oid, &name)] reports: [n], [err], and
    the values the call stored through the two pointers ([None]: the
    variable was not written).  [fmt] is the standard library: on a line
    of two fields, a number in Go syntax and a word, the call stores both
    and returns [2, nil]; on a blank line it returns the error
    "unexpected newline", on a line that does not start with a number a
    parse error, and at the end of the input [io.EOF]. *)
Inductive scanError : Type := ioEOF | scanFailed (msg : string).

Record Scanned : Type := mkScanned
  { scan_n : Z; scan_err : option scanError;
    scan_oid : option Z; scan_name : option string }.

(** A line [<oid> <name>] that scans. *)
Definition scanLine (oid : Z) (name : string) : Scanned :=
  mkScanned 2 None (Some oid) (Some name).

(** A line that does not scan, such as a blank one. *)
Definition scanBad (msg : string) : Scanned :=
  mkScanned 0 (Some (scanFailed msg)) None None.

(** The loop of [ReadOids] over the results of the successive calls of
    [Fscanln]; past the last of them the input is at its end and the call
    reports [io.EOF].  [oid] and [name] are the two variables declared
    above the loop. *)
Fixpoint readOidsLoop (r : list Scanned) (oid : Z) (name : string)
    (g : Registry) : Registry * option error :=
  match r with
  | [] => (g, None)
  | sc :: r' =>
      let oid := default oid (scan_oid sc) in
      let name := default name (scan_name sc) in
      match scan_err sc with
      | Some ioEOF => (g, None)
      | Some (scanFailed msg) => (g, Some msg)
      | None =>
          let g :=
            if (scan_n sc =? 2) && (0 <? oid) && (0 <? strlen name)
            then mkRegistry (nameMap g) (<[oid := name]> (oidMap g))
            else g in
          readOidsLoop r' oid name g
      end
  end.

Definition ReadOids (r : list Scanned) (g : Registry)
    : Registry * option error :=
  readOidsLoop r 0 ""%string g.

(** ** Package [heapdump]: decoding an Object record *)

(** [binary.ReadUvarint] on a byte stream: the value, the error, and the
    rest of the stream.  [i] counts the bytes read so far, [x] and [s] are
    the accumulator and the shift. *)
Definition MaxVarintLen64 : nat := 10.

Fixpoint readUvarintFrom (todo i : nat) (x s : Z) (reader : list byte)
    : Z * option error * list byte :=
  match todo with
  | O => (x, Some "binary: varint overflows a 64-bit integer"%string, reader)
  | S todo =>
      match reader with
      | [] =>
          (x, Some (if (0 <? i)%nat then "unexpected EOF" else "EOF")%string,
           reader)
      | b :: reader =>
          let b := byte_val b in
          if b <? 128 then
            if (i =? MaxVarintLen64 - 1)%nat && (1 <? b) then
              (x, Some "binary: varint overflows a 64-bit integer"%string,
               reader)
            else (Z.lor x (wrap64 (shl b s)), None, reader)
          else
            readUvarintFrom todo (S i)
              (Z.lor x (wrap64 (shl (Z.land b 127) s))) (s + 7) reader
      end
  end.

Definition ReadUvarint (reader : list byte) : Z * option error * list byte :=
  readUvarintFrom MaxVarintLen64 0 0 0 reader.

(** [buf := make([]byte, n); _, err = io.ReadFull(reader, buf)]: the
    buffer, zero past the end of a short stream, the error, and the rest
    of the stream. *)
Definition ReadFull (n : Z) (reader : list byte)
    : list byte * option error * list byte :=
  let k := Z.to_nat n in
  if (length reader <? k)%nat then
    (reader ++ replicate (k - length reader) x00,
     Some (if (0 <? length reader)%nat then "unexpected EOF" else "EOF")%string,
     [])
  else (take k reader, None, drop k reader).

(** The loop that reads a field list.  A turn that does not leave the loop
    has read at least one byte, so [fuel] above the length of the stream is
    enough; [None] only when it ran out. *)
Fixpoint readFields (fuel : nat) (Fields : list Z) (reader : list byte)
    : option (list Z * option error * list byte) :=
  match fuel with
  | O => None
  | S fuel =>
      let '(kind, err, reader) := ReadUvarint reader in
      match err with
      | Some e => Some (Fields, Some e, reader)
      | None =>
          if kind =? 0 then Some (Fields, None, reader)
          else
            let '(value, _, reader) := ReadUvarint reader in
            if kind =? 0 then Some (Fields, None, reader)
            else readFields fuel (Fields ++ [value]) reader
      end
  end.

(** The method [Read] of Object, on the zero Object that [ReadRecord]
    allocates.  The method reads [oidMap] and may write [nameMap]. *)
Definition Object_Read (g : Registry) (reader : list byte)
    : result (Object.t * option error * Registry * list byte) :=
  let '(Address, err, reader) := ReadUvarint reader in
  let r := Object.mk Address [] [] "" in
  match err with
  | Some e => Ret (r, Some e, g, reader)
  | None =>
      let '(ContentsLen, err, reader) := ReadUvarint reader in
      match err with
      | Some e => Ret (r, Some e, g, reader)
      | None =>
          let '(Contents, err, reader) := ReadFull ContentsLen reader in
          let r := Object.mk Address Contents [] "" in
          match err with
          | Some e => Ret (r, Some e, g, reader)
          | None =>
              match readFields (S (length reader)) [] reader with
              | None => Diverge
              | Some (Fields, Some e, reader) =>
                  Ret (Object.mk Address Contents Fields "", Some e, g, reader)
              | Some (Fields, None, reader) =>
                  let r := Object.mk Address Contents Fields "" in
                  if 8 <? len Contents then
                    oid ← Uint64 LittleEndian Contents;
                    match oidMap g !! oid with
                    | Some className =>
                        Ret (Object.mk Address Contents Fields className,
                             None, AddName Address className g, reader)
                    | None => Ret (r, None, g, reader)
                    end
                  else Ret (r, None, g, reader)
              end
          end
      end
  end.

(** ** Reference definitions used to state the properties *)

(** The unsigned integer that a run of bytes denotes, least significant
    byte first. *)
Fixpoint le_value (bs : list byte) : Z :=
  match bs with
  | [] => 0
  | b :: bs => byte_val b + 256 * le_value bs
  end.

(** [decode_uint(bytes, byteOrder)]. *)
Definition decode_uint (bigEndian : bool) (bs : list byte) : Z :=
  if bigEndian then le_value (rev bs) else le_value bs.

(** [contents[f .. f + pointerSize]]. *)
Definition window (contents : list byte) (f pointerSize : Z) : list byte :=
  take (Z.to_nat pointerSize) (drop (Z.to_nat f) contents).

Definition supportedPointerSize (n : Z) : Prop := n = 2 \/ n = 4 \/ n = 8.

(** Inputs used to exercise the pointer extractor. *)
Definition paramsLE8 : DumpParams.t :=
  DumpParams.mk false 8 0 0 "amd64" "" 1.
Definition paramsBE2 : DumpParams.t :=
  DumpParams.mk true 2 0 0 "s390" "" 1.
Definition params3 : DumpParams.t :=
  DumpParams.mk false 3 0 0 "odd" "" 1.
Definition ownerNoFields : Owner := mkOwner 4096 [] [].
Definition ownerTwoFields : Owner :=
  mkOwner 8192 [x12; x34; x56; x78; x9a; xbc] [0; 4].

(** The turns of [readloop] over records none of which is [Eof]. *)
Fixpoint buildRecords (c : TreeClimber) (records : list Record)
    : result TreeClimber :=
  match records with
  | [] => Ret c
  | record :: records' =>
      c' ← buildRecord c record; buildRecords c' records'
  end.

Definition isDumpParams (record : Record) : Prop :=
  exists p, record = DumpParams p.

(** The DumpParams record in force after [records]: the last one among
    them, [p0] when there is none. *)
Fixpoint paramsAfter (p0 : option DumpParams.t) (records : list Record)
    : option DumpParams.t :=
  match records with
  | [] => p0
  | DumpParams p :: records' => paramsAfter (Some p) records'
  | _ :: records' => paramsAfter p0 records'
  end.

(** Dumps used to exercise the index builder. *)
Definition rootAt16 : OtherRoot.t := OtherRoot.mk "finalizer queue" 16.
Definition dumpOtherRoot : Reader :=
  mkReader (bytes_of_string Header)
    [DumpParams paramsLE8; OtherRoot rootAt16; Eof].

(** Object A at 0x2000 whose one pointer field holds 0x3000, and the empty
    Object B at 0x3000. *)
Definition objectA : Object.t :=
  Object.mk 0x2000 [x00; x30; x00; x00; x00; x00; x00; x00] [0] "".
Definition objectB : Object.t := Object.mk 0x3000 [] [] "".
Definition dumpChain : Reader :=
  mkReader (bytes_of_string Header)
    [DumpParams paramsLE8; Object objectA; Object objectB; Eof].

(** An Object without contents and without fields, ahead of DumpParams. *)
Definition objectEmpty : Object.t := Object.mk 0x1000 [] [] "".
Definition dumpOwnerFirst : Reader :=
  mkReader (bytes_of_string Header)
    [Object objectEmpty; DumpParams paramsLE8; Eof].

(** [r] is one of the records listed in [owners[t]]. *)
Definition ownedBy (c : TreeClimber) (t : Z) (r : Record) : Prop :=
  exists os, owners c !! t = Some os /\ r ∈ os.

(** ** Reference definitions for the traversals *)

(** The StackFrame record at [a] names [b] as its child, and [b] holds a
    StackFrame record too. *)
Definition frameLink (c : TreeClimber) (a b : Z) : Prop :=
  exists f g,
    memory c !! a = Some (StackFrame f) /\
    StackFrame.ChildPointer f = b /\ b <> 0 /\
    memory c !! b = Some (StackFrame g).

(** No chain of ChildPointer links leads from a StackFrame back to
    itself. *)
Definition acyclicFrames (c : TreeClimber) : Prop :=
  forall a, ~ tc (frameLink c) a a.

(** The addresses of the records listed anywhere in [owners]. *)
Definition ownerAddresses (c : TreeClimber) : gset Z :=
  list_to_set
    (omap GetAddress (mjoin ((map_to_list (owners c)).*2))).

(** A query terminates when some amount of fuel lets it come to its end,
    by a return or by a panic, and it then gives that same answer with any
    larger amount.  A query that runs out of every amount of fuel never
    comes to an end. *)
Definition terminates {A : Type} (run : nat -> Answer A) : Prop :=
  exists fuel,
    ended (run fuel) <> Diverge /\
    forall fuel', (fuel <= fuel')%nat -> run fuel' = run fuel.

(** Dumps and analyzers used to exercise the traversals. *)

(** A StackFrame at 16 whose ChildPointer is its own address. *)
Definition frameSelf : StackFrame.t :=
  StackFrame.mk 16 0 16 [] 0 0 0 "main.loop" [].
Definition dumpSelfFrame : Reader :=
  mkReader (bytes_of_string Header)
    [DumpParams paramsLE8; StackFrame frameSelf; Eof].

(** A StackFrame at 16 whose ChildPointer, 32, is the address of no
    record. *)
Definition frameDangling : StackFrame.t :=
  StackFrame.mk 16 0 32 [] 0 0 0 "main.main" [].
Definition dumpDanglingFrame : Reader :=
  mkReader (bytes_of_string Header)
    [DumpParams paramsLE8; StackFrame frameDangling; Eof].

(** Object X at 0xA000 points to 0xB000 and Object Y at 0xB000 points to
    0xA000. *)
Definition objectX : Object.t :=
  Object.mk 0xA000 [x00; xb0; x00; x00; x00; x00; x00; x00] [0] "".
Definition objectY : Object.t :=
  Object.mk 0xB000 [x00; xa0; x00; x00; x00; x00; x00; x00] [0] "".
Definition dumpCycle : Reader :=
  mkReader (bytes_of_string Header)
    [DumpParams paramsLE8; Object objectX; Object objectY; Eof].

(** Two StackFrames, the one at 16 with the one at 32 as its child, and an
    Object at 64 that the frame at 16 points to. *)
Definition frameOuter : StackFrame.t :=
  StackFrame.mk 16 1 32 [x40; x00; x00; x00; x00; x00; x00; x00] 0 0 0
    "main.main" [0].
Definition frameInner : StackFrame.t :=
  StackFrame.mk 32 0 0 [] 0 0 0 "main.work" [].
Definition objectLeaf : Object.t := Object.mk 64 [] [] "".
Definition climberFrames : TreeClimber :=
  mkTreeClimber (Some paramsLE8)
    (<[16 := StackFrame frameOuter]>
       (<[32 := StackFrame frameInner]> {[64 := Object objectLeaf]}))
    {[64 := [StackFrame frameOuter]]}
    None ∅.

(** The analyzer that [NewTreeClimber] returns for [reader], for use where
    the build is known to succeed. *)
Definition builtFrom (reader : Reader) : TreeClimber :=
  match NewTreeClimber reader with
  | Ret (c, _) => c
  | _ => zeroTreeClimber
  end.

(** The three text queries of the façade, and what a caller sees of each:
    the text, and how the query ended. *)
Inductive Query : Type :=
| AskOwners (address depth : Z)
| AskAnchors (address : Z)
| AskHexdump (address : Z).

Inductive Reply : Type :=
| Printed (lines : list string) (ended : result (option error))
| Returned (text : string) (err : option error).

Definition ask (hexDump : list byte -> string) (fuel : nat)
    (c : TreeClimber) (q : Query) : TreeClimber * Reply :=
  match q with
  | AskOwners address depth =>
      let a := PrintOwners fuel c address depth in
      (after a, Printed (printed a) (ended a))
  | AskAnchors address =>
      let a := PrintAnchors fuel c address in
      (after a, Printed (printed a) (ended a))
  | AskHexdump address =>
      let '(text, err) := Hexdump hexDump c address in
      (c, Returned text err)
  end.

(** The entries that [ReadOids] keeps. *)
Definition keepOid (g : Registry) (line : Z * string) : Registry :=
  if (0 <? line.1) && (0 <? strlen line.2)
  then AddOid line.1 line.2 g else g.

(** An OID registry with the one class name Foo, for the OID 1; and the
    encoding of an Object at 16 whose contents are the 8 bytes of that OID
    and whose field list is empty, and of one with a ninth byte. *)
Definition registryFoo : Registry := AddOid 1 "Foo" initRegistry.
Definition objectBytes8 : list byte :=
  [x10; x08; x01; x00; x00; x00; x00; x00; x00; x00; x00].
Definition objectBytes9 : list byte :=
  [x10; x09; x01; x00; x00; x00; x00; x00; x00; x00; x00; x00].

(** An analyzer as no build leaves it: the Object at 16 is listed as owned
    by an Object at 32 and by one at 64, and [memory] has no record at
    32. *)
Definition objectAt16 : Object.t := Object.mk 16 [] [] "".
Definition objectAt32 : Object.t := Object.mk 32 [] [] "".
Definition objectAt64 : Object.t := Object.mk 64 [] [] "".
Definition climberMissingOwner : TreeClimber :=
  mkTreeClimber (Some paramsLE8)
    (<[16 := Object objectAt16]> {[64 := Object objectAt64]})
    {[16 := [Object objectAt32; Object objectAt64]]}
    None ∅.

(** The dumps of the scenarios: the header and [Eof] alone; and a
    BssSegment at 0x6000 that points to an Object at 0x7000, which points
    to an Object at 0x8000. *)
Definition dumpEmpty : Reader := mkReader (bytes_of_string Header) [Eof].
Definition bssAt6000 : BssSegment.t :=
  BssSegment.mk 0x6000 [x00; x70; x00; x00; x00; x00; x00; x00] [0].
Definition objectAt7000 : Object.t :=
  Object.mk 0x7000 [x00; x80; x00; x00; x00; x00; x00; x00] [0] "".
Definition objectAt8000 : Object.t := Object.mk 0x8000 [] [] "".
Definition dumpAnchored : Reader :=
  mkReader (bytes_of_string Header)
    [DumpParams paramsLE8; BssSegment bssAt6000; Object objectAt7000;
     Object objectAt8000; Eof].

(** ** Reference definitions for the indices *)

(** A map after the writes that the elements of [l] ask for, in order:
    [kv x] is the key and the value that [x] writes, if it writes. *)
Definition writeAll {X V : Type} (kv : X -> option (Z * V))
    (m : gmap Z V) (l : list X) : gmap Z V :=
  foldl (fun m x =>
           match kv x with
           | Some (k, v) => <[k := v]> m
           | None => m
           end) m l.

(** The object a finalizer record is about. *)
Definition finalizedObject (record : Record) : option Z :=
  match record with
  | RegisteredFinalizer r => Some (RegisteredFinalizer.ObjectAddress r)
  | QueuedFinalizer r => Some (QueuedFinalizer.ObjectAddress r)
  | _ => None
  end.

(** The non-zero pointers that the extractor reads from [record] under the
    DumpParams [p], in field order; none when [record] is no Owner. *)
Definition targetsOf (p : option DumpParams.t) (record : Record) : list Z :=
  match asOwner record with
  | Some o =>
      match GetPointers o p with
      | Ret pointers => filter (fun t => t <> 0) pointers
      | _ => []
      end
  | None => []
  end.

(** The pointers of a run of records, each with the record it is read
    from, in stream order; [p] is the DumpParams record in force at the
    start. *)
Fixpoint edges (p : option DumpParams.t) (records : list Record)
    : list (Z * Record) :=
  match records with
  | [] => []
  | record :: records' =>
      ((fun t => (t, record)) <$> targetsOf p record) ++
      edges (paramsAfter p [record]) records'
  end.

(** The records that [es] pairs with the target [t], in order. *)
Definition pointingAt (t : Z) (es : list (Z * Record)) : list Record :=
  (filter (fun e => e.1 = t) es).*2.

(** A map entry for a list: none for the empty list. *)
Definition entryFor {A : Type} (l : list A) : option (list A) :=
  match l with
  | [] => None
  | _ => Some l
  end.

(** A dump in which the Object at 0x3000 has a registered finalizer and,
    later in the stream, a queued one. *)
Definition finalizerRegistered : RegisteredFinalizer.t :=
  RegisteredFinalizer.mk 0x3000 0x500 0x600 0x700 0x800.
Definition finalizerQueued : QueuedFinalizer.t :=
  QueuedFinalizer.mk 0x3000 0x510 0x610 0x710 0x810.
Definition dumpFinalizers : Reader :=
  mkReader (bytes_of_string Header)
    [DumpParams paramsLE8; Object objectB;
     RegisteredFinalizer finalizerRegistered;
     QueuedFinalizer finalizerQueued; Eof].

(** The pointer fields of [o] can be read under [p]: there is none, or the
    pointer size is one the extractor knows and every field lies within
    the contents. *)
Definition fieldsFit (p : DumpParams.t) (o : Owner) : Prop :=
  GetFields o = [] \/
  (supportedPointerSize (DumpParams.PointerSize p) /\
   forall f, f ∈ GetFields o ->
             f + DumpParams.PointerSize p <= len (GetContents o)).

(** Field offsets are [uint64] values. *)
Definition offsetsUnsigned (o : Owner) : Prop :=
  forall f, f ∈ GetFields o -> 0 <= f.

(** An Owner whose second pointer field, at offset 6, runs past the end of
    its 6 bytes of contents. *)
Definition ownerShort : Owner :=
  mkOwner 8192 [x12; x34; x56; x78; x9a; xbc] [0; 6].

(** A dump that ends without an [Eof] record. *)
Definition dumpTruncated : Reader :=
  mkReader (bytes_of_string Header) [DumpParams paramsLE8; Object objectB].

(** ** Reference definitions for what the traversals print *)

(** One step against the pointers: [t] is the address of a record, and a
    record listed among the owners of [t] has the address [a]. *)
Definition ownerStep (c : TreeClimber) (t a : Z) : Prop :=
  is_Some (memory c !! t) /\
  exists r, ownedBy c t r /\ GetAddress r = Some a.

(** The line that stands for a root record; no line for the other
    records. *)
Definition anchorLine (r : Record) : option string :=
  match r with
  | OtherRoot root => Some (OtherRoot.String root)
  | StackFrame root => Some (StackFrame.String root)
  | BssSegment root => Some (BssSegment.String root)
  | DataSegment root => Some (DataSegment.String root)
  | _ => None
  end.

(** [line] is the line of a root record that owns [address], directly or
    through other records, or the line of a frame below such a root
    StackFrame. *)
Definition anchorOf (c : TreeClimber) (address : Z) (line : string) : Prop :=
  exists a,
    rtc (ownerStep c) address a /\
    ((exists r, memory c !! a = Some r /\ anchorLine r = Some line) \/
     (exists b g,
        tc (frameLink c) a b /\ memory c !! b = Some (StackFrame g) /\
        line = ("  " +:+ StackFrame.String g)%string)).

(** What a call that has returned did between the traces [s] and [s']: it
    kept the marks and the lines of [s], and of every address it marked
    itself it marked all the owners and wrote what [written] asks for. *)
Definition explored (c : TreeClimber) (written : Z -> list string -> Prop)
    (s s' : Trace) : Prop :=
  seen s ⊆ seen s' /\
  (exists more, stdout s' = stdout s ++ more) /\
  forall x, x ∈ seen s' -> x ∉ seen s ->
    (forall y, ownerStep c x y -> y ∈ seen s') /\ written x (stdout s').

(** Lines once written stay written. *)
Definition keptWhenExtended (written : Z -> list string -> Prop) : Prop :=
  forall x out more, written x out -> written x (out ++ more).

(** The root line of the record at [x], if it is a root, is in [out]. *)
Definition anchorWritten (c : TreeClimber) (x : Z) (out : list string)
    : Prop :=
  forall r line,
    memory c !! x = Some r -> anchorLine r = Some line -> line ∈ out.

(** Two spaces for each of [k] levels. *)
Fixpoint indentation (k : nat) : string :=
  match k with
  | O => ""
  | S k => indentation k +:+ "  "
  end.

(** The text that the owners query writes for the address [a]: the
    description of the record held there, or the error when there is
    none. *)
Definition ownerText (c : TreeClimber) (a : Z) (text : string) : Prop :=
  match memory c !! a with
  | Some r => asStringer r = Some text
  | None => text = notFound a
  end.


(** The text for the address [x] is in [out], at some level of
    indentation. *)
Definition ownerWritten (c : TreeClimber) (x : Z) (out : list string)
    : Prop :=
  exists k text, ownerText c x text /\ (indentation k +:+ text)%string ∈ out.

(** ** Reference definitions for the walk down a stack *)

(** [fs] are the StackFrame records that the ChildPointer links lead
    through from the frame pointer [p], down to the frame whose
    ChildPointer is 0. *)
Fixpoint frameChain (c : TreeClimber) (p : Z) (fs : list StackFrame.t)
    : Prop :=
  match fs with
  | [] => p = 0
  | f :: fs =>
      p <> 0 /\ memory c !! p = Some (StackFrame f) /\
      frameChain c (StackFrame.ChildPointer f) fs
  end.

(** The entry of a frame in the label of a StackFrame node, and its line
    below a root StackFrame. *)
Definition frameLabel (f : StackFrame.t) : string :=
  "[" +:+ fmt_d (StackFrame.Depth f) +:+ "] " +:+ StackFrame.Name f.

Definition childLine (f : StackFrame.t) : string :=
  "  " +:+ StackFrame.String f.

(** ** Package [heapdump]: loading the symbols (names.go) *)

(** [strconv.ParseUint(s, 16, 64)] of the standard library: the value and
    the error.  A digit is [0-9], [a-z] or [A-Z], and one that stands for
    16 or more is a syntax error, as is the empty string; a value that does
    not fit 64 bits is a range error. *)
Inductive NumError : Type := ErrSyntax | ErrRange.

Definition maxUint64 : Z := 2 ^ 64 - 1.

(** [lower(c)]: [c | ('x' - 'X')]. *)
Definition lower (c : Z) : Z := Z.lor c 32.

Fixpoint parseUintLoop (s : string) (n : Z) : Z * option NumError :=
  match s with
  | EmptyString => (n, None)
  | String ch s =>
      let c := Z.of_N (Ascii.N_of_ascii ch) in
      let digit :=
        if (48 <=? c) && (c <=? 57) then Some (c - 48)
        else if (97 <=? lower c) && (lower c <=? 122)
             then Some (lower c - 97 + 10)
             else None in
      match digit with
      | None => (0, Some ErrSyntax)
      | Some d =>
          if 16 <=? d then (0, Some ErrSyntax)
          else if maxUint64 / 16 + 1 <=? n then (maxUint64, Some ErrRange)
          else
            let n := wrap64 (n * 16) in
            let n1 := add64 n d in
            if (n1 <? n) || (maxUint64 <? n1)
            then (maxUint64, Some ErrRange)
            else parseUintLoop s n1
      end
  end.

Definition ParseUint (s : string) : Z * option NumError :=
  match s with
  | EmptyString => (0, Some ErrSyntax)
  | _ => parseUintLoop s 0
  end.

(** What one call [fmt.Fscanln(r, &addr, &kind, &name)] reports: [n],
    [err], and the values the call stored through the three pointers
    ([None]: the variable was not written). *)
Record Scanned3 : Type := mkScanned3
  { scan3_n : Z; scan3_err : option scanError;
    scan3_addr : option string; scan3_kind : option string;
    scan3_name : option string }.

(** A line of three fields, which scans; a line on which the scan fails
    after it stored [addr] and [kind], such as one of two fields. *)
Definition scanSymbol (addr kind name : string) : Scanned3 :=
  mkScanned3 3 None (Some addr) (Some kind) (Some name).

Definition scanShort (addr kind : string) : Scanned3 :=
  mkScanned3 2 (Some (scanFailed "unexpected newline")) (Some addr)
    (Some kind) None.

(** The loop of [ReadSymbols] over the results of the successive calls of
    [Fscanln]; past the last of them the call reports [io.EOF].  [addr],
    [kind] and [name] are the variables declared above the loop. *)
Fixpoint readSymbolsLoop (r : list Scanned3) (addr kind name : string)
    (g : Registry) : Registry * option error :=
  match r with
  | [] => (g, None)
  | sc :: r' =>
      let addr := default addr (scan3_addr sc) in
      let kind := default kind (scan3_kind sc) in
      let name := default name (scan3_name sc) in
      match scan3_err sc with
      | Some ioEOF => (g, None)
      | err =>
          let g :=
            if bool_decide (err = None) && (scan3_n sc =? 3) then
              match ParseUint addr with
              | (addrInt, None) =>
                  mkRegistry (<[addrInt := name]> (nameMap g)) (oidMap g)
              | (_, Some _) => g
              end
            else g in
          readSymbolsLoop r' addr kind name g
      end
  end.

Definition ReadSymbols (r : list Scanned3) (g : Registry)
    : Registry * option error :=
  readSymbolsLoop r ""%string ""%string ""%string g.

(** [Addr.String]: the address and, if there is one, the name of what
    resides there. *)
Definition Addr_String (a : Z) (g : Registry) : string :=
  match nameMap g !! a with
  | Some name => fmt_0x a +:+ " (" +:+ name +:+ ")"
  | None => fmt_0x a
  end.

(** ** Reference definitions for the symbols *)

(** A call that reports no error has stored all three values. *)
Definition scannedWhole (sc : Scanned3) : Prop :=
  scan3_err sc = None ->
  is_Some (scan3_addr sc) /\ is_Some (scan3_kind sc) /\
  is_Some (scan3_name sc).

(** The entry that a scanned line asks for: the line has three fields and
    the first is a hexadecimal number of at most 64 bits. *)
Definition symbolOf (sc : Scanned3) : option (Z * string) :=
  match scan3_err sc, scan3_addr sc, scan3_name sc with
  | None, Some addr, Some name =>
      if scan3_n sc =? 3 then
        match ParseUint addr with
        | (addrInt, None) => Some (addrInt, name)
        | _ => None
        end
      else None
  | _, _, _ => None
  end.

(** The calls ahead of the one that reports the end of the input. *)
Fixpoint beforeEOF (r : list Scanned3) : list Scanned3 :=
  match r with
  | [] => []
  | sc :: r' =>
      match scan3_err sc with
      | Some ioEOF => []
      | _ => sc :: beforeEOF r'
      end
  end.

(** The output of [go tool nm] for a program with two symbols at the
    address 0x4a3f20, an undefined symbol, and a line whose first field is
    no number. *)
Definition symbolLines : list Scanned3 :=
  [scanSymbol "4a3f20" "T" "main.main"; scanShort "U" "fmt.Println";
   scanSymbol "zz" "T" "bad.addr"; scanSymbol "4A3F20" "T" "main.init"].

(** ** Reference definitions for the encoding of records *)

(** The byte with the value [z], for [0 <= z < 256]. *)
Definition byte_of (z : Z) : byte := default x00 (Byte.of_N (Z.to_N z)).

(** The encoding that [binary.ReadUvarint] reads ([binary.PutUvarint]):
    7 bits a byte, the least significant first, and the top bit set on
    every byte but the last. *)
Fixpoint putUvarintFrom (todo : nat) (x : Z) : list byte :=
  match todo with
  | O => []
  | S todo =>
      if x <? 128 then [byte_of x]
      else byte_of (x mod 128 + 128) :: putUvarintFrom todo (x / 128)
  end.

Definition PutUvarint (x : Z) : list byte := putUvarintFrom MaxVarintLen64 x.

Definition isUint64 (x : Z) : Prop := 0 <= x < 2 ^ 64.

(** The field kinds string, bytes, bool and fieldlist of the format.  In a
    field list every pointer field is a pair of the kind 1 and the offset,
    and the kind 0 ends the list. *)
Definition putBytes (bs : list byte) : list byte :=
  PutUvarint (len bs) ++ bs.

Definition putString (s : string) : list byte :=
  putBytes (list_byte_of_string s).

Definition putBool (b : bool) : list byte :=
  PutUvarint (if b then 1 else 0).

Definition putFieldList (fs : list Z) : list byte :=
  flat_map (fun f => PutUvarint 1 ++ PutUvarint f) fs ++ PutUvarint 0.

(** The encoding of an Object record, behind its tag. *)
Definition putObject (o : Object.t) : list byte :=
  PutUvarint (Object.Address o) ++ putBytes (Object.Contents o) ++
  putFieldList (Object.Fields o).

(** The class name that the OID registry gives to contents, which must be
    more than 8 bytes. *)
Definition classOf (g : Registry) (contents : list byte) : option string :=
  if 8 <? len contents then oidMap g !! le_value (take 8 contents) else None.

(** ** Package [heapdump]: decoding the other records

    A [Read] method is a run of statements that fill in the record [r]
    and consume the stream; it returns at the first [err != nil], with the
    record as far as it was filled in.  [make] is taken to succeed,
    whatever the length read from the stream. *)

Definition Reading (R : Type) : Type :=
  R -> list byte -> R * option error * list byte.

Definition andThen {R : Type} (a b : Reading R) : Reading R :=
  fun r reader =>
    let '(r, err, reader) := a r reader in
    match err with
    | Some e => (r, Some e, reader)
    | None => b r reader
    end.

Notation "a ;; b" := (andThen a b)
  (at level 100, b at level 200, right associativity, only parsing).

(** [r.X, err = binary.ReadUvarint(reader)]: the field is assigned
    whatever the call returns. *)
Definition uvarint {R : Type} (set : Z -> R -> R) : Reading R :=
  fun r reader =>
    let '(X, err, reader) := ReadUvarint reader in (set X r, err, reader).

(** [Status, err = binary.ReadUvarint(reader)] into a local variable, and
    [r.Status = StatusType(Status)] behind the test of [err]. *)
Definition status {R : Type} (set : Z -> R -> R) : Reading R :=
  fun r reader =>
    let '(Status, err, reader) := ReadUvarint reader in
    match err with
    | Some e => (r, Some e, reader)
    | None => (set Status r, None, reader)
    end.

(** [XInt, err := binary.ReadUvarint(reader)] and [r.X = (XInt != 0)]. *)
Definition boolean {R : Type} (set : bool -> R -> R) : Reading R :=
  fun r reader =>
    let '(XInt, err, reader) := ReadUvarint reader in
    match err with
    | Some e => (r, Some e, reader)
    | None => (set (negb (XInt =? 0)) r, None, reader)
    end.

(** The length, the buffer [XBuf], and [r.X = string(XBuf)]. *)
Definition text {R : Type} (set : string -> R -> R) : Reading R :=
  fun r reader =>
    let '(XLen, err, reader) := ReadUvarint reader in
    match err with
    | Some e => (r, Some e, reader)
    | None =>
        let '(XBuf, err, reader) := ReadFull XLen reader in
        match err with
        | Some e => (r, Some e, reader)
        | None => (set (string_of_list_byte XBuf) r, None, reader)
        end
    end.

(** The length, and [io.ReadFull] into [r.X] itself. *)
Definition bytes {R : Type} (set : list byte -> R -> R) : Reading R :=
  fun r reader =>
    let '(XLen, err, reader) := ReadUvarint reader in
    match err with
    | Some e => (r, Some e, reader)
    | None =>
        let '(X, err, reader) := ReadFull XLen reader in
        (set X r, err, reader)
    end.

(** The loop over a field list, which appends to [r.X]; it stops before
    the fuel given here does. *)
Definition ReadFieldList (reader : list byte)
    : list Z * option error * list byte :=
  match readFields (S (length reader)) [] reader with
  | Some out => out
  | None => ([], None, reader)
  end.

Definition fieldlist {R : Type} (set : list Z -> R -> R) : Reading R :=
  fun r reader =>
    let '(X, err, reader) := ReadFieldList reader in (set X r, err, reader).

(** [for i := 0; i < 256; i++ { r.X[i], err = binary.ReadUvarint(reader);
    ... }], from [i] on and for [todo] more turns. *)
Fixpoint uvarints {R : Type} (todo i : nat) (set : nat -> Z -> R -> R)
    : Reading R :=
  match todo with
  | O => fun r reader => (r, None, reader)
  | S todo => uvarint (set i) ;; uvarints todo (S i) set
  end.
(** *** OtherRoot *)

Definition OtherRoot_zero : OtherRoot.t :=
  OtherRoot.mk "" 0.

Definition OtherRoot_set_Description (v : string) (r : OtherRoot.t)
    : OtherRoot.t :=
  OtherRoot.mk v (OtherRoot.Address r).
Definition OtherRoot_set_Address (v : Z) (r : OtherRoot.t)
    : OtherRoot.t :=
  OtherRoot.mk (OtherRoot.Description r) v.

Definition OtherRoot_Read : Reading OtherRoot.t :=
  text OtherRoot_set_Description ;;
  uvarint OtherRoot_set_Address.

(** *** TypeDescriptor *)

Definition TypeDescriptor_zero : TypeDescriptor.t :=
  TypeDescriptor.mk 0 0 "" false.

Definition TypeDescriptor_set_Address (v : Z) (r : TypeDescriptor.t)
    : TypeDescriptor.t :=
  TypeDescriptor.mk v (TypeDescriptor.TypeSize r) (TypeDescriptor.Name r)
    (TypeDescriptor.Indirect r).
Definition TypeDescriptor_set_TypeSize (v : Z) (r : TypeDescriptor.t)
    : TypeDescriptor.t :=
  TypeDescriptor.mk (TypeDescriptor.Address r) v (TypeDescriptor.Name r)
    (TypeDescriptor.Indirect r).
Definition TypeDescriptor_set_Name (v : string) (r : TypeDescriptor.t)
    : TypeDescriptor.t :=
  TypeDescriptor.mk (TypeDescriptor.Address r) (TypeDescriptor.TypeSize r) v
    (TypeDescriptor.Indirect r).
Definition TypeDescriptor_set_Indirect (v : bool) (r : TypeDescriptor.t)
    : TypeDescriptor.t :=
  TypeDescriptor.mk (TypeDescriptor.Address r) (TypeDescriptor.TypeSize r)
    (TypeDescriptor.Name r) v.

Definition TypeDescriptor_Read : Reading TypeDescriptor.t :=
  uvarint TypeDescriptor_set_Address ;;
  uvarint TypeDescriptor_set_TypeSize ;;
  text TypeDescriptor_set_Name ;;
  boolean TypeDescriptor_set_Indirect.

(** *** Goroutine *)

Definition Goroutine_zero : Goroutine.t :=
  Goroutine.mk 0 0 0 0 0 false false 0 "" 0 0 0 0.

Definition Goroutine_set_Address (v : Z) (r : Goroutine.t)
    : Goroutine.t :=
  Goroutine.mk v (Goroutine.StackPointer r) (Goroutine.RoutineId r)
    (Goroutine.CreatorPointer r) (Goroutine.Status r) (Goroutine.System r)
    (Goroutine.Background r) (Goroutine.WaitStart r) (Goroutine.WaitReason r)
    (Goroutine.CurrentContextPointer r)
    (Goroutine.OsThreadDescriptorAddress r) (Goroutine.TopDefer r)
    (Goroutine.TopPanic r).
Definition Goroutine_set_StackPointer (v : Z) (r : Goroutine.t)
    : Goroutine.t :=
  Goroutine.mk (Goroutine.Address r) v (Goroutine.RoutineId r)
    (Goroutine.CreatorPointer r) (Goroutine.Status r) (Goroutine.System r)
    (Goroutine.Background r) (Goroutine.WaitStart r) (Goroutine.WaitReason r)
    (Goroutine.CurrentContextPointer r)
    (Goroutine.OsThreadDescriptorAddress r) (Goroutine.TopDefer r)
    (Goroutine.TopPanic r).
Definition Goroutine_set_RoutineId (v : Z) (r : Goroutine.t)
    : Goroutine.t :=
  Goroutine.mk (Goroutine.Address r) (Goroutine.StackPointer r) v
    (Goroutine.CreatorPointer r) (Goroutine.Status r) (Goroutine.System r)
    (Goroutine.Background r) (Goroutine.WaitStart r) (Goroutine.WaitReason r)
    (Goroutine.CurrentContextPointer r)
    (Goroutine.OsThreadDescriptorAddress r) (Goroutine.TopDefer r)
    (Goroutine.TopPanic r).
Definition Goroutine_set_CreatorPointer (v : Z) (r : Goroutine.t)
    : Goroutine.t :=
  Goroutine.mk (Goroutine.Address r) (Goroutine.StackPointer r)
    (Goroutine.RoutineId r) v (Goroutine.Status r) (Goroutine.System r)
    (Goroutine.Background r) (Goroutine.WaitStart r) (Goroutine.WaitReason r)
    (Goroutine.CurrentContextPointer r)
    (Goroutine.OsThreadDescriptorAddress r) (Goroutine.TopDefer r)
    (Goroutine.TopPanic r).
Definition Goroutine_set_Status (v : Z) (r : Goroutine.t)
    : Goroutine.t :=
  Goroutine.mk (Goroutine.Address r) (Goroutine.StackPointer r)
    (Goroutine.RoutineId r) (Goroutine.CreatorPointer r) v
    (Goroutine.System r) (Goroutine.Background r) (Goroutine.WaitStart r)
    (Goroutine.WaitReason r) (Goroutine.CurrentContextPointer r)
    (Goroutine.OsThreadDescriptorAddress r) (Goroutine.TopDefer r)
    (Goroutine.TopPanic r).
Definition Goroutine_set_System (v : bool) (r : Goroutine.t)
    : Goroutine.t :=
  Goroutine.mk (Goroutine.Address r) (Goroutine.StackPointer r)
    (Goroutine.RoutineId r) (Goroutine.CreatorPointer r) (Goroutine.Status r)
    v (Goroutine.Background r) (Goroutine.WaitStart r)
    (Goroutine.WaitReason r) (Goroutine.CurrentContextPointer r)
    (Goroutine.OsThreadDescriptorAddress r) (Goroutine.TopDefer r)
    (Goroutine.TopPanic r).
Definition Goroutine_set_Background (v : bool) (r : Goroutine.t)
    : Goroutine.t :=
  Goroutine.mk (Goroutine.Address r) (Goroutine.StackPointer r)
    (Goroutine.RoutineId r) (Goroutine.CreatorPointer r) (Goroutine.Status r)
    (Goroutine.System r) v (Goroutine.WaitStart r) (Goroutine.WaitReason r)
    (Goroutine.CurrentContextPointer r)
    (Goroutine.OsThreadDescriptorAddress r) (Goroutine.TopDefer r)
    (Goroutine.TopPanic r).
Definition Goroutine_set_WaitStart (v : Z) (r : Goroutine.t)
    : Goroutine.t :=
  Goroutine.mk (Goroutine.Address r) (Goroutine.StackPointer r)
    (Goroutine.RoutineId r) (Goroutine.CreatorPointer r) (Goroutine.Status r)
    (Goroutine.System r) (Goroutine.Background r) v (Goroutine.WaitReason r)
    (Goroutine.CurrentContextPointer r)
    (Goroutine.OsThreadDescriptorAddress r) (Goroutine.TopDefer r)
    (Goroutine.TopPanic r).
Definition Goroutine_set_WaitReason (v : string) (r : Goroutine.t)
    : Goroutine.t :=
  Goroutine.mk (Goroutine.Address r) (Goroutine.StackPointer r)
    (Goroutine.RoutineId r) (Goroutine.CreatorPointer r) (Goroutine.Status r)
    (Goroutine.System r) (Goroutine.Background r) (Goroutine.WaitStart r) v
    (Goroutine.CurrentContextPointer r)
    (Goroutine.OsThreadDescriptorAddress r) (Goroutine.TopDefer r)
    (Goroutine.TopPanic r).
Definition Goroutine_set_CurrentContextPointer (v : Z) (r : Goroutine.t)
    : Goroutine.t :=
  Goroutine.mk (Goroutine.Address r) (Goroutine.StackPointer r)
    (Goroutine.RoutineId r) (Goroutine.CreatorPointer r) (Goroutine.Status r)
    (Goroutine.System r) (Goroutine.Background r) (Goroutine.WaitStart r)
    (Goroutine.WaitReason r) v (Goroutine.OsThreadDescriptorAddress r)
    (Goroutine.TopDefer r) (Goroutine.TopPanic r).
Definition Goroutine_set_OsThreadDescriptorAddress (v : Z) (r : Goroutine.t)
    : Goroutine.t :=
  Goroutine.mk (Goroutine.Address r) (Goroutine.StackPointer r)
    (Goroutine.RoutineId r) (Goroutine.CreatorPointer r) (Goroutine.Status r)
    (Goroutine.System r) (Goroutine.Background r) (Goroutine.WaitStart r)
    (Goroutine.WaitReason r) (Goroutine.CurrentContextPointer r) v
    (Goroutine.TopDefer r) (Goroutine.TopPanic r).
Definition Goroutine_set_TopDefer (v : Z) (r : Goroutine.t)
    : Goroutine.t :=
  Goroutine.mk (Goroutine.Address r) (Goroutine.StackPointer r)
    (Goroutine.RoutineId r) (Goroutine.CreatorPointer r) (Goroutine.Status r)
    (Goroutine.System r) (Goroutine.Background r) (Goroutine.WaitStart r)
    (Goroutine.WaitReason r) (Goroutine.CurrentContextPointer r)
    (Goroutine.OsThreadDescriptorAddress r) v (Goroutine.TopPanic r).
Definition Goroutine_set_TopPanic (v : Z) (r : Goroutine.t)
    : Goroutine.t :=
  Goroutine.mk (Goroutine.Address r) (Goroutine.StackPointer r)
    (Goroutine.RoutineId r) (Goroutine.CreatorPointer r) (Goroutine.Status r)
    (Goroutine.System r) (Goroutine.Background r) (Goroutine.WaitStart r)
    (Goroutine.WaitReason r) (Goroutine.CurrentContextPointer r)
    (Goroutine.OsThreadDescriptorAddress r) (Goroutine.TopDefer r) v.

Definition Goroutine_Read : Reading Goroutine.t :=
  uvarint Goroutine_set_Address ;;
  uvarint Goroutine_set_StackPointer ;;
  uvarint Goroutine_set_RoutineId ;;
  uvarint Goroutine_set_CreatorPointer ;;
  status Goroutine_set_Status ;;
  boolean Goroutine_set_System ;;
  boolean Goroutine_set_Background ;;
  uvarint Goroutine_set_WaitStart ;;
  text Goroutine_set_WaitReason ;;
  uvarint Goroutine_set_CurrentContextPointer ;;
  uvarint Goroutine_set_OsThreadDescriptorAddress ;;
  uvarint Goroutine_set_TopDefer ;;
  uvarint Goroutine_set_TopPanic.

(** *** StackFrame *)

Definition StackFrame_zero : StackFrame.t :=
  StackFrame.mk 0 0 0 [] 0 0 0 "" [].

Definition StackFrame_set_Address (v : Z) (r : StackFrame.t)
    : StackFrame.t :=
  StackFrame.mk v (StackFrame.Depth r) (StackFrame.ChildPointer r)
    (StackFrame.Contents r) (StackFrame.EntryPc r) (StackFrame.CurrentPc r)
    (StackFrame.ContinuationPc r) (StackFrame.Name r) (StackFrame.Fields r).
Definition StackFrame_set_Depth (v : Z) (r : StackFrame.t)
    : StackFrame.t :=
  StackFrame.mk (StackFrame.Address r) v (StackFrame.ChildPointer r)
    (StackFrame.Contents r) (StackFrame.EntryPc r) (StackFrame.CurrentPc r)
    (StackFrame.ContinuationPc r) (StackFrame.Name r) (StackFrame.Fields r).
Definition StackFrame_set_ChildPointer (v : Z) (r : StackFrame.t)
    : StackFrame.t :=
  StackFrame.mk (StackFrame.Address r) (StackFrame.Depth r) v
    (StackFrame.Contents r) (StackFrame.EntryPc r) (StackFrame.CurrentPc r)
    (StackFrame.ContinuationPc r) (StackFrame.Name r) (StackFrame.Fields r).
Definition StackFrame_set_Contents (v : list byte) (r : StackFrame.t)
    : StackFrame.t :=
  StackFrame.mk (StackFrame.Address r) (StackFrame.Depth r)
    (StackFrame.ChildPointer r) v (StackFrame.EntryPc r)
    (StackFrame.CurrentPc r) (StackFrame.ContinuationPc r) (StackFrame.Name r)
    (StackFrame.Fields r).
Definition StackFrame_set_EntryPc (v : Z) (r : StackFrame.t)
    : StackFrame.t :=
  StackFrame.mk (StackFrame.Address r) (StackFrame.Depth r)
    (StackFrame.ChildPointer r) (StackFrame.Contents r) v
    (StackFrame.CurrentPc r) (StackFrame.ContinuationPc r) (StackFrame.Name r)
    (StackFrame.Fields r).
Definition StackFrame_set_CurrentPc (v : Z) (r : StackFrame.t)
    : StackFrame.t :=
  StackFrame.mk (StackFrame.Address r) (StackFrame.Depth r)
    (StackFrame.ChildPointer r) (StackFrame.Contents r) (StackFrame.EntryPc r)
    v (StackFrame.ContinuationPc r) (StackFrame.Name r) (StackFrame.Fields r).
Definition StackFrame_set_ContinuationPc (v : Z) (r : StackFrame.t)
    : StackFrame.t :=
  StackFrame.mk (StackFrame.Address r) (StackFrame.Depth r)
    (StackFrame.ChildPointer r) (StackFrame.Contents r) (StackFrame.EntryPc r)
    (StackFrame.CurrentPc r) v (StackFrame.Name r) (StackFrame.Fields r).
Definition StackFrame_set_Name (v : string) (r : StackFrame.t)
    : StackFrame.t :=
  StackFrame.mk (StackFrame.Address r) (StackFrame.Depth r)
    (StackFrame.ChildPointer r) (StackFrame.Contents r) (StackFrame.EntryPc r)
    (StackFrame.CurrentPc r) (StackFrame.ContinuationPc r) v
    (StackFrame.Fields r).
Definition StackFrame_set_Fields (v : list Z) (r : StackFrame.t)
    : StackFrame.t :=
  StackFrame.mk (StackFrame.Address r) (StackFrame.Depth r)
    (StackFrame.ChildPointer r) (StackFrame.Contents r) (StackFrame.EntryPc r)
    (StackFrame.CurrentPc r) (StackFrame.ContinuationPc r) (StackFrame.Name r)
    v.

Definition StackFrame_Read : Reading StackFrame.t :=
  uvarint StackFrame_set_Address ;;
  uvarint StackFrame_set_Depth ;;
  uvarint StackFrame_set_ChildPointer ;;
  bytes StackFrame_set_Contents ;;
  uvarint StackFrame_set_EntryPc ;;
  uvarint StackFrame_set_CurrentPc ;;
  uvarint StackFrame_set_ContinuationPc ;;
  text StackFrame_set_Name ;;
  fieldlist StackFrame_set_Fields.

(** *** DumpParams *)

Definition DumpParams_zero : DumpParams.t :=
  DumpParams.mk false 0 0 0 "" "" 0.

Definition DumpParams_set_BigEndian (v : bool) (r : DumpParams.t)
    : DumpParams.t :=
  DumpParams.mk v (DumpParams.PointerSize r) (DumpParams.HeapStart r)
    (DumpParams.HeapEnd r) (DumpParams.Architecture r)
    (DumpParams.GoExperiment r) (DumpParams.Ncpu r).
Definition DumpParams_set_PointerSize (v : Z) (r : DumpParams.t)
    : DumpParams.t :=
  DumpParams.mk (DumpParams.BigEndian r) v (DumpParams.HeapStart r)
    (DumpParams.HeapEnd r) (DumpParams.Architecture r)
    (DumpParams.GoExperiment r) (DumpParams.Ncpu r).
Definition DumpParams_set_HeapStart (v : Z) (r : DumpParams.t)
    : DumpParams.t :=
  DumpParams.mk (DumpParams.BigEndian r) (DumpParams.PointerSize r) v
    (DumpParams.HeapEnd r) (DumpParams.Architecture r)
    (DumpParams.GoExperiment r) (DumpParams.Ncpu r).
Definition DumpParams_set_HeapEnd (v : Z) (r : DumpParams.t)
    : DumpParams.t :=
  DumpParams.mk (DumpParams.BigEndian r) (DumpParams.PointerSize r)
    (DumpParams.HeapStart r) v (DumpParams.Architecture r)
    (DumpParams.GoExperiment r) (DumpParams.Ncpu r).
Definition DumpParams_set_Architecture (v : string) (r : DumpParams.t)
    : DumpParams.t :=
  DumpParams.mk (DumpParams.BigEndian r) (DumpParams.PointerSize r)
    (DumpParams.HeapStart r) (DumpParams.HeapEnd r) v
    (DumpParams.GoExperiment r) (DumpParams.Ncpu r).
Definition DumpParams_set_GoExperiment (v : string) (r : DumpParams.t)
    : DumpParams.t :=
  DumpParams.mk (DumpParams.BigEndian r) (DumpParams.PointerSize r)
    (DumpParams.HeapStart r) (DumpParams.HeapEnd r)
    (DumpParams.Architecture r) v (DumpParams.Ncpu r).
Definition DumpParams_set_Ncpu (v : Z) (r : DumpParams.t)
    : DumpParams.t :=
  DumpParams.mk (DumpParams.BigEndian r) (DumpParams.PointerSize r)
    (DumpParams.HeapStart r) (DumpParams.HeapEnd r)
    (DumpParams.Architecture r) (DumpParams.GoExperiment r) v.

Definition DumpParams_Read : Reading DumpParams.t :=
  boolean DumpParams_set_BigEndian ;;
  uvarint DumpParams_set_PointerSize ;;
  uvarint DumpParams_set_HeapStart ;;
  uvarint DumpParams_set_HeapEnd ;;
  text DumpParams_set_Architecture ;;
  text DumpParams_set_GoExperiment ;;
  uvarint DumpParams_set_Ncpu.

(** *** RegisteredFinalizer *)

Definition RegisteredFinalizer_zero : RegisteredFinalizer.t :=
  RegisteredFinalizer.mk 0 0 0 0 0.

Definition RegisteredFinalizer_set_ObjectAddress
    (v : Z) (r : RegisteredFinalizer.t)
    : RegisteredFinalizer.t :=
  RegisteredFinalizer.mk v (RegisteredFinalizer.FinalizerAddress r)
    (RegisteredFinalizer.FinalizerEntryPc r)
    (RegisteredFinalizer.FinalizerType r) (RegisteredFinalizer.ObjectType r).
Definition RegisteredFinalizer_set_FinalizerAddress
    (v : Z) (r : RegisteredFinalizer.t)
    : RegisteredFinalizer.t :=
  RegisteredFinalizer.mk (RegisteredFinalizer.ObjectAddress r) v
    (RegisteredFinalizer.FinalizerEntryPc r)
    (RegisteredFinalizer.FinalizerType r) (RegisteredFinalizer.ObjectType r).
Definition RegisteredFinalizer_set_FinalizerEntryPc
    (v : Z) (r : RegisteredFinalizer.t)
    : RegisteredFinalizer.t :=
  RegisteredFinalizer.mk (RegisteredFinalizer.ObjectAddress r)
    (RegisteredFinalizer.FinalizerAddress r) v
    (RegisteredFinalizer.FinalizerType r) (RegisteredFinalizer.ObjectType r).
Definition RegisteredFinalizer_set_FinalizerType
    (v : Z) (r : RegisteredFinalizer.t)
    : RegisteredFinalizer.t :=
  RegisteredFinalizer.mk (RegisteredFinalizer.ObjectAddress r)
    (RegisteredFinalizer.FinalizerAddress r)
    (RegisteredFinalizer.FinalizerEntryPc r) v
    (RegisteredFinalizer.ObjectType r).
Definition RegisteredFinalizer_set_ObjectType
    (v : Z) (r : RegisteredFinalizer.t)
    : RegisteredFinalizer.t :=
  RegisteredFinalizer.mk (RegisteredFinalizer.ObjectAddress r)
    (RegisteredFinalizer.FinalizerAddress r)
    (RegisteredFinalizer.FinalizerEntryPc r)
    (RegisteredFinalizer.FinalizerType r) v.

Definition RegisteredFinalizer_Read : Reading RegisteredFinalizer.t :=
  uvarint RegisteredFinalizer_set_ObjectAddress ;;
  uvarint RegisteredFinalizer_set_FinalizerAddress ;;
  uvarint RegisteredFinalizer_set_FinalizerEntryPc ;;
  uvarint RegisteredFinalizer_set_FinalizerType ;;
  uvarint RegisteredFinalizer_set_ObjectType.

(** *** Itab *)

Definition Itab_zero : Itab.t :=
  Itab.mk 0 0.

Definition Itab_set_Address (v : Z) (r : Itab.t)
    : Itab.t :=
  Itab.mk v (Itab.TypeDescriptorAddress r).
Definition Itab_set_TypeDescriptorAddress (v : Z) (r : Itab.t)
    : Itab.t :=
  Itab.mk (Itab.Address r) v.

Definition Itab_Read : Reading Itab.t :=
  uvarint Itab_set_Address ;;
  uvarint Itab_set_TypeDescriptorAddress.

(** *** OsThread *)

Definition OsThread_zero : OsThread.t :=
  OsThread.mk 0 0 0.

Definition OsThread_set_ThreadDescriptorAddress (v : Z) (r : OsThread.t)
    : OsThread.t :=
  OsThread.mk v (OsThread.GoId r) (OsThread.OsId r).
Definition OsThread_set_GoId (v : Z) (r : OsThread.t)
    : OsThread.t :=
  OsThread.mk (OsThread.ThreadDescriptorAddress r) v (OsThread.OsId r).
Definition OsThread_set_OsId (v : Z) (r : OsThread.t)
    : OsThread.t :=
  OsThread.mk (OsThread.ThreadDescriptorAddress r) (OsThread.GoId r) v.

Definition OsThread_Read : Reading OsThread.t :=
  uvarint OsThread_set_ThreadDescriptorAddress ;;
  uvarint OsThread_set_GoId ;;
  uvarint OsThread_set_OsId.

(** *** MemStats *)

Definition MemStats_zero : MemStats.t :=
  MemStats.mk 0 0 0 0 0 0 0 0 0 0 0 0 0 0 0 0 0 0 0 0 0 0 0 0
    (replicate 256 0) 0.

Definition MemStats_set_Alloc (v : Z) (r : MemStats.t)
    : MemStats.t :=
  MemStats.mk v (MemStats.TotalAlloc r) (MemStats.Sys r) (MemStats.Lookups r)
    (MemStats.Mallocs r) (MemStats.Frees r) (MemStats.HeapAlloc r)
    (MemStats.HeapSys r) (MemStats.HeapIdle r) (MemStats.HeapInuse r)
    (MemStats.HeapReleased r) (MemStats.HeapObjects r) (MemStats.StackInuse r)
    (MemStats.StackSys r) (MemStats.MSpanInuse r) (MemStats.MSpanSys r)
    (MemStats.MCacheInuse r) (MemStats.MCacheSys r) (MemStats.BuckHashSys r)
    (MemStats.GCSys r) (MemStats.OtherSys r) (MemStats.NextGC r)
    (MemStats.LastGC r) (MemStats.PauseTotalNs r) (MemStats.PauseNs r)
    (MemStats.NumGC r).
Definition MemStats_set_TotalAlloc (v : Z) (r : MemStats.t)
    : MemStats.t :=
  MemStats.mk (MemStats.Alloc r) v (MemStats.Sys r) (MemStats.Lookups r)
    (MemStats.Mallocs r) (MemStats.Frees r) (MemStats.HeapAlloc r)
    (MemStats.HeapSys r) (MemStats.HeapIdle r) (MemStats.HeapInuse r)
    (MemStats.HeapReleased r) (MemStats.HeapObjects r) (MemStats.StackInuse r)
    (MemStats.StackSys r) (MemStats.MSpanInuse r) (MemStats.MSpanSys r)
    (MemStats.MCacheInuse r) (MemStats.MCacheSys r) (MemStats.BuckHashSys r)
    (MemStats.GCSys r) (MemStats.OtherSys r) (MemStats.NextGC r)
    (MemStats.LastGC r) (MemStats.PauseTotalNs r) (MemStats.PauseNs r)
    (MemStats.NumGC r).
Definition MemStats_set_Sys (v : Z) (r : MemStats.t)
    : MemStats.t :=
  MemStats.mk (MemStats.Alloc r) (MemStats.TotalAlloc r) v
    (MemStats.Lookups r) (MemStats.Mallocs r) (MemStats.Frees r)
    (MemStats.HeapAlloc r) (MemStats.HeapSys r) (MemStats.HeapIdle r)
    (MemStats.HeapInuse r) (MemStats.HeapReleased r) (MemStats.HeapObjects r)
    (MemStats.StackInuse r) (MemStats.StackSys r) (MemStats.MSpanInuse r)
    (MemStats.MSpanSys r) (MemStats.MCacheInuse r) (MemStats.MCacheSys r)
    (MemStats.BuckHashSys r) (MemStats.GCSys r) (MemStats.OtherSys r)
    (MemStats.NextGC r) (MemStats.LastGC r) (MemStats.PauseTotalNs r)
    (MemStats.PauseNs r) (MemStats.NumGC r).
Definition MemStats_set_Lookups (v : Z) (r : MemStats.t)
    : MemStats.t :=
  MemStats.mk (MemStats.Alloc r) (MemStats.TotalAlloc r) (MemStats.Sys r) v
    (MemStats.Mallocs r) (MemStats.Frees r) (MemStats.HeapAlloc r)
    (MemStats.HeapSys r) (MemStats.HeapIdle r) (MemStats.HeapInuse r)
    (MemStats.HeapReleased r) (MemStats.HeapObjects r) (MemStats.StackInuse r)
    (MemStats.StackSys r) (MemStats.MSpanInuse r) (MemStats.MSpanSys r)
    (MemStats.MCacheInuse r) (MemStats.MCacheSys r) (MemStats.BuckHashSys r)
    (MemStats.GCSys r) (MemStats.OtherSys r) (MemStats.NextGC r)
    (MemStats.LastGC r) (MemStats.PauseTotalNs r) (MemStats.PauseNs r)
    (MemStats.NumGC r).
Definition MemStats_set_Mallocs (v : Z) (r : MemStats.t)
    : MemStats.t :=
  MemStats.mk (MemStats.Alloc r) (MemStats.TotalAlloc r) (MemStats.Sys r)
    (MemStats.Lookups r) v (MemStats.Frees r) (MemStats.HeapAlloc r)
    (MemStats.HeapSys r) (MemStats.HeapIdle r) (MemStats.HeapInuse r)
    (MemStats.HeapReleased r) (MemStats.HeapObjects r) (MemStats.StackInuse r)
    (MemStats.StackSys r) (MemStats.MSpanInuse r) (MemStats.MSpanSys r)
    (MemStats.MCacheInuse r) (MemStats.MCacheSys r) (MemStats.BuckHashSys r)
    (MemStats.GCSys r) (MemStats.OtherSys r) (MemStats.NextGC r)
    (MemStats.LastGC r) (MemStats.PauseTotalNs r) (MemStats.PauseNs r)
    (MemStats.NumGC r).
Definition MemStats_set_Frees (v : Z) (r : MemStats.t)
    : MemStats.t :=
  MemStats.mk (MemStats.Alloc r) (MemStats.TotalAlloc r) (MemStats.Sys r)
    (MemStats.Lookups r) (MemStats.Mallocs r) v (MemStats.HeapAlloc r)
    (MemStats.HeapSys r) (MemStats.HeapIdle r) (MemStats.HeapInuse r)
    (MemStats.HeapReleased r) (MemStats.HeapObjects r) (MemStats.StackInuse r)
    (MemStats.StackSys r) (MemStats.MSpanInuse r) (MemStats.MSpanSys r)
    (MemStats.MCacheInuse r) (MemStats.MCacheSys r) (MemStats.BuckHashSys r)
    (MemStats.GCSys r) (MemStats.OtherSys r) (MemStats.NextGC r)
    (MemStats.LastGC r) (MemStats.PauseTotalNs r) (MemStats.PauseNs r)
    (MemStats.NumGC r).
Definition MemStats_set_HeapAlloc (v : Z) (r : MemStats.t)
    : MemStats.t :=
  MemStats.mk (MemStats.Alloc r) (MemStats.TotalAlloc r) (MemStats.Sys r)
    (MemStats.Lookups r) (MemStats.Mallocs r) (MemStats.Frees r) v
    (MemStats.HeapSys r) (MemStats.HeapIdle r) (MemStats.HeapInuse r)
    (MemStats.HeapReleased r) (MemStats.HeapObjects r) (MemStats.StackInuse r)
    (MemStats.StackSys r) (MemStats.MSpanInuse r) (MemStats.MSpanSys r)
    (MemStats.MCacheInuse r) (MemStats.MCacheSys r) (MemStats.BuckHashSys r)
    (MemStats.GCSys r) (MemStats.OtherSys r) (MemStats.NextGC r)
    (MemStats.LastGC r) (MemStats.PauseTotalNs r) (MemStats.PauseNs r)
    (MemStats.NumGC r).
Definition MemStats_set_HeapSys (v : Z) (r : MemStats.t)
    : MemStats.t :=
  MemStats.mk (MemStats.Alloc r) (MemStats.TotalAlloc r) (MemStats.Sys r)
    (MemStats.Lookups r) (MemStats.Mallocs r) (MemStats.Frees r)
    (MemStats.HeapAlloc r) v (MemStats.HeapIdle r) (MemStats.HeapInuse r)
    (MemStats.HeapReleased r) (MemStats.HeapObjects r) (MemStats.StackInuse r)
    (MemStats.StackSys r) (MemStats.MSpanInuse r) (MemStats.MSpanSys r)
    (MemStats.MCacheInuse r) (MemStats.MCacheSys r) (MemStats.BuckHashSys r)
    (MemStats.GCSys r) (MemStats.OtherSys r) (MemStats.NextGC r)
    (MemStats.LastGC r) (MemStats.PauseTotalNs r) (MemStats.PauseNs r)
    (MemStats.NumGC r).
Definition MemStats_set_HeapIdle (v : Z) (r : MemStats.t)
    : MemStats.t :=
  MemStats.mk (MemStats.Alloc r) (MemStats.TotalAlloc r) (MemStats.Sys r)
    (MemStats.Lookups r) (MemStats.Mallocs r) (MemStats.Frees r)
    (MemStats.HeapAlloc r) (MemStats.HeapSys r) v (MemStats.HeapInuse r)
    (MemStats.HeapReleased r) (MemStats.HeapObjects r) (MemStats.StackInuse r)
    (MemStats.StackSys r) (MemStats.MSpanInuse r) (MemStats.MSpanSys r)
    (MemStats.MCacheInuse r) (MemStats.MCacheSys r) (MemStats.BuckHashSys r)
    (MemStats.GCSys r) (MemStats.OtherSys r) (MemStats.NextGC r)
    (MemStats.LastGC r) (MemStats.PauseTotalNs r) (MemStats.PauseNs r)
    (MemStats.NumGC r).
Definition MemStats_set_HeapInuse (v : Z) (r : MemStats.t)
    : MemStats.t :=
  MemStats.mk (MemStats.Alloc r) (MemStats.TotalAlloc r) (MemStats.Sys r)
    (MemStats.Lookups r) (MemStats.Mallocs r) (MemStats.Frees r)
    (MemStats.HeapAlloc r) (MemStats.HeapSys r) (MemStats.HeapIdle r) v
    (MemStats.HeapReleased r) (MemStats.HeapObjects r) (MemStats.StackInuse r)
    (MemStats.StackSys r) (MemStats.MSpanInuse r) (MemStats.MSpanSys r)
    (MemStats.MCacheInuse r) (MemStats.MCacheSys r) (MemStats.BuckHashSys r)
    (MemStats.GCSys r) (MemStats.OtherSys r) (MemStats.NextGC r)
    (MemStats.LastGC r) (MemStats.PauseTotalNs r) (MemStats.PauseNs r)
    (MemStats.NumGC r).
Definition MemStats_set_HeapReleased (v : Z) (r : MemStats.t)
    : MemStats.t :=
  MemStats.mk (MemStats.Alloc r) (MemStats.TotalAlloc r) (MemStats.Sys r)
    (MemStats.Lookups r) (MemStats.Mallocs r) (MemStats.Frees r)
    (MemStats.HeapAlloc r) (MemStats.HeapSys r) (MemStats.HeapIdle r)
    (MemStats.HeapInuse r) v (MemStats.HeapObjects r) (MemStats.StackInuse r)
    (MemStats.StackSys r) (MemStats.MSpanInuse r) (MemStats.MSpanSys r)
    (MemStats.MCacheInuse r) (MemStats.MCacheSys r) (MemStats.BuckHashSys r)
    (MemStats.GCSys r) (MemStats.OtherSys r) (MemStats.NextGC r)
    (MemStats.LastGC r) (MemStats.PauseTotalNs r) (MemStats.PauseNs r)
    (MemStats.NumGC r).
Definition MemStats_set_HeapObjects (v : Z) (r : MemStats.t)
    : MemStats.t :=
  MemStats.mk (MemStats.Alloc r) (MemStats.TotalAlloc r) (MemStats.Sys r)
    (MemStats.Lookups r) (MemStats.Mallocs r) (MemStats.Frees r)
    (MemStats.HeapAlloc r) (MemStats.HeapSys r) (MemStats.HeapIdle r)
    (MemStats.HeapInuse r) (MemStats.HeapReleased r) v (MemStats.StackInuse r)
    (MemStats.StackSys r) (MemStats.MSpanInuse r) (MemStats.MSpanSys r)
    (MemStats.MCacheInuse r) (MemStats.MCacheSys r) (MemStats.BuckHashSys r)
    (MemStats.GCSys r) (MemStats.OtherSys r) (MemStats.NextGC r)
    (MemStats.LastGC r) (MemStats.PauseTotalNs r) (MemStats.PauseNs r)
    (MemStats.NumGC r).
Definition MemStats_set_StackInuse (v : Z) (r : MemStats.t)
    : MemStats.t :=
  MemStats.mk (MemStats.Alloc r) (MemStats.TotalAlloc r) (MemStats.Sys r)
    (MemStats.Lookups r) (MemStats.Mallocs r) (MemStats.Frees r)
    (MemStats.HeapAlloc r) (MemStats.HeapSys r) (MemStats.HeapIdle r)
    (MemStats.HeapInuse r) (MemStats.HeapReleased r) (MemStats.HeapObjects r)
    v (MemStats.StackSys r) (MemStats.MSpanInuse r) (MemStats.MSpanSys r)
    (MemStats.MCacheInuse r) (MemStats.MCacheSys r) (MemStats.BuckHashSys r)
    (MemStats.GCSys r) (MemStats.OtherSys r) (MemStats.NextGC r)
    (MemStats.LastGC r) (MemStats.PauseTotalNs r) (MemStats.PauseNs r)
    (MemStats.NumGC r).
Definition MemStats_set_StackSys (v : Z) (r : MemStats.t)
    : MemStats.t :=
  MemStats.mk (MemStats.Alloc r) (MemStats.TotalAlloc r) (MemStats.Sys r)
    (MemStats.Lookups r) (MemStats.Mallocs r) (MemStats.Frees r)
    (MemStats.HeapAlloc r) (MemStats.HeapSys r) (MemStats.HeapIdle r)
    (MemStats.HeapInuse r) (MemStats.HeapReleased r) (MemStats.HeapObjects r)
    (MemStats.StackInuse r) v (MemStats.MSpanInuse r) (MemStats.MSpanSys r)
    (MemStats.MCacheInuse r) (MemStats.MCacheSys r) (MemStats.BuckHashSys r)
    (MemStats.GCSys r) (MemStats.OtherSys r) (MemStats.NextGC r)
    (MemStats.LastGC r) (MemStats.PauseTotalNs r) (MemStats.PauseNs r)
    (MemStats.NumGC r).
Definition MemStats_set_MSpanInuse (v : Z) (r : MemStats.t)
    : MemStats.t :=
  MemStats.mk (MemStats.Alloc r) (MemStats.TotalAlloc r) (MemStats.Sys r)
    (MemStats.Lookups r) (MemStats.Mallocs r) (MemStats.Frees r)
    (MemStats.HeapAlloc r) (MemStats.HeapSys r) (MemStats.HeapIdle r)
    (MemStats.HeapInuse r) (MemStats.HeapReleased r) (MemStats.HeapObjects r)
    (MemStats.StackInuse r) (MemStats.StackSys r) v (MemStats.MSpanSys r)
    (MemStats.MCacheInuse r) (MemStats.MCacheSys r) (MemStats.BuckHashSys r)
    (MemStats.GCSys r) (MemStats.OtherSys r) (MemStats.NextGC r)
    (MemStats.LastGC r) (MemStats.PauseTotalNs r) (MemStats.PauseNs r)
    (MemStats.NumGC r).
Definition MemStats_set_MSpanSys (v : Z) (r : MemStats.t)
    : MemStats.t :=
  MemStats.mk (MemStats.Alloc r) (MemStats.TotalAlloc r) (MemStats.Sys r)
    (MemStats.Lookups r) (MemStats.Mallocs r) (MemStats.Frees r)
    (MemStats.HeapAlloc r) (MemStats.HeapSys r) (MemStats.HeapIdle r)
    (MemStats.HeapInuse r) (MemStats.HeapReleased r) (MemStats.HeapObjects r)
    (MemStats.StackInuse r) (MemStats.StackSys r) (MemStats.MSpanInuse r) v
    (MemStats.MCacheInuse r) (MemStats.MCacheSys r) (MemStats.BuckHashSys r)
    (MemStats.GCSys r) (MemStats.OtherSys r) (MemStats.NextGC r)
    (MemStats.LastGC r) (MemStats.PauseTotalNs r) (MemStats.PauseNs r)
    (MemStats.NumGC r).
Definition MemStats_set_MCacheInuse (v : Z) (r : MemStats.t)
    : MemStats.t :=
  MemStats.mk (MemStats.Alloc r) (MemStats.TotalAlloc r) (MemStats.Sys r)
    (MemStats.Lookups r) (MemStats.Mallocs r) (MemStats.Frees r)
    (MemStats.HeapAlloc r) (MemStats.HeapSys r) (MemStats.HeapIdle r)
    (MemStats.HeapInuse r) (MemStats.HeapReleased r) (MemStats.HeapObjects r)
    (MemStats.StackInuse r) (MemStats.StackSys r) (MemStats.MSpanInuse r)
    (MemStats.MSpanSys r) v (MemStats.MCacheSys r) (MemStats.BuckHashSys r)
    (MemStats.GCSys r) (MemStats.OtherSys r) (MemStats.NextGC r)
    (MemStats.LastGC r) (MemStats.PauseTotalNs r) (MemStats.PauseNs r)
    (MemStats.NumGC r).
Definition MemStats_set_MCacheSys (v : Z) (r : MemStats.t)
    : MemStats.t :=
  MemStats.mk (MemStats.Alloc r) (MemStats.TotalAlloc r) (MemStats.Sys r)
    (MemStats.Lookups r) (MemStats.Mallocs r) (MemStats.Frees r)
    (MemStats.HeapAlloc r) (MemStats.HeapSys r) (MemStats.HeapIdle r)
    (MemStats.HeapInuse r) (MemStats.HeapReleased r) (MemStats.HeapObjects r)
    (MemStats.StackInuse r) (MemStats.StackSys r) (MemStats.MSpanInuse r)
    (MemStats.MSpanSys r) (MemStats.MCacheInuse r) v (MemStats.BuckHashSys r)
    (MemStats.GCSys r) (MemStats.OtherSys r) (MemStats.NextGC r)
    (MemStats.LastGC r) (MemStats.PauseTotalNs r) (MemStats.PauseNs r)
    (MemStats.NumGC r).
Definition MemStats_set_BuckHashSys (v : Z) (r : MemStats.t)
    : MemStats.t :=
  MemStats.mk (MemStats.Alloc r) (MemStats.TotalAlloc r) (MemStats.Sys r)
    (MemStats.Lookups r) (MemStats.Mallocs r) (MemStats.Frees r)
    (MemStats.HeapAlloc r) (MemStats.HeapSys r) (MemStats.HeapIdle r)
    (MemStats.HeapInuse r) (MemStats.HeapReleased r) (MemStats.HeapObjects r)
    (MemStats.StackInuse r) (MemStats.StackSys r) (MemStats.MSpanInuse r)
    (MemStats.MSpanSys r) (MemStats.MCacheInuse r) (MemStats.MCacheSys r) v
    (MemStats.GCSys r) (MemStats.OtherSys r) (MemStats.NextGC r)
    (MemStats.LastGC r) (MemStats.PauseTotalNs r) (MemStats.PauseNs r)
    (MemStats.NumGC r).
Definition MemStats_set_GCSys (v : Z) (r : MemStats.t)
    : MemStats.t :=
  MemStats.mk (MemStats.Alloc r) (MemStats.TotalAlloc r) (MemStats.Sys r)
    (MemStats.Lookups r) (MemStats.Mallocs r) (MemStats.Frees r)
    (MemStats.HeapAlloc r) (MemStats.HeapSys r) (MemStats.HeapIdle r)
    (MemStats.HeapInuse r) (MemStats.HeapReleased r) (MemStats.HeapObjects r)
    (MemStats.StackInuse r) (MemStats.StackSys r) (MemStats.MSpanInuse r)
    (MemStats.MSpanSys r) (MemStats.MCacheInuse r) (MemStats.MCacheSys r)
    (MemStats.BuckHashSys r) v (MemStats.OtherSys r) (MemStats.NextGC r)
    (MemStats.LastGC r) (MemStats.PauseTotalNs r) (MemStats.PauseNs r)
    (MemStats.NumGC r).
Definition MemStats_set_OtherSys (v : Z) (r : MemStats.t)
    : MemStats.t :=
  MemStats.mk (MemStats.Alloc r) (MemStats.TotalAlloc r) (MemStats.Sys r)
    (MemStats.Lookups r) (MemStats.Mallocs r) (MemStats.Frees r)
    (MemStats.HeapAlloc r) (MemStats.HeapSys r) (MemStats.HeapIdle r)
    (MemStats.HeapInuse r) (MemStats.HeapReleased r) (MemStats.HeapObjects r)
    (MemStats.StackInuse r) (MemStats.StackSys r) (MemStats.MSpanInuse r)
    (MemStats.MSpanSys r) (MemStats.MCacheInuse r) (MemStats.MCacheSys r)
    (MemStats.BuckHashSys r) (MemStats.GCSys r) v (MemStats.NextGC r)
    (MemStats.LastGC r) (MemStats.PauseTotalNs r) (MemStats.PauseNs r)
    (MemStats.NumGC r).
Definition MemStats_set_NextGC (v : Z) (r : MemStats.t)
    : MemStats.t :=
  MemStats.mk (MemStats.Alloc r) (MemStats.TotalAlloc r) (MemStats.Sys r)
    (MemStats.Lookups r) (MemStats.Mallocs r) (MemStats.Frees r)
    (MemStats.HeapAlloc r) (MemStats.HeapSys r) (MemStats.HeapIdle r)
    (MemStats.HeapInuse r) (MemStats.HeapReleased r) (MemStats.HeapObjects r)
    (MemStats.StackInuse r) (MemStats.StackSys r) (MemStats.MSpanInuse r)
    (MemStats.MSpanSys r) (MemStats.MCacheInuse r) (MemStats.MCacheSys r)
    (MemStats.BuckHashSys r) (MemStats.GCSys r) (MemStats.OtherSys r) v
    (MemStats.LastGC r) (MemStats.PauseTotalNs r) (MemStats.PauseNs r)
    (MemStats.NumGC r).
Definition MemStats_set_LastGC (v : Z) (r : MemStats.t)
    : MemStats.t :=
  MemStats.mk (MemStats.Alloc r) (MemStats.TotalAlloc r) (MemStats.Sys r)
    (MemStats.Lookups r) (MemStats.Mallocs r) (MemStats.Frees r)
    (MemStats.HeapAlloc r) (MemStats.HeapSys r) (MemStats.HeapIdle r)
    (MemStats.HeapInuse r) (MemStats.HeapReleased r) (MemStats.HeapObjects r)
    (MemStats.StackInuse r) (MemStats.StackSys r) (MemStats.MSpanInuse r)
    (MemStats.MSpanSys r) (MemStats.MCacheInuse r) (MemStats.MCacheSys r)
    (MemStats.BuckHashSys r) (MemStats.GCSys r) (MemStats.OtherSys r)
    (MemStats.NextGC r) v (MemStats.PauseTotalNs r) (MemStats.PauseNs r)
    (MemStats.NumGC r).
Definition MemStats_set_PauseTotalNs (v : Z) (r : MemStats.t)
    : MemStats.t :=
  MemStats.mk (MemStats.Alloc r) (MemStats.TotalAlloc r) (MemStats.Sys r)
    (MemStats.Lookups r) (MemStats.Mallocs r) (MemStats.Frees r)
    (MemStats.HeapAlloc r) (MemStats.HeapSys r) (MemStats.HeapIdle r)
    (MemStats.HeapInuse r) (MemStats.HeapReleased r) (MemStats.HeapObjects r)
    (MemStats.StackInuse r) (MemStats.StackSys r) (MemStats.MSpanInuse r)
    (MemStats.MSpanSys r) (MemStats.MCacheInuse r) (MemStats.MCacheSys r)
    (MemStats.BuckHashSys r) (MemStats.GCSys r) (MemStats.OtherSys r)
    (MemStats.NextGC r) (MemStats.LastGC r) v (MemStats.PauseNs r)
    (MemStats.NumGC r).
Definition MemStats_set_PauseNs (v : list Z) (r : MemStats.t)
    : MemStats.t :=
  MemStats.mk (MemStats.Alloc r) (MemStats.TotalAlloc r) (MemStats.Sys r)
    (MemStats.Lookups r) (MemStats.Mallocs r) (MemStats.Frees r)
    (MemStats.HeapAlloc r) (MemStats.HeapSys r) (MemStats.HeapIdle r)
    (MemStats.HeapInuse r) (MemStats.HeapReleased r) (MemStats.HeapObjects r)
    (MemStats.StackInuse r) (MemStats.StackSys r) (MemStats.MSpanInuse r)
    (MemStats.MSpanSys r) (MemStats.MCacheInuse r) (MemStats.MCacheSys r)
    (MemStats.BuckHashSys r) (MemStats.GCSys r) (MemStats.OtherSys r)
    (MemStats.NextGC r) (MemStats.LastGC r) (MemStats.PauseTotalNs r) v
    (MemStats.NumGC r).
Definition MemStats_set_NumGC (v : Z) (r : MemStats.t)
    : MemStats.t :=
  MemStats.mk (MemStats.Alloc r) (MemStats.TotalAlloc r) (MemStats.Sys r)
    (MemStats.Lookups r) (MemStats.Mallocs r) (MemStats.Frees r)
    (MemStats.HeapAlloc r) (MemStats.HeapSys r) (MemStats.HeapIdle r)
    (MemStats.HeapInuse r) (MemStats.HeapReleased r) (MemStats.HeapObjects r)
    (MemStats.StackInuse r) (MemStats.StackSys r) (MemStats.MSpanInuse r)
    (MemStats.MSpanSys r) (MemStats.MCacheInuse r) (MemStats.MCacheSys r)
    (MemStats.BuckHashSys r) (MemStats.GCSys r) (MemStats.OtherSys r)
    (MemStats.NextGC r) (MemStats.LastGC r) (MemStats.PauseTotalNs r)
    (MemStats.PauseNs r) v.

(** [r.PauseNs[i] = v]. *)
Definition MemStats_set_PauseNs_at (i : nat) (v : Z) (r : MemStats.t)
    : MemStats.t :=
  MemStats_set_PauseNs (<[i := v]> (MemStats.PauseNs r)) r.

Definition MemStats_Read : Reading MemStats.t :=
  uvarint MemStats_set_Alloc ;;
  uvarint MemStats_set_TotalAlloc ;;
  uvarint MemStats_set_Sys ;;
  uvarint MemStats_set_Lookups ;;
  uvarint MemStats_set_Mallocs ;;
  uvarint MemStats_set_Frees ;;
  uvarint MemStats_set_HeapAlloc ;;
  uvarint MemStats_set_HeapSys ;;
  uvarint MemStats_set_HeapIdle ;;
  uvarint MemStats_set_HeapInuse ;;
  uvarint MemStats_set_HeapReleased ;;
  uvarint MemStats_set_HeapObjects ;;
  uvarint MemStats_set_StackInuse ;;
  uvarint MemStats_set_StackSys ;;
  uvarint MemStats_set_MSpanInuse ;;
  uvarint MemStats_set_MSpanSys ;;
  uvarint MemStats_set_MCacheInuse ;;
  uvarint MemStats_set_MCacheSys ;;
  uvarint MemStats_set_BuckHashSys ;;
  uvarint MemStats_set_GCSys ;;
  uvarint MemStats_set_OtherSys ;;
  uvarint MemStats_set_NextGC ;;
  uvarint MemStats_set_LastGC ;;
  uvarint MemStats_set_PauseTotalNs ;;
  uvarints 256 0 MemStats_set_PauseNs_at ;;
  uvarint MemStats_set_NumGC.

(** *** QueuedFinalizer *)

Definition QueuedFinalizer_zero : QueuedFinalizer.t :=
  QueuedFinalizer.mk 0 0 0 0 0.

Definition QueuedFinalizer_set_ObjectAddress (v : Z) (r : QueuedFinalizer.t)
    : QueuedFinalizer.t :=
  QueuedFinalizer.mk v (QueuedFinalizer.FinalizerAddress r)
    (QueuedFinalizer.FinalizerEntryPc r) (QueuedFinalizer.FinalizerType r)
    (QueuedFinalizer.ObjectType r).
Definition QueuedFinalizer_set_FinalizerAddress
    (v : Z) (r : QueuedFinalizer.t)
    : QueuedFinalizer.t :=
  QueuedFinalizer.mk (QueuedFinalizer.ObjectAddress r) v
    (QueuedFinalizer.FinalizerEntryPc r) (QueuedFinalizer.FinalizerType r)
    (QueuedFinalizer.ObjectType r).
Definition QueuedFinalizer_set_FinalizerEntryPc
    (v : Z) (r : QueuedFinalizer.t)
    : QueuedFinalizer.t :=
  QueuedFinalizer.mk (QueuedFinalizer.ObjectAddress r)
    (QueuedFinalizer.FinalizerAddress r) v (QueuedFinalizer.FinalizerType r)
    (QueuedFinalizer.ObjectType r).
Definition QueuedFinalizer_set_FinalizerType (v : Z) (r : QueuedFinalizer.t)
    : QueuedFinalizer.t :=
  QueuedFinalizer.mk (QueuedFinalizer.ObjectAddress r)
    (QueuedFinalizer.FinalizerAddress r) (QueuedFinalizer.FinalizerEntryPc r)
    v (QueuedFinalizer.ObjectType r).
Definition QueuedFinalizer_set_ObjectType (v : Z) (r : QueuedFinalizer.t)
    : QueuedFinalizer.t :=
  QueuedFinalizer.mk (QueuedFinalizer.ObjectAddress r)
    (QueuedFinalizer.FinalizerAddress r) (QueuedFinalizer.FinalizerEntryPc r)
    (QueuedFinalizer.FinalizerType r) v.

Definition QueuedFinalizer_Read : Reading QueuedFinalizer.t :=
  uvarint QueuedFinalizer_set_ObjectAddress ;;
  uvarint QueuedFinalizer_set_FinalizerAddress ;;
  uvarint QueuedFinalizer_set_FinalizerEntryPc ;;
  uvarint QueuedFinalizer_set_FinalizerType ;;
  uvarint QueuedFinalizer_set_ObjectType.

(** *** DataSegment *)

Definition DataSegment_zero : DataSegment.t :=
  DataSegment.mk 0 [] [].

Definition DataSegment_set_Address (v : Z) (r : DataSegment.t)
    : DataSegment.t :=
  DataSegment.mk v (DataSegment.Contents r) (DataSegment.Fields r).
Definition DataSegment_set_Contents (v : list byte) (r : DataSegment.t)
    : DataSegment.t :=
  DataSegment.mk (DataSegment.Address r) v (DataSegment.Fields r).
Definition DataSegment_set_Fields (v : list Z) (r : DataSegment.t)
    : DataSegment.t :=
  DataSegment.mk (DataSegment.Address r) (DataSegment.Contents r) v.

Definition DataSegment_Read : Reading DataSegment.t :=
  uvarint DataSegment_set_Address ;;
  bytes DataSegment_set_Contents ;;
  fieldlist DataSegment_set_Fields.

(** *** BssSegment *)

Definition BssSegment_zero : BssSegment.t :=
  BssSegment.mk 0 [] [].

Definition BssSegment_set_Address (v : Z) (r : BssSegment.t)
    : BssSegment.t :=
  BssSegment.mk v (BssSegment.Contents r) (BssSegment.Fields r).
Definition BssSegment_set_Contents (v : list byte) (r : BssSegment.t)
    : BssSegment.t :=
  BssSegment.mk (BssSegment.Address r) v (BssSegment.Fields r).
Definition BssSegment_set_Fields (v : list Z) (r : BssSegment.t)
    : BssSegment.t :=
  BssSegment.mk (BssSegment.Address r) (BssSegment.Contents r) v.

Definition BssSegment_Read : Reading BssSegment.t :=
  uvarint BssSegment_set_Address ;;
  bytes BssSegment_set_Contents ;;
  fieldlist BssSegment_set_Fields.

(** *** DeferRecord *)

Definition DeferRecord_zero : DeferRecord.t :=
  DeferRecord.mk 0 0 0 0 0 0 0.

Definition DeferRecord_set_Address (v : Z) (r : DeferRecord.t)
    : DeferRecord.t :=
  DeferRecord.mk v (DeferRecord.ContainingGoroutine r) (DeferRecord.Arcp r)
    (DeferRecord.Pc r) (DeferRecord.FuncVal r) (DeferRecord.EntryPointPc r)
    (DeferRecord.Next r).
Definition DeferRecord_set_ContainingGoroutine (v : Z) (r : DeferRecord.t)
    : DeferRecord.t :=
  DeferRecord.mk (DeferRecord.Address r) v (DeferRecord.Arcp r)
    (DeferRecord.Pc r) (DeferRecord.FuncVal r) (DeferRecord.EntryPointPc r)
    (DeferRecord.Next r).
Definition DeferRecord_set_Arcp (v : Z) (r : DeferRecord.t)
    : DeferRecord.t :=
  DeferRecord.mk (DeferRecord.Address r) (DeferRecord.ContainingGoroutine r) v
    (DeferRecord.Pc r) (DeferRecord.FuncVal r) (DeferRecord.EntryPointPc r)
    (DeferRecord.Next r).
Definition DeferRecord_set_Pc (v : Z) (r : DeferRecord.t)
    : DeferRecord.t :=
  DeferRecord.mk (DeferRecord.Address r) (DeferRecord.ContainingGoroutine r)
    (DeferRecord.Arcp r) v (DeferRecord.FuncVal r)
    (DeferRecord.EntryPointPc r) (DeferRecord.Next r).
Definition DeferRecord_set_FuncVal (v : Z) (r : DeferRecord.t)
    : DeferRecord.t :=
  DeferRecord.mk (DeferRecord.Address r) (DeferRecord.ContainingGoroutine r)
    (DeferRecord.Arcp r) (DeferRecord.Pc r) v (DeferRecord.EntryPointPc r)
    (DeferRecord.Next r).
Definition DeferRecord_set_EntryPointPc (v : Z) (r : DeferRecord.t)
    : DeferRecord.t :=
  DeferRecord.mk (DeferRecord.Address r) (DeferRecord.ContainingGoroutine r)
    (DeferRecord.Arcp r) (DeferRecord.Pc r) (DeferRecord.FuncVal r) v
    (DeferRecord.Next r).
Definition DeferRecord_set_Next (v : Z) (r : DeferRecord.t)
    : DeferRecord.t :=
  DeferRecord.mk (DeferRecord.Address r) (DeferRecord.ContainingGoroutine r)
    (DeferRecord.Arcp r) (DeferRecord.Pc r) (DeferRecord.FuncVal r)
    (DeferRecord.EntryPointPc r) v.

Definition DeferRecord_Read : Reading DeferRecord.t :=
  uvarint DeferRecord_set_Address ;;
  uvarint DeferRecord_set_ContainingGoroutine ;;
  uvarint DeferRecord_set_Arcp ;;
  uvarint DeferRecord_set_Pc ;;
  uvarint DeferRecord_set_FuncVal ;;
  uvarint DeferRecord_set_EntryPointPc ;;
  uvarint DeferRecord_set_Next.

(** *** PanicRecord *)

Definition PanicRecord_zero : PanicRecord.t :=
  PanicRecord.mk 0 0 0 0 0 0.

Definition PanicRecord_set_Address (v : Z) (r : PanicRecord.t)
    : PanicRecord.t :=
  PanicRecord.mk v (PanicRecord.Goroutine r) (PanicRecord.PanicArgType r)
    (PanicRecord.PanicArgData r) (PanicRecord.DeferRecordPtr r)
    (PanicRecord.Next r).
Definition PanicRecord_set_Goroutine (v : Z) (r : PanicRecord.t)
    : PanicRecord.t :=
  PanicRecord.mk (PanicRecord.Address r) v (PanicRecord.PanicArgType r)
    (PanicRecord.PanicArgData r) (PanicRecord.DeferRecordPtr r)
    (PanicRecord.Next r).
Definition PanicRecord_set_PanicArgType (v : Z) (r : PanicRecord.t)
    : PanicRecord.t :=
  PanicRecord.mk (PanicRecord.Address r) (PanicRecord.Goroutine r) v
    (PanicRecord.PanicArgData r) (PanicRecord.DeferRecordPtr r)
    (PanicRecord.Next r).
Definition PanicRecord_set_PanicArgData (v : Z) (r : PanicRecord.t)
    : PanicRecord.t :=
  PanicRecord.mk (PanicRecord.Address r) (PanicRecord.Goroutine r)
    (PanicRecord.PanicArgType r) v (PanicRecord.DeferRecordPtr r)
    (PanicRecord.Next r).
Definition PanicRecord_set_DeferRecordPtr (v : Z) (r : PanicRecord.t)
    : PanicRecord.t :=
  PanicRecord.mk (PanicRecord.Address r) (PanicRecord.Goroutine r)
    (PanicRecord.PanicArgType r) (PanicRecord.PanicArgData r) v
    (PanicRecord.Next r).
Definition PanicRecord_set_Next (v : Z) (r : PanicRecord.t)
    : PanicRecord.t :=
  PanicRecord.mk (PanicRecord.Address r) (PanicRecord.Goroutine r)
    (PanicRecord.PanicArgType r) (PanicRecord.PanicArgData r)
    (PanicRecord.DeferRecordPtr r) v.

Definition PanicRecord_Read : Reading PanicRecord.t :=
  uvarint PanicRecord_set_Address ;;
  uvarint PanicRecord_set_Goroutine ;;
  uvarint PanicRecord_set_PanicArgType ;;
  uvarint PanicRecord_set_PanicArgData ;;
  uvarint PanicRecord_set_DeferRecordPtr ;;
  uvarint PanicRecord_set_Next.

(** *** AllocFreeProfileRecord *)

Definition AllocFreeProfileRecord_zero : AllocFreeProfileRecord.t :=
  AllocFreeProfileRecord.mk 0 0 [] 0 0.

Definition AllocFreeProfileRecord_set_Id
    (v : Z) (r : AllocFreeProfileRecord.t)
    : AllocFreeProfileRecord.t :=
  AllocFreeProfileRecord.mk v (AllocFreeProfileRecord.Size r)
    (AllocFreeProfileRecord.Frames r)
    (AllocFreeProfileRecord.AllocationCount r)
    (AllocFreeProfileRecord.FreeCount r).
Definition AllocFreeProfileRecord_set_Size
    (v : Z) (r : AllocFreeProfileRecord.t)
    : AllocFreeProfileRecord.t :=
  AllocFreeProfileRecord.mk (AllocFreeProfileRecord.Id r) v
    (AllocFreeProfileRecord.Frames r)
    (AllocFreeProfileRecord.AllocationCount r)
    (AllocFreeProfileRecord.FreeCount r).
Definition AllocFreeProfileRecord_set_Frames
    (v : list AllocFreeProfileRecord.frame) (r : AllocFreeProfileRecord.t)
    : AllocFreeProfileRecord.t :=
  AllocFreeProfileRecord.mk (AllocFreeProfileRecord.Id r)
    (AllocFreeProfileRecord.Size r) v
    (AllocFreeProfileRecord.AllocationCount r)
    (AllocFreeProfileRecord.FreeCount r).
Definition AllocFreeProfileRecord_set_AllocationCount
    (v : Z) (r : AllocFreeProfileRecord.t)
    : AllocFreeProfileRecord.t :=
  AllocFreeProfileRecord.mk (AllocFreeProfileRecord.Id r)
    (AllocFreeProfileRecord.Size r) (AllocFreeProfileRecord.Frames r) v
    (AllocFreeProfileRecord.FreeCount r).
Definition AllocFreeProfileRecord_set_FreeCount
    (v : Z) (r : AllocFreeProfileRecord.t)
    : AllocFreeProfileRecord.t :=
  AllocFreeProfileRecord.mk (AllocFreeProfileRecord.Id r)
    (AllocFreeProfileRecord.Size r) (AllocFreeProfileRecord.Frames r)
    (AllocFreeProfileRecord.AllocationCount r) v.

(** [r.Frames[i].Name = v], and the like. *)
Definition AllocFreeProfileRecord_set_Frame_Name (i : nat) (v : string)
    (r : AllocFreeProfileRecord.t) : AllocFreeProfileRecord.t :=
  AllocFreeProfileRecord_set_Frames
    (alter (fun f => AllocFreeProfileRecord.mkframe v
                       (AllocFreeProfileRecord.Filename f)
                       (AllocFreeProfileRecord.Line f))
       i (AllocFreeProfileRecord.Frames r)) r.
Definition AllocFreeProfileRecord_set_Frame_Filename (i : nat) (v : string)
    (r : AllocFreeProfileRecord.t) : AllocFreeProfileRecord.t :=
  AllocFreeProfileRecord_set_Frames
    (alter (fun f => AllocFreeProfileRecord.mkframe
                       (AllocFreeProfileRecord.Name f) v
                       (AllocFreeProfileRecord.Line f))
       i (AllocFreeProfileRecord.Frames r)) r.
Definition AllocFreeProfileRecord_set_Frame_Line (i : nat) (v : Z)
    (r : AllocFreeProfileRecord.t) : AllocFreeProfileRecord.t :=
  AllocFreeProfileRecord_set_Frames
    (alter (fun f => AllocFreeProfileRecord.mkframe
                       (AllocFreeProfileRecord.Name f)
                       (AllocFreeProfileRecord.Filename f) v)
       i (AllocFreeProfileRecord.Frames r)) r.

(** The loop [for i := uint64(0); i < FrameCount; i++], from [i] on and
    for [todo] more turns. *)
Fixpoint readFramesFrom (todo i : nat) : Reading AllocFreeProfileRecord.t :=
  match todo with
  | O => fun r reader => (r, None, reader)
  | S todo =>
      text (AllocFreeProfileRecord_set_Frame_Name i) ;;
      text (AllocFreeProfileRecord_set_Frame_Filename i) ;;
      uvarint (AllocFreeProfileRecord_set_Frame_Line i) ;;
      readFramesFrom todo (S i)
  end.

(** [FrameCount], [r.Frames = make([]frame, FrameCount)], and the
    loop. *)
Definition readFrames : Reading AllocFreeProfileRecord.t :=
  fun r reader =>
    let '(FrameCount, err, reader) := ReadUvarint reader in
    match err with
    | Some e => (r, Some e, reader)
    | None =>
        let Frames :=
          replicate (Z.to_nat FrameCount)
            (AllocFreeProfileRecord.mkframe "" "" 0) in
        readFramesFrom (Z.to_nat FrameCount) 0
          (AllocFreeProfileRecord_set_Frames Frames r) reader
    end.

Definition AllocFreeProfileRecord_Read : Reading AllocFreeProfileRecord.t :=
  uvarint AllocFreeProfileRecord_set_Id ;;
  uvarint AllocFreeProfileRecord_set_Size ;;
  readFrames ;;
  uvarint AllocFreeProfileRecord_set_AllocationCount ;;
  uvarint AllocFreeProfileRecord_set_FreeCount.

(** *** AllocStackTraceSample *)

Definition AllocStackTraceSample_zero : AllocStackTraceSample.t :=
  AllocStackTraceSample.mk 0 0.

Definition AllocStackTraceSample_set_Address
    (v : Z) (r : AllocStackTraceSample.t)
    : AllocStackTraceSample.t :=
  AllocStackTraceSample.mk v
    (AllocStackTraceSample.AllocFreeProfileRecordId r).
Definition AllocStackTraceSample_set_AllocFreeProfileRecordId
    (v : Z) (r : AllocStackTraceSample.t)
    : AllocStackTraceSample.t :=
  AllocStackTraceSample.mk (AllocStackTraceSample.Address r) v.

Definition AllocStackTraceSample_Read : Reading AllocStackTraceSample.t :=
  uvarint AllocStackTraceSample_set_Address ;;
  uvarint AllocStackTraceSample_set_AllocFreeProfileRecordId.

(** *** ReadRecord *)

(** The record that [ReadRecord] returns ([None]: the nil interface), its
    error, the registries, and the rest of the stream.  [RecordType(rt)]
    selects the type; [record.Read(reader)] then fills in the zero value
    that the [switch] allocated. *)
Definition readInto {R : Type} (wrap : R -> Record) (Read : Reading R)
    (zero : R) (g : Registry) (reader : list byte)
    : result (option Record * option error * Registry * list byte) :=
  let '(r, err, reader) := Read zero reader in
  Ret (Some (wrap r), err, g, reader).

Definition ReadRecord (g : Registry) (reader : list byte)
    : result (option Record * option error * Registry * list byte) :=
  let '(rt, err, reader) := ReadUvarint reader in
  match err with
  | Some e => Ret (None, Some e, g, reader)
  | None =>
      if rt =? 0 then Ret (Some Eof, None, g, reader)
      else if rt =? 1 then
        '(r, err, g, reader) ← Object_Read g reader;
        Ret (Some (Object r), err, g, reader)
      else if rt =? 2 then
        readInto OtherRoot OtherRoot_Read OtherRoot_zero g reader
      else if rt =? 3 then
        readInto TypeDescriptor TypeDescriptor_Read TypeDescriptor_zero g
          reader
      else if rt =? 4 then
        readInto Goroutine Goroutine_Read Goroutine_zero g reader
      else if rt =? 5 then
        readInto StackFrame StackFrame_Read StackFrame_zero g reader
      else if rt =? 6 then
        readInto DumpParams DumpParams_Read DumpParams_zero g reader
      else if rt =? 7 then
        readInto RegisteredFinalizer RegisteredFinalizer_Read
          RegisteredFinalizer_zero g reader
      else if rt =? 8 then readInto Itab Itab_Read Itab_zero g reader
      else if rt =? 9 then
        readInto OsThread OsThread_Read OsThread_zero g reader
      else if rt =? 10 then
        readInto MemStats MemStats_Read MemStats_zero g reader
      else if rt =? 11 then
        readInto QueuedFinalizer QueuedFinalizer_Read QueuedFinalizer_zero g
          reader
      else if rt =? 12 then
        readInto DataSegment DataSegment_Read DataSegment_zero g reader
      else if rt =? 13 then
        readInto BssSegment BssSegment_Read BssSegment_zero g reader
      else if rt =? 14 then
        readInto DeferRecord DeferRecord_Read DeferRecord_zero g reader
      else if rt =? 15 then
        readInto PanicRecord PanicRecord_Read PanicRecord_zero g reader
      else if rt =? 16 then
        readInto AllocFreeProfileRecord AllocFreeProfileRecord_Read
          AllocFreeProfileRecord_zero g reader
      else if rt =? 17 then
        readInto AllocStackTraceSample AllocStackTraceSample_Read
          AllocStackTraceSample_zero g reader
      else
        Ret (None, Some ("Unexpected record type: " +:+ fmt_d rt), g, reader)
  end.
(** ** Reference definitions: the encoding of every record *)

Definition wellFormedFrame (f : AllocFreeProfileRecord.frame) : Prop :=
  isUint64 (strlen (AllocFreeProfileRecord.Name f)) /\
  isUint64 (strlen (AllocFreeProfileRecord.Filename f)) /\
  isUint64 (AllocFreeProfileRecord.Line f).

Definition putFrame (f : AllocFreeProfileRecord.frame) : list byte :=
  putString (AllocFreeProfileRecord.Name f) ++
  putString (AllocFreeProfileRecord.Filename f) ++
  PutUvarint (AllocFreeProfileRecord.Line f).

Definition putFrames (fs : list AllocFreeProfileRecord.frame) : list byte :=
  PutUvarint (len fs) ++ flat_map putFrame fs.

Definition putOtherRoot (r : OtherRoot.t)
    : list byte :=
  putString (OtherRoot.Description r) ++ PutUvarint (OtherRoot.Address r).
Definition wellFormedOtherRoot (r : OtherRoot.t)
    : Prop :=
  isUint64 (strlen (OtherRoot.Description r)) /\
  isUint64 (OtherRoot.Address r).

Definition putTypeDescriptor (r : TypeDescriptor.t)
    : list byte :=
  PutUvarint (TypeDescriptor.Address r) ++
  PutUvarint (TypeDescriptor.TypeSize r) ++
  putString (TypeDescriptor.Name r) ++ putBool (TypeDescriptor.Indirect r).
Definition wellFormedTypeDescriptor (r : TypeDescriptor.t)
    : Prop :=
  isUint64 (TypeDescriptor.Address r) /\
  isUint64 (TypeDescriptor.TypeSize r) /\
  isUint64 (strlen (TypeDescriptor.Name r)).

Definition putGoroutine (r : Goroutine.t)
    : list byte :=
  PutUvarint (Goroutine.Address r) ++ PutUvarint (Goroutine.StackPointer r) ++
  PutUvarint (Goroutine.RoutineId r) ++
  PutUvarint (Goroutine.CreatorPointer r) ++
  PutUvarint (Goroutine.Status r) ++ putBool (Goroutine.System r) ++
  putBool (Goroutine.Background r) ++ PutUvarint (Goroutine.WaitStart r) ++
  putString (Goroutine.WaitReason r) ++
  PutUvarint (Goroutine.CurrentContextPointer r) ++
  PutUvarint (Goroutine.OsThreadDescriptorAddress r) ++
  PutUvarint (Goroutine.TopDefer r) ++ PutUvarint (Goroutine.TopPanic r).
Definition wellFormedGoroutine (r : Goroutine.t)
    : Prop :=
  isUint64 (Goroutine.Address r) /\ isUint64 (Goroutine.StackPointer r) /\
  isUint64 (Goroutine.RoutineId r) /\ isUint64 (Goroutine.CreatorPointer r) /\
  isUint64 (Goroutine.Status r) /\ isUint64 (Goroutine.WaitStart r) /\
  isUint64 (strlen (Goroutine.WaitReason r)) /\
  isUint64 (Goroutine.CurrentContextPointer r) /\
  isUint64 (Goroutine.OsThreadDescriptorAddress r) /\
  isUint64 (Goroutine.TopDefer r) /\ isUint64 (Goroutine.TopPanic r).

Definition putStackFrame (r : StackFrame.t)
    : list byte :=
  PutUvarint (StackFrame.Address r) ++ PutUvarint (StackFrame.Depth r) ++
  PutUvarint (StackFrame.ChildPointer r) ++
  putBytes (StackFrame.Contents r) ++ PutUvarint (StackFrame.EntryPc r) ++
  PutUvarint (StackFrame.CurrentPc r) ++
  PutUvarint (StackFrame.ContinuationPc r) ++ putString (StackFrame.Name r) ++
  putFieldList (StackFrame.Fields r).
Definition wellFormedStackFrame (r : StackFrame.t)
    : Prop :=
  isUint64 (StackFrame.Address r) /\ isUint64 (StackFrame.Depth r) /\
  isUint64 (StackFrame.ChildPointer r) /\
  isUint64 (len (StackFrame.Contents r)) /\ isUint64 (StackFrame.EntryPc r) /\
  isUint64 (StackFrame.CurrentPc r) /\
  isUint64 (StackFrame.ContinuationPc r) /\
  isUint64 (strlen (StackFrame.Name r)) /\
  Forall isUint64 (StackFrame.Fields r).

Definition putDumpParams (r : DumpParams.t)
    : list byte :=
  putBool (DumpParams.BigEndian r) ++ PutUvarint (DumpParams.PointerSize r) ++
  PutUvarint (DumpParams.HeapStart r) ++ PutUvarint (DumpParams.HeapEnd r) ++
  putString (DumpParams.Architecture r) ++
  putString (DumpParams.GoExperiment r) ++ PutUvarint (DumpParams.Ncpu r).
Definition wellFormedDumpParams (r : DumpParams.t)
    : Prop :=
  isUint64 (DumpParams.PointerSize r) /\ isUint64 (DumpParams.HeapStart r) /\
  isUint64 (DumpParams.HeapEnd r) /\
  isUint64 (strlen (DumpParams.Architecture r)) /\
  isUint64 (strlen (DumpParams.GoExperiment r)) /\
  isUint64 (DumpParams.Ncpu r).

Definition putRegisteredFinalizer (r : RegisteredFinalizer.t)
    : list byte :=
  PutUvarint (RegisteredFinalizer.ObjectAddress r) ++
  PutUvarint (RegisteredFinalizer.FinalizerAddress r) ++
  PutUvarint (RegisteredFinalizer.FinalizerEntryPc r) ++
  PutUvarint (RegisteredFinalizer.FinalizerType r) ++
  PutUvarint (RegisteredFinalizer.ObjectType r).
Definition wellFormedRegisteredFinalizer (r : RegisteredFinalizer.t)
    : Prop :=
  isUint64 (RegisteredFinalizer.ObjectAddress r) /\
  isUint64 (RegisteredFinalizer.FinalizerAddress r) /\
  isUint64 (RegisteredFinalizer.FinalizerEntryPc r) /\
  isUint64 (RegisteredFinalizer.FinalizerType r) /\
  isUint64 (RegisteredFinalizer.ObjectType r).

Definition putItab (r : Itab.t)
    : list byte :=
  PutUvarint (Itab.Address r) ++ PutUvarint (Itab.TypeDescriptorAddress r).
Definition wellFormedItab (r : Itab.t)
    : Prop :=
  isUint64 (Itab.Address r) /\ isUint64 (Itab.TypeDescriptorAddress r).

Definition putOsThread (r : OsThread.t)
    : list byte :=
  PutUvarint (OsThread.ThreadDescriptorAddress r) ++
  PutUvarint (OsThread.GoId r) ++ PutUvarint (OsThread.OsId r).
Definition wellFormedOsThread (r : OsThread.t)
    : Prop :=
  isUint64 (OsThread.ThreadDescriptorAddress r) /\
  isUint64 (OsThread.GoId r) /\ isUint64 (OsThread.OsId r).

Definition putMemStats (r : MemStats.t)
    : list byte :=
  PutUvarint (MemStats.Alloc r) ++ PutUvarint (MemStats.TotalAlloc r) ++
  PutUvarint (MemStats.Sys r) ++ PutUvarint (MemStats.Lookups r) ++
  PutUvarint (MemStats.Mallocs r) ++ PutUvarint (MemStats.Frees r) ++
  PutUvarint (MemStats.HeapAlloc r) ++ PutUvarint (MemStats.HeapSys r) ++
  PutUvarint (MemStats.HeapIdle r) ++ PutUvarint (MemStats.HeapInuse r) ++
  PutUvarint (MemStats.HeapReleased r) ++
  PutUvarint (MemStats.HeapObjects r) ++ PutUvarint (MemStats.StackInuse r) ++
  PutUvarint (MemStats.StackSys r) ++ PutUvarint (MemStats.MSpanInuse r) ++
  PutUvarint (MemStats.MSpanSys r) ++ PutUvarint (MemStats.MCacheInuse r) ++
  PutUvarint (MemStats.MCacheSys r) ++ PutUvarint (MemStats.BuckHashSys r) ++
  PutUvarint (MemStats.GCSys r) ++ PutUvarint (MemStats.OtherSys r) ++
  PutUvarint (MemStats.NextGC r) ++ PutUvarint (MemStats.LastGC r) ++
  PutUvarint (MemStats.PauseTotalNs r) ++
  flat_map PutUvarint (MemStats.PauseNs r) ++ PutUvarint (MemStats.NumGC r).
Definition wellFormedMemStats (r : MemStats.t)
    : Prop :=
  isUint64 (MemStats.Alloc r) /\ isUint64 (MemStats.TotalAlloc r) /\
  isUint64 (MemStats.Sys r) /\ isUint64 (MemStats.Lookups r) /\
  isUint64 (MemStats.Mallocs r) /\ isUint64 (MemStats.Frees r) /\
  isUint64 (MemStats.HeapAlloc r) /\ isUint64 (MemStats.HeapSys r) /\
  isUint64 (MemStats.HeapIdle r) /\ isUint64 (MemStats.HeapInuse r) /\
  isUint64 (MemStats.HeapReleased r) /\ isUint64 (MemStats.HeapObjects r) /\
  isUint64 (MemStats.StackInuse r) /\ isUint64 (MemStats.StackSys r) /\
  isUint64 (MemStats.MSpanInuse r) /\ isUint64 (MemStats.MSpanSys r) /\
  isUint64 (MemStats.MCacheInuse r) /\ isUint64 (MemStats.MCacheSys r) /\
  isUint64 (MemStats.BuckHashSys r) /\ isUint64 (MemStats.GCSys r) /\
  isUint64 (MemStats.OtherSys r) /\ isUint64 (MemStats.NextGC r) /\
  isUint64 (MemStats.LastGC r) /\ isUint64 (MemStats.PauseTotalNs r) /\
  length (MemStats.PauseNs r) = 256%nat /\
  Forall isUint64 (MemStats.PauseNs r) /\ isUint64 (MemStats.NumGC r).

Definition putQueuedFinalizer (r : QueuedFinalizer.t)
    : list byte :=
  PutUvarint (QueuedFinalizer.ObjectAddress r) ++
  PutUvarint (QueuedFinalizer.FinalizerAddress r) ++
  PutUvarint (QueuedFinalizer.FinalizerEntryPc r) ++
  PutUvarint (QueuedFinalizer.FinalizerType r) ++
  PutUvarint (QueuedFinalizer.ObjectType r).
Definition wellFormedQueuedFinalizer (r : QueuedFinalizer.t)
    : Prop :=
  isUint64 (QueuedFinalizer.ObjectAddress r) /\
  isUint64 (QueuedFinalizer.FinalizerAddress r) /\
  isUint64 (QueuedFinalizer.FinalizerEntryPc r) /\
  isUint64 (QueuedFinalizer.FinalizerType r) /\
  isUint64 (QueuedFinalizer.ObjectType r).

Definition putDataSegment (r : DataSegment.t)
    : list byte :=
  PutUvarint (DataSegment.Address r) ++ putBytes (DataSegment.Contents r) ++
  putFieldList (DataSegment.Fields r).
Definition wellFormedDataSegment (r : DataSegment.t)
    : Prop :=
  isUint64 (DataSegment.Address r) /\
  isUint64 (len (DataSegment.Contents r)) /\
  Forall isUint64 (DataSegment.Fields r).

Definition putBssSegment (r : BssSegment.t)
    : list byte :=
  PutUvarint (BssSegment.Address r) ++ putBytes (BssSegment.Contents r) ++
  putFieldList (BssSegment.Fields r).
Definition wellFormedBssSegment (r : BssSegment.t)
    : Prop :=
  isUint64 (BssSegment.Address r) /\ isUint64 (len (BssSegment.Contents r)) /\
  Forall isUint64 (BssSegment.Fields r).

Definition putDeferRecord (r : DeferRecord.t)
    : list byte :=
  PutUvarint (DeferRecord.Address r) ++
  PutUvarint (DeferRecord.ContainingGoroutine r) ++
  PutUvarint (DeferRecord.Arcp r) ++ PutUvarint (DeferRecord.Pc r) ++
  PutUvarint (DeferRecord.FuncVal r) ++
  PutUvarint (DeferRecord.EntryPointPc r) ++ PutUvarint (DeferRecord.Next r).
Definition wellFormedDeferRecord (r : DeferRecord.t)
    : Prop :=
  isUint64 (DeferRecord.Address r) /\
  isUint64 (DeferRecord.ContainingGoroutine r) /\
  isUint64 (DeferRecord.Arcp r) /\ isUint64 (DeferRecord.Pc r) /\
  isUint64 (DeferRecord.FuncVal r) /\ isUint64 (DeferRecord.EntryPointPc r) /\
  isUint64 (DeferRecord.Next r).

Definition putPanicRecord (r : PanicRecord.t)
    : list byte :=
  PutUvarint (PanicRecord.Address r) ++
  PutUvarint (PanicRecord.Goroutine r) ++
  PutUvarint (PanicRecord.PanicArgType r) ++
  PutUvarint (PanicRecord.PanicArgData r) ++
  PutUvarint (PanicRecord.DeferRecordPtr r) ++ PutUvarint (PanicRecord.Next r).
Definition wellFormedPanicRecord (r : PanicRecord.t)
    : Prop :=
  isUint64 (PanicRecord.Address r) /\ isUint64 (PanicRecord.Goroutine r) /\
  isUint64 (PanicRecord.PanicArgType r) /\
  isUint64 (PanicRecord.PanicArgData r) /\
  isUint64 (PanicRecord.DeferRecordPtr r) /\ isUint64 (PanicRecord.Next r).

Definition putAllocFreeProfileRecord (r : AllocFreeProfileRecord.t)
    : list byte :=
  PutUvarint (AllocFreeProfileRecord.Id r) ++
  PutUvarint (AllocFreeProfileRecord.Size r) ++
  putFrames (AllocFreeProfileRecord.Frames r) ++
  PutUvarint (AllocFreeProfileRecord.AllocationCount r) ++
  PutUvarint (AllocFreeProfileRecord.FreeCount r).
Definition wellFormedAllocFreeProfileRecord (r : AllocFreeProfileRecord.t)
    : Prop :=
  isUint64 (AllocFreeProfileRecord.Id r) /\
  isUint64 (AllocFreeProfileRecord.Size r) /\
  isUint64 (len (AllocFreeProfileRecord.Frames r)) /\
  Forall wellFormedFrame (AllocFreeProfileRecord.Frames r) /\
  isUint64 (AllocFreeProfileRecord.AllocationCount r) /\
  isUint64 (AllocFreeProfileRecord.FreeCount r).

Definition putAllocStackTraceSample (r : AllocStackTraceSample.t)
    : list byte :=
  PutUvarint (AllocStackTraceSample.Address r) ++
  PutUvarint (AllocStackTraceSample.AllocFreeProfileRecordId r).
Definition wellFormedAllocStackTraceSample (r : AllocStackTraceSample.t)
    : Prop :=
  isUint64 (AllocStackTraceSample.Address r) /\
  isUint64 (AllocStackTraceSample.AllocFreeProfileRecordId r).

(** The tag of a record, and a record on the stream: its tag and its
    fields. *)
Definition recordType (r : Record) : Z :=
  match r with
  | Eof => 0
  | Object _ => 1
  | OtherRoot _ => 2
  | TypeDescriptor _ => 3
  | Goroutine _ => 4
  | StackFrame _ => 5
  | DumpParams _ => 6
  | RegisteredFinalizer _ => 7
  | Itab _ => 8
  | OsThread _ => 9
  | MemStats _ => 10
  | QueuedFinalizer _ => 11
  | DataSegment _ => 12
  | BssSegment _ => 13
  | DeferRecord _ => 14
  | PanicRecord _ => 15
  | AllocFreeProfileRecord _ => 16
  | AllocStackTraceSample _ => 17
  end.

Definition putFields (r : Record) : list byte :=
  match r with
  | Eof => []
  | Object x => putObject x
  | OtherRoot x => putOtherRoot x
  | TypeDescriptor x => putTypeDescriptor x
  | Goroutine x => putGoroutine x
  | StackFrame x => putStackFrame x
  | DumpParams x => putDumpParams x
  | RegisteredFinalizer x => putRegisteredFinalizer x
  | Itab x => putItab x
  | OsThread x => putOsThread x
  | MemStats x => putMemStats x
  | QueuedFinalizer x => putQueuedFinalizer x
  | DataSegment x => putDataSegment x
  | BssSegment x => putBssSegment x
  | DeferRecord x => putDeferRecord x
  | PanicRecord x => putPanicRecord x
  | AllocFreeProfileRecord x => putAllocFreeProfileRecord x
  | AllocStackTraceSample x => putAllocStackTraceSample x
  end.

Definition putRecord (r : Record) : list byte :=
  PutUvarint (recordType r) ++ putFields r.

(** Every number of the record is a [uint64], as is every length; an
    Object has no name on the stream. *)
Definition wellFormedObject (o : Object.t) : Prop :=
  isUint64 (Object.Address o) /\ isUint64 (len (Object.Contents o)) /\
  Forall isUint64 (Object.Fields o) /\ Object.Name o = ""%string.

Definition wellFormed (r : Record) : Prop :=
  match r with
  | Eof => True
  | Object x => wellFormedObject x
  | OtherRoot x => wellFormedOtherRoot x
  | TypeDescriptor x => wellFormedTypeDescriptor x
  | Goroutine x => wellFormedGoroutine x
  | StackFrame x => wellFormedStackFrame x
  | DumpParams x => wellFormedDumpParams x
  | RegisteredFinalizer x => wellFormedRegisteredFinalizer x
  | Itab x => wellFormedItab x
  | OsThread x => wellFormedOsThread x
  | MemStats x => wellFormedMemStats x
  | QueuedFinalizer x => wellFormedQueuedFinalizer x
  | DataSegment x => wellFormedDataSegment x
  | BssSegment x => wellFormedBssSegment x
  | DeferRecord x => wellFormedDeferRecord x
  | PanicRecord x => wellFormedPanicRecord x
  | AllocFreeProfileRecord x => wellFormedAllocFreeProfileRecord x
  | AllocStackTraceSample x => wellFormedAllocStackTraceSample x
  end.

(** The record as it comes back, and the registries behind it: an Object
    with its class name, if the OID registry has one for it. *)
Definition classed (g : Registry) (r : Record) : Record :=
  match r with
  | Object o =>
      match classOf g (Object.Contents o) with
      | Some className =>
          Object (Object.mk (Object.Address o) (Object.Contents o)
                    (Object.Fields o) className)
      | None => r
      end
  | _ => r
  end.

Definition registered (g : Registry) (r : Record) : Registry :=
  match r with
  | Object o =>
      match classOf g (Object.Contents o) with
      | Some className => AddName (Object.Address o) className g
      | None => g
      end
  | _ => g
  end.

(** ** [build] on the bytes of a dump

    The index builder as it runs on the stream itself: [ReadHeader] and
    [ReadRecord] consume the bytes, and [ReadRecord] works on the
    registries. *)

Definition ReadHeaderFrom (reader : list byte) : option error * list byte :=
  let '(val, err, reader) := ReadFull (strlen Header) reader in
  match err with
  | Some e => (Some e, reader)
  | None =>
      if bool_decide (val = bytes_of_string Header) then (None, reader)
      else
        (Some ("Bad read: expected string '" +:+ Header +:+ "', read '" +:+
               string_of_list_byte val +:+ "'"),
         reader)
  end.

(** Every turn of [readloop] costs one unit of [fuel]. *)
Fixpoint readloopFrom (fuel : nat) (c : TreeClimber) (g : Registry)
    (reader : list byte) : result (TreeClimber * option error * Registry) :=
  match fuel with
  | O => Diverge
  | S fuel =>
      '(record, err, g, reader) ← ReadRecord g reader;
      match err with
      | Some e => Ret (c, Some e, g)
      | None =>
          match record with
          | Some Eof => Ret (c, None, g)
          | Some record =>
              c ← buildRecord c record; readloopFrom fuel c g reader
          | None => readloopFrom fuel c g reader
          end
      end
  end.

Definition buildFrom (fuel : nat) (c : TreeClimber) (g : Registry)
    (reader : list byte) : result (TreeClimber * option error * Registry) :=
  let '(err, reader) := ReadHeaderFrom reader in
  match err with
  | Some err => Ret (c, Some ("Reading header: " +:+ err +:+ newline), g)
  | None =>
      let c := set_memory ∅ c in
      let c := set_owners ∅ c in
      let c := set_finalizers ∅ c in
      readloopFrom fuel c g reader
  end.

Definition NewTreeClimberFrom (fuel : nat) (g : Registry)
    (reader : list byte) : result (TreeClimber * option error * Registry) :=
  buildFrom fuel zeroTreeClimber g reader.

(** ** Reference definitions: the records of a stream *)




(** A reading never gives back more of the stream than it was given. *)
Definition shrinking {R : Type} (a : Reading R) : Prop :=
  forall r reader, (length (a r reader).2 <= length reader)%nat.

(** ** Package [heapdump]: printing the records (printrecords.go) *)

(** The loop over [pointers] of one Owner record, from the index [i] on: a
    line for every pointer that is not 0.  [pointers] is as long as
    [fields], so that [fields[i]] is in range. *)
Fixpoint pointerLines (g : Registry) (address : Z) (fields pointers : list Z)
    (i : Z) : list string :=
  match pointers with
  | [] => []
  | pointer :: pointers' =>
      (if pointer =? 0 then []
       else
         ["  Pointer[" +:+ fmt_d i +:+ "]@" +:+
          Addr_String (add64 address (fields !!! Z.to_nat i)) g +:+
          " = " +:+ Addr_String pointer g]) ++
      pointerLines g address fields pointers' (i + 1)
  end.

Section PrintRecords.
(** [regexp.Compile] of the standard library: its error, or
    [re.MatchString] of the expression it returns. *)
Context (Compile : string -> error + (string -> bool)).

(** The loop of [PrintRecords]; every turn costs one unit of [fuel].
    [out] are the lines written so far. *)
Fixpoint printRecordsLoop (fuel : nat) (re : string -> bool)
    (search : string) (params : option DumpParams.t) (g : Registry)
    (reader : list byte) (out : list string)
    : list string * Registry * result (option error) :=
  match fuel with
  | O => (out, g, Diverge)
  | S fuel =>
      match ReadRecord g reader with
      | Panic p => (out, g, Panic p)
      | Diverge => (out, g, Diverge)
      | Ret (record, Some e, g, reader) => (out, g, Ret (Some e))
      | Ret (record, None, g, reader) =>
          let params :=
            match record with
            | Some (DumpParams p) => Some p
            | _ => params
            end in
          let isEof :=
            match record with
            | Some Eof => true
            | _ => false
            end in
          let noMatch :=
            match record with
            | Some (Object obj) => negb (re (Object.Name obj))
            | _ => true
            end in
          if (0 <? strlen search) && negb isEof && noMatch then
            printRecordsLoop fuel re search params g reader out
          else
            let out :=
              out ++
              [match record with
               | Some r =>
                   match asStringer r with
                   | Some s => s
                   | None => typeName r
                   end
               | None => "<nil>"%string
               end] in
            let pointers :=
              match record ≫= asOwner with
              | Some o =>
                  pointers ← GetPointers o params;
                  Ret (pointerLines g (OwnerAddress o) (GetFields o)
                         pointers 0)
              | None => Ret []
              end in
            match pointers with
            | Ret lines =>
                let out := out ++ lines in
                if isEof then (out, g, Ret None)
                else printRecordsLoop fuel re search params g reader out
            | Panic p => (out, g, Panic p)
            | Diverge => (out, g, Diverge)
            end
      end
  end.

Definition PrintRecordsFrom (fuel : nat) (search : string) (g : Registry)
    (reader : list byte) : list string * Registry * result (option error) :=
  match Compile search with
  | inl err =>
      ([], g,
       Ret (Some ("Bad regex '" +:+ search +:+ "': " +:+ err +:+ newline)))
  | inr re =>
      let '(err, reader) := ReadHeaderFrom reader in
      match err with
      | Some err =>
          ([], g, Ret (Some ("Reading header: " +:+ err +:+ newline)))
      | None => printRecordsLoop fuel re search None g reader []
      end
  end.
End PrintRecords.

(** How a run ended, for a caller that looks at the error only: [true]
    for no error. *)
Definition ending {A : Type} (out : result A) (err : A -> option error)
    : result bool :=
  match out with
  | Ret a => Ret (bool_decide (err a = None))
  | Panic p => Panic p
  | Diverge => Diverge
  end.

(** * Properties *)

(** ** Fixed-width decoding *)

Lemma byte_val_range (b : byte) : 0 <= byte_val b < 256.
Proof.
  unfold byte_val. pose proof (Byte.to_N_bounded b). lia.
Qed.

Lemma lor_shl (x y n : Z) :
  0 <= n -> 0 <= x < 2 ^ n -> Z.lor x (shl y n) = x + y * 2 ^ n.
Proof.
  intros Hn Hx. unfold shl. rewrite Z.shiftl_mul_pow2 by lia.
  symmetry. apply Z.add_nocarry_lor.
  apply Z.bits_inj'. intros k Hk.
  rewrite Z.land_spec, Z.bits_0.
  destruct (Z.lt_ge_cases k n) as [Hlt | Hge].
  - rewrite Z.mul_pow2_bits_low by lia. apply andb_false_r.
  - replace (Z.testbit x k) with false; [reflexivity |].
    symmetry. destruct (Z.eq_dec x 0) as [-> | Hx0];
      [apply Z.bits_0 |].
    apply Z.bits_above_log2; [lia |].
    apply Z.lt_le_trans with n; [| lia].
    apply Z.log2_lt_pow2; lia.
Qed.

Ltac eval_pow2 :=
  repeat match goal with
         | |- context [2 ^ ?k] =>
             let v := eval compute in (2 ^ k) in change (2 ^ k) with v
         end.

Ltac lor_to_sum :=
  repeat match goal with
         | |- context [Z.lor ?x (shl ?y ?n)] =>
             rewrite (lor_shl x y n) by (eval_pow2; lia)
         end;
  eval_pow2; lia.

Lemma Uint16_decode (bigEndian : bool) (b0 b1 : byte) (rest : list byte) :
  Uint16 (if bigEndian then BigEndian else LittleEndian) (b0 :: b1 :: rest)
  = Ret (decode_uint bigEndian [b0; b1]).
Proof.
  assert (H0 := byte_val_range b0). assert (H1 := byte_val_range b1).
  destruct bigEndian; cbn [Uint16 decode_uint rev app le_value]; f_equal;
    lor_to_sum.
Qed.

Lemma Uint32_decode (bigEndian : bool) (b0 b1 b2 b3 : byte)
    (rest : list byte) :
  Uint32 (if bigEndian then BigEndian else LittleEndian)
    (b0 :: b1 :: b2 :: b3 :: rest)
  = Ret (decode_uint bigEndian [b0; b1; b2; b3]).
Proof.
  assert (H0 := byte_val_range b0). assert (H1 := byte_val_range b1).
  assert (H2 := byte_val_range b2). assert (H3 := byte_val_range b3).
  destruct bigEndian; cbn [Uint32 decode_uint rev app le_value]; f_equal;
    lor_to_sum.
Qed.

Lemma Uint64_decode (bigEndian : bool) (b0 b1 b2 b3 b4 b5 b6 b7 : byte)
    (rest : list byte) :
  Uint64 (if bigEndian then BigEndian else LittleEndian)
    (b0 :: b1 :: b2 :: b3 :: b4 :: b5 :: b6 :: b7 :: rest)
  = Ret (decode_uint bigEndian [b0; b1; b2; b3; b4; b5; b6; b7]).
Proof.
  assert (H0 := byte_val_range b0). assert (H1 := byte_val_range b1).
  assert (H2 := byte_val_range b2). assert (H3 := byte_val_range b3).
  assert (H4 := byte_val_range b4). assert (H5 := byte_val_range b5).
  assert (H6 := byte_val_range b6). assert (H7 := byte_val_range b7).
  destruct bigEndian; cbn [Uint64 decode_uint rev app le_value]; f_equal;
    lor_to_sum.
Qed.

(** ** The pointer extractor *)

Lemma drop_window (contents : list byte) (f : Z) (n : nat) :
  0 <= f -> f + Z.of_nat n <= len contents ->
  slice_from contents f = Ret (drop (Z.to_nat f) contents) /\
  (n <= length (drop (Z.to_nat f) contents))%nat.
Proof.
  unfold slice_from, len. intros Hf Hle. split.
  - destruct (Z.ltb_spec (Z.of_nat (length contents)) f); [lia | reflexivity].
  - rewrite length_drop. lia.
Qed.

Lemma read_pointer (bigEndian : bool) (contents : list byte) (f ps : Z) :
  supportedPointerSize ps -> 0 <= f -> f + ps <= len contents ->
  (if ps =? 2 then
     b ← slice_from contents f;
     Uint16 (if bigEndian then BigEndian else LittleEndian) b
   else if ps =? 4 then
     b ← slice_from contents f;
     Uint32 (if bigEndian then BigEndian else LittleEndian) b
   else if ps =? 8 then
     b ← slice_from contents f;
     Uint64 (if bigEndian then BigEndian else LittleEndian) b
   else
     Panic (Explicit ("Cannot handle pointers of size " +:+ fmt_d ps)))
  = Ret (decode_uint bigEndian (window contents f ps)).
Proof.
  intros Hps Hf Hle. unfold window.
  destruct Hps as [-> | [-> | ->]]; cbn [Z.eqb Pos.eqb].
  - destruct (drop_window contents f 2 Hf Hle) as [-> Hlen].
    destruct (drop (Z.to_nat f) contents) as [|b0 [|b1 rest]];
      cbn in Hlen; try lia.
    apply Uint16_decode.
  - destruct (drop_window contents f 4 Hf Hle) as [-> Hlen].
    destruct (drop (Z.to_nat f) contents) as [|b0 [|b1 [|b2 [|b3 rest]]]];
      cbn in Hlen; try lia.
    apply Uint32_decode.
  - destruct (drop_window contents f 8 Hf Hle) as [-> Hlen].
    destruct (drop (Z.to_nat f) contents)
      as [|b0 [|b1 [|b2 [|b3 [|b4 [|b5 [|b6 [|b7 rest]]]]]]]];
      cbn in Hlen; try lia.
    apply Uint64_decode.
Qed.

Lemma pointerLoop_supported (bigEndian : bool) (ps address : Z)
    (contents : list byte) (fields : list Z) :
  supportedPointerSize ps ->
  (forall f, f ∈ fields -> 0 <= f /\ f + ps <= len contents) ->
  pointerLoop (if bigEndian then BigEndian else LittleEndian) ps address
    contents fields
  = Ret (add64 address <$> fields,
         (fun f => decode_uint bigEndian (window contents f ps)) <$> fields).
Proof.
  intros Hps. induction fields as [|f fields IH]; intros Hin.
  - reflexivity.
  - cbn [pointerLoop].
    destruct (Hin f) as [Hf Hle]; [left |].
    rewrite (read_pointer bigEndian contents f ps Hps Hf Hle).
    cbn [mbind result_bind].
    rewrite IH; [reflexivity |].
    intros g Hg. apply Hin. by right.
Qed.

Lemma pointerLoop_unsupported (byteOrder : ByteOrder) (ps address : Z)
    (contents : list byte) (f : Z) (fields : list Z) :
  ~ supportedPointerSize ps ->
  pointerLoop byteOrder ps address contents (f :: fields)
  = Panic (Explicit ("Cannot handle pointers of size " +:+ fmt_d ps)).
Proof.
  intros Hps. cbn [pointerLoop]. unfold supportedPointerSize in Hps.
  destruct (Z.eqb_spec ps 2); [tauto |].
  destruct (Z.eqb_spec ps 4); [tauto |].
  destruct (Z.eqb_spec ps 8); [tauto |].
  reflexivity.
Qed.

(** C5, counterexample: with a pointer size of 3 and an empty field list
    the extractor returns two empty sequences; nothing panics. *)
Lemma GetPointerInfo_size3_no_error :
  ~ supportedPointerSize (DumpParams.PointerSize params3) /\
  GetPointerInfo ownerNoFields (Some params3) = Ret ([], []).
Proof.
  split; [| reflexivity].
  unfold supportedPointerSize. cbn. lia.
Qed.

(** C5, as amended: for an Owner [o] and DumpParams [p] with a pointer size
    of 2, 4 or 8, when every field offset [f] has [f + PointerSize] within
    the contents, the extractor returns two sequences as long as the field
    list, with [source[i] = o.address + f_i] (in 64-bit arithmetic) and
    [target[i]] the unsigned integer that [contents[f_i .. f_i + size]]
    denotes in the byte order of [p].  With any other pointer size the call
    panics as soon as the field list has one entry, and returns two empty
    sequences when it has none. *)
Theorem GetPointerInfo_spec (o : Owner) (p : DumpParams.t) :
  let ps := DumpParams.PointerSize p in
  let fields := GetFields o in
  (supportedPointerSize ps ->
   (forall f, f ∈ fields -> 0 <= f /\ f + ps <= len (GetContents o)) ->
   exists source target,
     GetPointerInfo o (Some p) = Ret (source, target) /\
     length source = length fields /\
     length target = length fields /\
     forall (i : nat) f, fields !! i = Some f ->
       source !! i = Some (add64 (OwnerAddress o) f) /\
       target !! i =
         Some (decode_uint (DumpParams.BigEndian p)
                 (window (GetContents o) f ps))) /\
  (~ supportedPointerSize ps ->
   (fields <> [] ->
    exists msg, GetPointerInfo o (Some p) = Panic (Explicit msg)) /\
   (fields = [] -> GetPointerInfo o (Some p) = Ret ([], []))).
Proof.
  intros ps fields. split.
  - intros Hps Hin. eexists _, _. split.
    + unfold GetPointerInfo. apply pointerLoop_supported; assumption.
    + rewrite !length_fmap. split; [reflexivity |]. split; [reflexivity |].
      intros i f Hi. rewrite !list_lookup_fmap. fold fields.
      rewrite Hi. split; reflexivity.
  - intros Hps. split.
    + intros Hne. unfold GetPointerInfo. fold fields.
      destruct fields as [|f fields']; [congruence |].
      eexists. apply pointerLoop_unsupported. exact Hps.
    + intros Hnil. unfold GetPointerInfo. fold fields. rewrite Hnil.
      reflexivity.
Qed.

Lemma GetPointerInfo_spec_witness :
  (exists source target,
     GetPointerInfo ownerTwoFields (Some paramsBE2) = Ret (source, target) /\
     source !! 1%nat = Some 8196 /\ target !! 1%nat = Some 0x9abc) /\
  (exists msg,
     GetPointerInfo ownerTwoFields (Some params3) = Panic (Explicit msg)).
Proof.
  assert (Hsize : supportedPointerSize (DumpParams.PointerSize paramsBE2)).
  { unfold supportedPointerSize. cbn. lia. }
  assert (Hfit : forall f, f ∈ GetFields ownerTwoFields ->
            0 <= f /\
            f + DumpParams.PointerSize paramsBE2
              <= len (GetContents ownerTwoFields)).
  { intros f Hf. cbn in Hf.
    apply elem_of_cons in Hf as [-> | Hf]; [unfold len; cbn; lia |].
    apply elem_of_cons in Hf as [-> | Hf]; [unfold len; cbn; lia |].
    by apply elem_of_nil in Hf. }
  assert (Hodd : ~ supportedPointerSize (DumpParams.PointerSize params3)).
  { unfold supportedPointerSize. cbn. lia. }
  split.
  - destruct (proj1 (GetPointerInfo_spec ownerTwoFields paramsBE2) Hsize Hfit)
      as (source & target & Heq & _ & _ & Hat).
    exists source, target. split; [exact Heq |].
    exact (Hat 1%nat 4 eq_refl).
  - apply (proj1 (proj2 (GetPointerInfo_spec ownerTwoFields params3) Hodd)).
    discriminate.
Defined.

(** ** The index builder *)

Lemma readloop_prefix (pre rest : list Record) (c : TreeClimber) :
  Eof ∉ pre ->
  readloop c (pre ++ rest) = c' ← buildRecords c pre; readloop c' rest.
Proof.
  revert c. induction pre as [|x pre IH]; intros c Hno.
  - reflexivity.
  - assert (Hx : x <> Eof) by (intros ->; apply Hno; left).
    assert (Hpre : Eof ∉ pre) by (intros H; apply Hno; by right).
    cbn [app buildRecords].
    transitivity (c' ← buildRecord c x; readloop c' (pre ++ rest)).
    { destruct x; try reflexivity. congruence. }
    destruct (buildRecord c x) as [c1 | p |]; cbn; [| reflexivity ..].
    apply IH, Hpre.
Qed.

Lemma readloop_success (records : list Record) (c c' : TreeClimber) :
  readloop c records = Ret (c', None) ->
  exists pre rest,
    records = pre ++ Eof :: rest /\ (Eof ∉ pre) /\
    buildRecords c pre = Ret c'.
Proof.
  revert c. induction records as [|x records IH]; intros c Hrun.
  - discriminate.
  - assert (Hdec : x = Eof \/ x <> Eof)
      by (destruct x; (by left) || (by right)).
    destruct Hdec as [-> | Hx].
    + cbn in Hrun. inversion Hrun; subst.
      exists [], records. split; [reflexivity |].
      split; [apply not_elem_of_nil | reflexivity].
    + assert (Hstep : readloop c (x :: records)
                      = c1 ← buildRecord c x; readloop c1 records).
      { destruct x; try reflexivity. congruence. }
      rewrite Hstep in Hrun.
      destruct (buildRecord c x) as [c1 | p |] eqn:Hb; cbn in Hrun;
        try discriminate.
      destruct (IH c1 Hrun) as (pre & rest & -> & Hno & Hpre).
      exists (x :: pre), rest. split; [reflexivity |]. split.
      * intros [Heq | Hin]%elem_of_cons; [congruence | contradiction].
      * cbn [buildRecords]. rewrite Hb. exact Hpre.
Qed.

Lemma buildRecords_app (pre post : list Record) (c : TreeClimber) :
  buildRecords c (pre ++ post)
  = c' ← buildRecords c pre; buildRecords c' post.
Proof.
  revert c. induction pre as [|x pre IH]; intros c; [reflexivity |].
  cbn [app buildRecords].
  destruct (buildRecord c x) as [c1 | p |]; cbn; [apply IH | reflexivity ..].
Qed.

Lemma addOwner_fields (c : TreeClimber) (a : Z) (r : Record) :
  params (addOwner c a r) = params c /\
  memory (addOwner c a r) = memory c /\
  visited (addOwner c a r) = visited c /\
  finalizers (addOwner c a r) = finalizers c.
Proof.
  unfold addOwner. destruct (owners c !! a); cbn; auto.
Qed.

Lemma addOwners_fields (c : TreeClimber) (pointers : list Z) (r : Record) :
  params (addOwners c pointers r) = params c /\
  memory (addOwners c pointers r) = memory c /\
  visited (addOwners c pointers r) = visited c /\
  finalizers (addOwners c pointers r) = finalizers c.
Proof.
  revert c. induction pointers as [|t pointers IH]; intros c; cbn; [auto |].
  destruct (t =? 0); [apply IH |].
  destruct (IH (addOwner c t r)) as (-> & -> & -> & ->).
  apply addOwner_fields.
Qed.

(** What one turn of the loop does to [params] and to [memory]. *)
Lemma buildRecord_params (c c' : TreeClimber) (x : Record) :
  buildRecord c x = Ret c' -> params c' = paramsAfter (params c) [x].
Proof.
  unfold buildRecord. intros H.
  destruct x; cbn in H |- *;
    try (inversion H; subst; reflexivity);
    match type of H with
    | context [GetPointers ?o ?p] =>
        destruct (GetPointers o p) as [ts | |]; cbn in H; inversion H
    end;
    by rewrite (proj1 (addOwners_fields _ _ _)).
Qed.

Lemma buildRecord_memory (c c' : TreeClimber) (x : Record) :
  buildRecord c x = Ret c' ->
  memory c' =
    match GetAddress x with
    | Some a => <[a := x]> (memory c)
    | None => memory c
    end.
Proof.
  unfold buildRecord. intros H.
  destruct x; cbn in H |- *;
    try (inversion H; subst; reflexivity);
    match type of H with
    | context [GetPointers ?o ?p] =>
        destruct (GetPointers o p) as [ts | |]; cbn in H; inversion H
    end;
    by rewrite (proj1 (proj2 (addOwners_fields _ _ _))).
Qed.

Lemma paramsAfter_app (p0 : option DumpParams.t) (pre post : list Record) :
  paramsAfter p0 (pre ++ post) = paramsAfter (paramsAfter p0 pre) post.
Proof.
  revert p0. induction pre as [|x pre IH]; intros p0; [reflexivity |].
  destruct x; cbn; apply IH.
Qed.

Lemma buildRecords_params (records : list Record) (c c' : TreeClimber) :
  buildRecords c records = Ret c' ->
  params c' = paramsAfter (params c) records.
Proof.
  revert c. induction records as [|x records IH]; intros c H.
  - inversion H. reflexivity.
  - cbn [buildRecords] in H.
    destruct (buildRecord c x) as [c1 | |] eqn:Hb; cbn in H;
      try discriminate.
    rewrite (IH _ H), (buildRecord_params _ _ _ Hb).
    change (x :: records) with ([x] ++ records).
    by rewrite paramsAfter_app.
Qed.

Lemma buildRecords_memory_other (records : list Record) (c c' : TreeClimber)
    (a : Z) :
  buildRecords c records = Ret c' ->
  (forall x, x ∈ records -> GetAddress x <> Some a) ->
  memory c' !! a = memory c !! a.
Proof.
  revert c. induction records as [|x records IH]; intros c H Hother.
  - inversion H. reflexivity.
  - cbn [buildRecords] in H.
    destruct (buildRecord c x) as [c1 | |] eqn:Hb; cbn in H;
      try discriminate.
    rewrite (IH _ H); [| intros y Hy; apply Hother; by right].
    rewrite (buildRecord_memory _ _ _ Hb).
    assert (Hx : GetAddress x <> Some a) by (apply Hother; left).
    destruct (GetAddress x) as [b|]; [| reflexivity].
    apply lookup_insert_ne. congruence.
Qed.

Lemma buildRecord_no_params (c : TreeClimber) (x : Record) :
  params c = None -> ~ isDumpParams x ->
  buildRecord c x = Panic NilDereference \/
  exists c1, buildRecord c x = Ret c1 /\ params c1 = None.
Proof.
  intros Hnil Hnot. unfold buildRecord.
  destruct x; cbn; rewrite ?Hnil; cbn;
    try (left; reflexivity);
    try (right; eexists; split; [reflexivity | exact Hnil]).
  exfalso. apply Hnot. eexists. reflexivity.
Qed.

Lemma buildRecord_owner_no_params (c : TreeClimber) (r : Record) (o : Owner) :
  params c = None -> asOwner r = Some o ->
  buildRecord c r = Panic NilDereference.
Proof.
  intros Hnil Ho. unfold buildRecord.
  destruct r; cbn in Ho; try discriminate; cbn; rewrite Hnil; reflexivity.
Qed.

Lemma readloop_owner_before_params (pre post : list Record) (r : Record)
    (o : Owner) (c : TreeClimber) :
  params c = None ->
  asOwner r = Some o ->
  (forall x, x ∈ pre -> x <> Eof /\ ~ isDumpParams x) ->
  readloop c (pre ++ r :: post) = Panic NilDereference.
Proof.
  intros Hnil Ho. revert c Hnil.
  induction pre as [|x pre IH]; intros c Hnil Hpre.
  - cbn [app].
    assert (Hstep : readloop c (r :: post)
                    = c1 ← buildRecord c r; readloop c1 post)
      by (destruct r; try reflexivity; discriminate).
    rewrite Hstep, (buildRecord_owner_no_params c r o Hnil Ho). reflexivity.
  - destruct (Hpre x) as [Hx Hnp]; [left |].
    assert (Hstep : readloop c ((x :: pre) ++ r :: post)
                    = c1 ← buildRecord c x; readloop c1 (pre ++ r :: post))
      by (destruct x; try reflexivity; congruence).
    rewrite Hstep.
    destruct (buildRecord_no_params c x Hnil Hnp) as [-> | (c1 & -> & H1)];
      [reflexivity |].
    cbn. apply IH; [exact H1 |].
    intros y Hy. apply Hpre. by right.
Qed.

(** C10: when an Owner record (Object, StackFrame, DataSegment or
    BssSegment) comes before the first DumpParams record of the stream,
    building the analyzer panics on the nil DumpParams pointer instead of
    returning an error, whatever the Owner's contents and field list. *)
Theorem build_owner_before_params (reader : Reader) (pre post : list Record)
    (r : Record) (o : Owner) :
  ReadHeader reader = None ->
  Records reader = pre ++ r :: post ->
  asOwner r = Some o ->
  (forall x, x ∈ pre -> x <> Eof /\ ~ isDumpParams x) ->
  NewTreeClimber reader = Panic NilDereference.
Proof.
  intros Hhead Hrec Ho Hpre.
  unfold NewTreeClimber, build. rewrite Hhead, Hrec.
  apply (readloop_owner_before_params pre post r o); [reflexivity | | ]; auto.
Qed.

Lemma build_owner_before_params_witness :
  GetContents (mkOwner 0x1000 [] []) = [] /\
  GetFields (mkOwner 0x1000 [] []) = [] /\
  NewTreeClimber dumpOwnerFirst = Panic NilDereference.
Proof.
  split; [reflexivity |]. split; [reflexivity |].
  apply (build_owner_before_params dumpOwnerFirst []
           [DumpParams paramsLE8; Eof] (Object objectEmpty)
           (mkOwner 0x1000 [] [])).
  - reflexivity.
  - reflexivity.
  - reflexivity.
  - intros x Hx. by apply elem_of_nil in Hx.
Defined.

(** C1, counterexample: after the build of a dump that holds an OtherRoot
    record with address 16, [memory[16]] is that OtherRoot record. *)
Lemma OtherRoot_is_indexed :
  NewTreeClimber dumpOtherRoot = Ret (builtFrom dumpOtherRoot, None) /\
  GetAddress (OtherRoot rootAt16) = Some 16 /\
  memory (builtFrom dumpOtherRoot) !! 16 = Some (OtherRoot rootAt16).
Proof.
  repeat split; reflexivity.
Qed.

Lemma bind_Ret_inv {A B : Type} (m : result A) (k : A -> result B) (b : B) :
  m ≫= k = Ret b -> exists a, m = Ret a /\ k a = Ret b.
Proof.
  destruct m as [a | |]; cbn; intros H; try discriminate. eauto.
Qed.

(** A successful build, cut at one of the records in front of [Eof]. *)
Lemma build_split (reader : Reader) (c : TreeClimber) (x : Record)
    (pre mid rest : list Record) :
  NewTreeClimber reader = Ret (c, None) ->
  Records reader = pre ++ x :: mid ++ Eof :: rest ->
  Eof ∉ pre -> x <> Eof -> Eof ∉ mid ->
  exists c1 c2,
    buildRecords zeroTreeClimber pre = Ret c1 /\
    buildRecord c1 x = Ret c2 /\
    buildRecords c2 mid = Ret c.
Proof.
  intros Hbuild Hrec Hpre Hx Hmid.
  unfold NewTreeClimber, build in Hbuild.
  destruct (ReadHeader reader); [discriminate |].
  rewrite Hrec in Hbuild.
  change (set_finalizers ∅ (set_owners ∅ (set_memory ∅ zeroTreeClimber)))
    with zeroTreeClimber in Hbuild.
  replace (pre ++ x :: mid ++ Eof :: rest)
    with ((pre ++ x :: mid) ++ Eof :: rest) in Hbuild
    by (by rewrite <- app_assoc).
  rewrite readloop_prefix in Hbuild.
  2:{ intros [H | H]%elem_of_app; [by apply Hpre |].
      apply elem_of_cons in H as [H | H]; [congruence | by apply Hmid]. }
  apply bind_Ret_inv in Hbuild as (c3 & Hall & Hend).
  cbn in Hend. inversion Hend; subst c3.
  rewrite buildRecords_app in Hall.
  apply bind_Ret_inv in Hall as (c1 & H1 & Hall).
  change (buildRecords c1 (x :: mid))
    with (buildRecord c1 x ≫= fun c' => buildRecords c' mid) in Hall.
  apply bind_Ret_inv in Hall as (c2 & H2 & H3).
  eauto.
Qed.

(** C1, as amended: OtherRoot has a [GetAddress] method, so the build
    stores every decoded OtherRoot record in [memory] at its address; after
    a successful build [memory[r.Address]] is the OtherRoot record [r],
    unless a later record of the dump has the same address. *)
Theorem OtherRoot_in_memory (reader : Reader) (c : TreeClimber)
    (r : OtherRoot.t) (pre mid rest : list Record) :
  NewTreeClimber reader = Ret (c, None) ->
  Records reader = pre ++ OtherRoot r :: mid ++ Eof :: rest ->
  Eof ∉ pre -> Eof ∉ mid ->
  (forall x, x ∈ mid -> GetAddress x <> Some (OtherRoot.Address r)) ->
  GetAddress (OtherRoot r) = Some (OtherRoot.Address r) /\
  memory c !! OtherRoot.Address r = Some (OtherRoot r).
Proof.
  intros Hbuild Hrec Hpre Hmid Hother. split; [reflexivity |].
  destruct (build_split reader c (OtherRoot r) pre mid rest)
    as (c1 & c2 & H1 & H2 & H3); [done ..|].
  rewrite (buildRecords_memory_other mid c2 c _ H3 Hother).
  rewrite (buildRecord_memory _ _ _ H2). cbn.
  apply lookup_insert_eq.
Qed.

Lemma OtherRoot_in_memory_witness :
  GetAddress (OtherRoot rootAt16) = Some 16 /\
  memory (builtFrom dumpOtherRoot) !! 16 = Some (OtherRoot rootAt16).
Proof.
  apply (OtherRoot_in_memory dumpOtherRoot _ rootAt16
           [DumpParams paramsLE8] [] []).
  - reflexivity.
  - reflexivity.
  - intros H. apply elem_of_cons in H as [H | H]; [discriminate |].
    by apply elem_of_nil in H.
  - apply not_elem_of_nil.
  - intros x Hx. by apply elem_of_nil in Hx.
Defined.

(** *** The reverse-ownership index *)

Lemma addOwner_same (c : TreeClimber) (t : Z) (r : Record) :
  owners (addOwner c t r) !! t
  = Some (default [] (owners c !! t) ++ [r]).
Proof.
  unfold addOwner. destruct (owners c !! t) as [os|] eqn:Hos; cbn.
  - rewrite lookup_insert_eq. unfold lookup_total, map_lookup_total.
    rewrite Hos. reflexivity.
  - rewrite lookup_insert_eq. unfold lookup_total, map_lookup_total.
    rewrite lookup_insert_eq. reflexivity.
Qed.

Lemma addOwner_other (c : TreeClimber) (t u : Z) (r : Record) :
  t <> u -> owners (addOwner c t r) !! u = owners c !! u.
Proof.
  intros Hne. unfold addOwner. destruct (owners c !! t); cbn;
    rewrite ?lookup_insert_ne by done; reflexivity.
Qed.

Lemma addOwner_ownedBy (c : TreeClimber) (t : Z) (r : Record) :
  ownedBy (addOwner c t r) t r.
Proof.
  eexists. split; [apply addOwner_same |].
  apply elem_of_app. right. left.
Qed.

Lemma addOwner_mono (c : TreeClimber) (t u : Z) (r r' : Record) :
  ownedBy c u r' -> ownedBy (addOwner c t r) u r'.
Proof.
  intros (os & Hos & Hin). destruct (decide (t = u)) as [-> | Hne].
  - eexists. split; [apply addOwner_same |].
    rewrite Hos. cbn. apply elem_of_app. by left.
  - exists os. split; [| exact Hin]. by rewrite addOwner_other.
Qed.

Lemma addOwners_mono (c : TreeClimber) (ts : list Z) (u : Z)
    (r r' : Record) :
  ownedBy c u r' -> ownedBy (addOwners c ts r) u r'.
Proof.
  revert c. induction ts as [|t ts IH]; intros c H; [exact H |].
  cbn [addOwners]. apply IH.
  destruct (t =? 0); [exact H | by apply addOwner_mono].
Qed.

Lemma addOwners_ownedBy (c : TreeClimber) (ts : list Z) (t : Z)
    (r : Record) :
  t ∈ ts -> t <> 0 -> ownedBy (addOwners c ts r) t r.
Proof.
  revert c. induction ts as [|u ts IH]; intros c Hin Hnz.
  - by apply elem_of_nil in Hin.
  - cbn [addOwners]. apply elem_of_cons in Hin as [<- | Hin].
    + apply addOwners_mono.
      destruct (Z.eqb_spec t 0); [contradiction |].
      apply addOwner_ownedBy.
    + by apply IH.
Qed.

Lemma addOwners_zero (c : TreeClimber) (ts : list Z) (r : Record) :
  owners c !! 0 = None -> owners (addOwners c ts r) !! 0 = None.
Proof.
  revert c. induction ts as [|t ts IH]; intros c H; [exact H |].
  cbn [addOwners]. apply IH.
  destruct (Z.eqb_spec t 0); [exact H |].
  by rewrite addOwner_other.
Qed.

(** One turn of the loop leaves [owners] alone or hands it to
    [addOwners]. *)
Lemma buildRecord_owners (c c' : TreeClimber) (x : Record) :
  buildRecord c x = Ret c' ->
  owners c' = owners c \/
  exists c0 ts, owners c0 = owners c /\ c' = addOwners c0 ts x.
Proof.
  unfold buildRecord. intros H.
  destruct x; cbn in H;
    try (inversion H; subst; left; reflexivity);
    match type of H with
    | context [GetPointers ?o ?p] =>
        destruct (GetPointers o p) as [ts | |]; cbn in H; inversion H
    end;
    right; eexists _, ts; (split; [| reflexivity]); reflexivity.
Qed.

Lemma buildRecord_mono (c c' : TreeClimber) (x : Record) (u : Z)
    (r : Record) :
  buildRecord c x = Ret c' -> ownedBy c u r -> ownedBy c' u r.
Proof.
  intros Hb Hin.
  destruct (buildRecord_owners c c' x Hb) as [Heq | (c0 & ts & Heq & ->)].
  - unfold ownedBy. by rewrite Heq.
  - apply addOwners_mono. unfold ownedBy. by rewrite Heq.
Qed.

Lemma buildRecord_zero (c c' : TreeClimber) (x : Record) :
  buildRecord c x = Ret c' -> owners c !! 0 = None -> owners c' !! 0 = None.
Proof.
  intros Hb Hz.
  destruct (buildRecord_owners c c' x Hb) as [Heq | (c0 & ts & Heq & ->)].
  - by rewrite Heq.
  - apply addOwners_zero. by rewrite Heq.
Qed.

Lemma buildRecords_mono (records : list Record) (c c' : TreeClimber) (u : Z)
    (r : Record) :
  buildRecords c records = Ret c' -> ownedBy c u r -> ownedBy c' u r.
Proof.
  revert c. induction records as [|x records IH]; intros c H Hin.
  - inversion H; by subst.
  - apply bind_Ret_inv in H as (c1 & Hb & H).
    eapply IH; [exact H |]. eapply buildRecord_mono; eauto.
Qed.

Lemma buildRecords_zero (records : list Record) (c c' : TreeClimber) :
  buildRecords c records = Ret c' ->
  owners c !! 0 = None -> owners c' !! 0 = None.
Proof.
  revert c. induction records as [|x records IH]; intros c H Hz.
  - inversion H; by subst.
  - apply bind_Ret_inv in H as (c1 & Hb & H).
    eapply IH; [exact H |]. eapply buildRecord_zero; eauto.
Qed.

(** An Owner record that the loop gets past was handed, with the pointers
    the extractor found under the current DumpParams, to [addOwners]. *)
Lemma buildRecord_owner (c c' : TreeClimber) (r : Record) (o : Owner) :
  buildRecord c r = Ret c' -> asOwner r = Some o ->
  exists c0 p ts,
    params c = Some p /\ GetPointers o (Some p) = Ret ts /\
    c' = addOwners c0 ts r.
Proof.
  unfold buildRecord. intros H Ho.
  destruct r; cbn in Ho; try discriminate; inversion Ho; subst o;
    cbn in H; apply bind_Ret_inv in H as (ts & Hts & H);
    inversion H; subst c';
    (destruct (params c) as [p|]; [| discriminate]);
    eexists _, p, ts; (split; [reflexivity |]); (split; [exact Hts |]);
    reflexivity.
Qed.

(** C8: after a successful build, every Owner record [r] of the dump is
    listed in [owners[t]] for every non-zero target [t] that the pointer
    extractor reads from [r] under the DumpParams that precede it (which
    are the analyzer's [params] when no DumpParams record follows [r]);
    [owners] has no entry for the target 0. *)
Theorem owners_index_complete (reader : Reader) (c : TreeClimber)
    (r : Record) (o : Owner) (pre mid rest : list Record) :
  NewTreeClimber reader = Ret (c, None) ->
  Records reader = pre ++ r :: mid ++ Eof :: rest ->
  Eof ∉ pre -> Eof ∉ mid ->
  asOwner r = Some o ->
  exists p targets,
    paramsAfter None pre = Some p /\
    ((forall x, x ∈ mid -> ~ isDumpParams x) -> params c = Some p) /\
    GetPointers o (Some p) = Ret targets /\
    (forall t, t ∈ targets -> t <> 0 -> ownedBy c t r) /\
    owners c !! 0 = None.
Proof.
  intros Hbuild Hrec Hpre Hmid Ho.
  assert (Hr : r <> Eof) by (intros ->; discriminate).
  destruct (build_split reader c r pre mid rest Hbuild Hrec Hpre Hr Hmid)
    as (c1 & c2 & H1 & H2 & H3).
  destruct (buildRecord_owner c1 c2 r o H2 Ho) as (c0 & p & ts & Hp & Hts & ->).
  pose proof (buildRecords_params _ _ _ H1) as Hp1. cbn in Hp1.
  exists p, ts. split; [congruence |]. split; [| split; [exact Hts | split]].
  - intros Hnone. rewrite (buildRecords_params _ _ _ H3).
    rewrite (buildRecord_params _ _ _ H2), Hp.
    assert (Hr' : paramsAfter (Some p) [r] = Some p)
      by (destruct r; cbn in Ho; try discriminate; reflexivity).
    rewrite Hr'. clear - Hnone.
    induction mid as [|x mid IH]; [reflexivity |].
    assert (~ isDumpParams x) as Hx by (apply Hnone; left).
    destruct x; cbn; try (apply IH; intros y Hy; apply Hnone; by right).
    exfalso. apply Hx. eexists. reflexivity.
  - intros t Hin Hnz. eapply buildRecords_mono; [exact H3 |].
    by apply addOwners_ownedBy.
  - eapply buildRecords_zero; [exact H3 |].
    eapply buildRecord_zero; [exact H2 |].
    eapply buildRecords_zero; [exact H1 |]. reflexivity.
Qed.

Lemma owners_index_complete_witness :
  ownedBy (builtFrom dumpChain) 0x3000 (Object objectA) /\
  owners (builtFrom dumpChain) !! 0 = None.
Proof.
  destruct (owners_index_complete dumpChain (builtFrom dumpChain)
              (Object objectA)
              (mkOwner 0x2000 (Object.Contents objectA) [0])
              [DumpParams paramsLE8] [Object objectB] []
              eq_refl eq_refl)
    as (p & targets & Hp & _ & Hts & Hin & Hz).
  - intros H. apply elem_of_cons in H as [H | H]; [discriminate |].
    by apply elem_of_nil in H.
  - intros H. apply elem_of_cons in H as [H | H]; [discriminate |].
    by apply elem_of_nil in H.
  - reflexivity.
  - split; [| exact Hz].
    apply Hin; [| discriminate].
    cbn in Hp. inversion Hp; subst p.
    vm_compute in Hts. inversion Hts. left.
Defined.

(** ** The traversal engine *)

(** *** Loops over the owners of an address *)

Lemma forAddressable_inv (P : Trace -> Prop)
    (body : Z -> Trace -> Trace * result unit) (o : list Record) (s : Trace) :
  P s ->
  (forall owner a s, owner ∈ o -> GetAddress owner = Some a -> P s ->
     (body a s).2 <> Diverge /\ P (body a s).1) ->
  (forAddressable body o s).2 <> Diverge /\ P (forAddressable body o s).1.
Proof.
  revert s. induction o as [|owner o IH]; intros s Hs Hbody.
  - cbn. split; [discriminate | exact Hs].
  - cbn [forAddressable].
    assert (Htail : forall s', P s' ->
              (forAddressable body o s').2 <> Diverge /\
              P (forAddressable body o s').1).
    { intros s' Hs'. apply IH; [exact Hs' |].
      intros owner' a' s'' Hin. apply Hbody. by right. }
    destruct (GetAddress owner) as [a|] eqn:Ha; [| by apply Htail].
    destruct (Hbody owner a s) as [Hnd HP]; [left | exact Ha | exact Hs |].
    destruct (body a s) as [s1 [[] | p |]]; cbn in Hnd, HP.
    + by apply Htail.
    + cbn. split; [discriminate | exact HP].
    + congruence.
Qed.

(** *** More fuel changes nothing once a call has come to its end *)

Lemma forAddressable_ext (body1 body2 : Z -> Trace -> Trace * result unit)
    (o : list Record) (s : Trace) :
  (forall a s, (body2 a s).2 <> Diverge -> body1 a s = body2 a s) ->
  (forAddressable body2 o s).2 <> Diverge ->
  forAddressable body1 o s = forAddressable body2 o s.
Proof.
  intros Hbody. revert s. induction o as [|owner o IH]; intros s Hnd.
  - reflexivity.
  - cbn [forAddressable] in Hnd |- *.
    destruct (GetAddress owner) as [a|]; [| by apply IH].
    specialize (Hbody a s).
    destruct (body2 a s) as [s2 [[] | p |]] eqn:H2; cbn in Hbody.
    + rewrite Hbody by discriminate. by apply IH.
    + rewrite Hbody by discriminate. reflexivity.
    + cbn in Hnd. congruence.
Qed.

Lemma printOwners_more (fuel fuel' : nat) (c : TreeClimber)
    (address depth : Z) (prefix : list string) (s : Trace) :
  (fuel <= fuel')%nat ->
  (printOwners fuel c address depth prefix s).2 <> Diverge ->
  printOwners fuel' c address depth prefix s
  = printOwners fuel c address depth prefix s.
Proof.
  revert fuel' address depth prefix s.
  induction fuel as [|fuel IH]; intros fuel' address depth prefix s Hle Hnd;
    [cbn in Hnd; congruence |].
  destruct fuel' as [|fuel']; [lia |].
  cbn [printOwners] in Hnd |- *.
  destruct (depth =? 0); [reflexivity |].
  case_bool_decide; [reflexivity |].
  destruct (memory c !! address) as [r|]; [| reflexivity].
  destruct (asStringer r) as [str|]; [| reflexivity].
  destruct (owners c !! address) as [o|]; [| reflexivity].
  match goal with
  | Hnd : context [forAddressable ?body2 o ?s1] |- _ =>
      match goal with
      | |- context [forAddressable ?body1 o s1] =>
          rewrite (forAddressable_ext body1 body2 o s1)
      end
  end.
  - reflexivity.
  - intros a s' Ha. cbn beta in Ha |- *. rewrite (IH fuel').
    + reflexivity.
    + lia.
    + destruct (printOwners fuel c a _ _ s') as [s2 [[e|] | p |]];
        cbn in Ha |- *; congruence.
  - destruct (forAddressable _ o _) as [s2 [[] | p |]]; cbn in Hnd |- *;
      congruence.
Qed.

Lemma printChildren_more (fuel fuel' : nat) (c : TreeClimber) (childPtr : Z)
    (s : Trace) :
  (fuel <= fuel')%nat ->
  (printChildren fuel c childPtr s).2 <> Diverge ->
  printChildren fuel' c childPtr s = printChildren fuel c childPtr s.
Proof.
  revert fuel' childPtr s.
  induction fuel as [|fuel IH]; intros fuel' childPtr s Hle Hnd.
  - cbn [printChildren] in Hnd |- *.
    destruct fuel'; cbn [printChildren];
      (destruct (childPtr =? 0); [reflexivity | cbn in Hnd; congruence]).
  - destruct fuel' as [|fuel']; [lia |].
    cbn [printChildren] in Hnd |- *.
    destruct (childPtr =? 0); [reflexivity |].
    destruct (assertStackFrame (memory c !! childPtr)) as [child | p |];
      [| reflexivity ..].
    destruct (negb _); [reflexivity |].
    apply IH; [lia | exact Hnd].
Qed.

Lemma printAnchors_more (fuel fuel' : nat) (c : TreeClimber) (address : Z)
    (s : Trace) :
  (fuel <= fuel')%nat ->
  (printAnchors fuel c address s).2 <> Diverge ->
  printAnchors fuel' c address s = printAnchors fuel c address s.
Proof.
  revert fuel' address s.
  induction fuel as [|fuel IH]; intros fuel' address s Hle Hnd;
    [cbn in Hnd; congruence |].
  destruct fuel' as [|fuel']; [lia |].
  cbn [printAnchors] in Hnd |- *.
  case_bool_decide; [reflexivity |].
  destruct (memory c !! address) as [r|]; [| reflexivity].
  (* the type switch *)
  match goal with
  | Hnd : context [let '(s0, sw) := ?sel2 in _] |- _ =>
      match goal with
      | |- context [let '(s0, sw) := ?sel1 in _] =>
          assert (Hsel : sel2.2 <> Diverge -> sel1 = sel2);
          [| destruct sel2 as [s2 sw2] eqn:Hsel2; cbn [snd] in Hsel;
             destruct sw2 as [[err|] | p |];
             [rewrite Hsel by discriminate; reflexivity
             | rewrite Hsel by discriminate
             | rewrite Hsel by discriminate; reflexivity
             | cbn in Hnd; congruence]]
      end
  end.
  { destruct r; try reflexivity.
    intros Hc. apply printChildren_more; [lia | exact Hc]. }
  destruct (owners c !! address) as [o|]; [| reflexivity].
  match goal with
  | Hnd : context [forAddressable ?body2 o ?s1] |- _ =>
      match goal with
      | |- context [forAddressable ?body1 o s1] =>
          rewrite (forAddressable_ext body1 body2 o s1)
      end
  end.
  - reflexivity.
  - intros a s' Ha. cbn beta in Ha |- *. rewrite (IH fuel').
    + reflexivity.
    + lia.
    + destruct (printAnchors fuel c a s') as [s3 [e | p |]];
        cbn in Ha |- *; congruence.
  - destruct (forAddressable _ o _) as [s3 [[] | p |]]; cbn in Hnd |- *;
      congruence.
Qed.

(** *** The addresses a traversal can reach *)

Lemma ownerAddresses_spec (c : TreeClimber) (a b : Z) (os : list Record)
    (owner : Record) :
  owners c !! a = Some os -> owner ∈ os -> GetAddress owner = Some b ->
  b ∈ ownerAddresses c.
Proof.
  intros Hos Hin Hb. unfold ownerAddresses.
  apply elem_of_list_to_set, list_elem_of_omap.
  exists owner. split; [| exact Hb].
  apply list_elem_of_join. exists os. split; [exact Hin |].
  apply list_elem_of_fmap. exists (a, os). split; [reflexivity |].
  by apply elem_of_map_to_list.
Qed.

Lemma size_unseen (U : gset Z) (v : gset Z) (a : Z) :
  a ∈ U -> a ∉ v ->
  (size (U ∖ ({[a]} ∪ v)) < size (U ∖ v))%nat.
Proof.
  intros HU Hv. apply subset_size. set_solver.
Qed.

Lemma size_unseen_mono (U v v' : gset Z) :
  v ⊆ v' -> (size (U ∖ v') <= size (U ∖ v))%nat.
Proof.
  intros Hsub. apply subseteq_size. set_solver.
Qed.

(** *** Termination of [printOwners] *)

Section Reach.
Context (c : TreeClimber) (U : gset Z).
Hypothesis Hclosed :
  forall a os owner b,
    owners c !! a = Some os -> owner ∈ os -> GetAddress owner = Some b ->
    b ∈ U.

(** Each call that gets past its visited test marks one more address of
    [U], so the calls nest at most [size U] deep. *)
Lemma printOwners_fuel (fuel : nat) (address depth : Z)
    (prefix : list string) (s : Trace) :
  address ∈ U ->
  (size (U ∖ seen s) < fuel)%nat ->
  (printOwners fuel c address depth prefix s).2 <> Diverge /\
  seen s ⊆ seen (printOwners fuel c address depth prefix s).1.
Proof.
  revert address depth prefix s.
  induction fuel as [|fuel IH]; intros address depth prefix s HU Hfuel;
    [lia |].
  cbn [printOwners].
  destruct (depth =? 0); [cbn; split; [discriminate | done] |].
  case_bool_decide as Hseen; [cbn; split; [discriminate | done] |].
  assert (Hmark : (size (U ∖ seen (mark address s)) < fuel)%nat).
  { pose proof (size_unseen U (seen s) address HU Hseen). cbn. lia. }
  assert (Hsub : seen s ⊆ seen (mark address s)) by (cbn; set_solver).
  destruct (memory c !! address) as [r|];
    [| cbn; split; [discriminate | exact Hsub]].
  destruct (asStringer r) as [str|];
    [| cbn; split; [discriminate | exact Hsub]].
  set (s1 := println _ (mark address s)).
  destruct (owners c !! address) as [o|] eqn:Ho;
    [| cbn; split; [discriminate | exact Hsub]].
  match goal with
  | |- context [forAddressable ?body o s1] =>
      destruct (forAddressable_inv
                  (fun s' => seen (mark address s) ⊆ seen s') body o s1)
        as [Hnd Hinc]
  end.
  - reflexivity.
  - intros owner a s' Hin Ha Hs'.
    destruct (IH a (wrap_int (depth - 1))
                [fold_left String.append prefix ""%string; "  "%string] s')
      as [Hnd' Hinc'].
    + eapply Hclosed; eauto.
    + pose proof (size_unseen_mono U _ _ Hs'). lia.
    + destruct (printOwners fuel c a _ _ s') as [s2 [[e|] | p |]];
        cbn in Hnd', Hinc' |- *;
        (split; [discriminate || congruence | set_solver]).
  - destruct (forAddressable _ o s1) as [s2 [[] | p |]];
      cbn in Hnd, Hinc |- *;
      (split; [discriminate || congruence | set_solver]).
Qed.
End Reach.

Lemma PrintOwners_more (fuel fuel' : nat) (c : TreeClimber)
    (address depth : Z) :
  (fuel <= fuel')%nat ->
  ended (PrintOwners fuel c address depth) <> Diverge ->
  PrintOwners fuel' c address depth = PrintOwners fuel c address depth.
Proof.
  unfold PrintOwners. intros Hle Hnd.
  match goal with
  | |- context [printOwners fuel ?c1 address ?d [] ?s] =>
      rewrite (printOwners_more fuel fuel' c1 address d [] s Hle);
      [reflexivity |];
      destruct (printOwners fuel c1 address d [] s) as [s1 r]; exact Hnd
  end.
Qed.

Lemma PrintOwners_terminates (c : TreeClimber) (address depth : Z) :
  terminates (fun fuel => PrintOwners fuel c address depth).
Proof.
  set (U := {[address]} ∪ ownerAddresses c : gset Z).
  assert (Hnd : ended (PrintOwners (S (size U)) c address depth) <> Diverge).
  { unfold PrintOwners.
    set (c1 := set_visited (Some ∅) c).
    set (d := if 0 <? depth then _ else _).
    destruct (printOwners_fuel c1 U) with
      (fuel := S (size U)) (address := address) (depth := d)
      (prefix := @nil string)
      (s := mkTrace (default ∅ (visited c1)) []) as [Hnd _].
    - intros a os owner b Hos Hin Hb. apply elem_of_union_r.
      by apply (ownerAddresses_spec c a b os owner).
    - set_solver.
    - cbn.
      assert (size (U ∖ ∅) <= size U)%nat
        by (apply subseteq_size; set_solver).
      lia.
    - destruct (printOwners (S (size U)) c1 address d [] _) as [s r].
      exact Hnd. }
  exists (S (size U)). split; [exact Hnd |].
  intros fuel' Hle. by apply PrintOwners_more.
Qed.

(** *** Termination of [printAnchors] *)

Lemma frameLink_target (c : TreeClimber) (a b : Z) :
  tc (frameLink c) a b -> b ∈ dom (memory c).
Proof.
  induction 1 as [a b (f & g & _ & _ & _ & Hb) | a b b' _ _ IH];
    [| exact IH].
  apply elem_of_dom. eauto.
Qed.

Lemma acyclicFrames_sn (c : TreeClimber) (a : Z) :
  acyclicFrames c -> sn (frameLink c) a.
Proof.
  intros Hacyc. apply tc_finite_sn; [exact Hacyc |].
  exists (elements (dom (memory c))). intros b Hb.
  apply elem_of_elements. by apply (frameLink_target c a).
Qed.

(** From a given frame the walk down the ChildPointer chain ends, by a
    pointer of 0 or by a panic, once it has fuel enough. *)
Lemma printChildren_from (c : TreeClimber) (childPtr : Z) :
  sn (frameLink c) childPtr ->
  exists n, forall fuel s, (n <= fuel)%nat ->
    (printChildren fuel c childPtr s).2 <> Diverge /\
    seen (printChildren fuel c childPtr s).1 = seen s.
Proof.
  induction 1 as [p _ IH]. cbn in IH.
  destruct (memory c !! p) as [r|] eqn:Hp.
  2:{ exists 1%nat. intros [|fuel] s Hle; [lia |]. cbn [printChildren].
      destruct (p =? 0); [cbn; split; [discriminate | done] |].
      rewrite Hp. cbn. split; [discriminate | done]. }
  assert (Hother : (forall f, r <> StackFrame f) ->
            exists n, forall fuel s, (n <= fuel)%nat ->
              (printChildren fuel c p s).2 <> Diverge /\
              seen (printChildren fuel c p s).1 = seen s).
  { intros Hr. exists 1%nat. intros [|fuel] s Hle; [lia |].
    cbn [printChildren].
    destruct (p =? 0); [cbn; split; [discriminate | done] |].
    rewrite Hp. destruct r; cbn; try (split; [discriminate | done]).
    by edestruct Hr. }
  destruct r as [ | | | | | f | | | | | | | | | | | | ];
    try (apply Hother; discriminate).
  set (q := StackFrame.ChildPointer f).
  assert (Hq : exists n, forall fuel s, (n <= fuel)%nat ->
            (printChildren fuel c q s).2 <> Diverge /\
            seen (printChildren fuel c q s).1 = seen s).
  { destruct (decide (q = 0)) as [Hz | Hnz].
    { exists 0%nat. intros fuel s _. rewrite Hz.
      destruct fuel; cbn; (split; [discriminate | done]). }
    destruct (memory c !! q) as [rq|] eqn:Hrq.
    2:{ exists 1%nat. intros [|fuel] s Hle; [lia |]. cbn [printChildren].
        destruct (Z.eqb_spec q 0); [contradiction |].
        rewrite Hrq. cbn. split; [discriminate | done]. }
    destruct rq as [ | | | | | g | | | | | | | | | | | | ];
      try (exists 1%nat; intros [|fuel] s Hle; [lia |]; cbn [printChildren];
           destruct (Z.eqb_spec q 0); [contradiction |];
           rewrite Hrq; cbn; split; [discriminate | done]).
    apply IH. exists f, g. auto. }
  destruct Hq as [n Hn]. exists (S n).
  intros [|fuel] s Hle; [lia |]. cbn [printChildren].
  destruct (p =? 0); [cbn; split; [discriminate | done] |].
  rewrite Hp. cbn [assertStackFrame].
  rewrite bool_decide_eq_true_2 by eauto. cbn [negb].
  apply (Hn fuel (println _ s)). lia.
Qed.

(** One amount of fuel serves every frame of a finite memory. *)
Lemma printChildren_bound (c : TreeClimber) :
  acyclicFrames c ->
  exists n, forall childPtr fuel s, (n <= fuel)%nat ->
    (printChildren fuel c childPtr s).2 <> Diverge /\
    seen (printChildren fuel c childPtr s).1 = seen s.
Proof.
  intros Hacyc.
  assert (Hset : forall X : gset Z,
            exists n, forall childPtr fuel s,
              childPtr ∈ X -> (n <= fuel)%nat ->
              (printChildren fuel c childPtr s).2 <> Diverge /\
              seen (printChildren fuel c childPtr s).1 = seen s).
  { intros X. induction X as [|x X Hx [n Hn]] using set_ind_L.
    - exists 0%nat. intros p fuel s Hin. set_solver.
    - destruct (printChildren_from c x (acyclicFrames_sn c x Hacyc))
        as [m Hm].
      exists (n `max` m)%nat. intros p fuel s Hin Hle.
      apply elem_of_union in Hin as [->%elem_of_singleton | Hin].
      + apply Hm. lia.
      + apply Hn; [exact Hin | lia]. }
  destruct (Hset (dom (memory c))) as [n Hn].
  exists (S n). intros p fuel s Hle.
  destruct (decide (p ∈ dom (memory c))) as [Hin | Hout];
    [apply Hn; [exact Hin | lia] |].
  apply not_elem_of_dom in Hout.
  destruct fuel as [|fuel]; [lia |]. cbn [printChildren].
  destruct (p =? 0); [cbn; split; [discriminate | done] |].
  rewrite Hout. cbn. split; [discriminate | done].
Qed.

Section ReachAnchors.
Context (c : TreeClimber) (U : gset Z) (M : nat).
Hypothesis Hclosed :
  forall a os owner b,
    owners c !! a = Some os -> owner ∈ os -> GetAddress owner = Some b ->
    b ∈ U.
Hypothesis Hchildren :
  forall childPtr fuel s, (M <= fuel)%nat ->
    (printChildren fuel c childPtr s).2 <> Diverge /\
    seen (printChildren fuel c childPtr s).1 = seen s.

Lemma printAnchors_fuel (fuel : nat) (address : Z) (s : Trace) :
  address ∈ U ->
  (size (U ∖ seen s) + M < fuel)%nat ->
  (printAnchors fuel c address s).2 <> Diverge /\
  seen s ⊆ seen (printAnchors fuel c address s).1.
Proof.
  revert address s.
  induction fuel as [|fuel IH]; intros address s HU Hfuel; [lia |].
  cbn [printAnchors].
  case_bool_decide as Hseen; [cbn; split; [discriminate | done] |].
  assert (Hmark : (size (U ∖ seen (mark address s)) + M < fuel)%nat).
  { pose proof (size_unseen U (seen s) address HU Hseen). cbn. lia. }
  assert (Hsub : seen s ⊆ seen (mark address s)) by (cbn; set_solver).
  destruct (memory c !! address) as [r|];
    [| cbn; split; [discriminate | exact Hsub]].
  (* the type switch; only the StackFrame case runs a loop *)
  match goal with
  | |- context [let '(s0, sw) := ?sel in _] =>
      assert (Hsw : sel.2 <> Diverge /\ seen sel.1 = seen (mark address s));
      [| destruct sel as [s1 sw]; cbn [fst snd] in Hsw;
         destruct Hsw as [Hnd1 Hseen1]]
  end.
  { destruct r; try (cbn; split; [discriminate | done]).
    apply (Hchildren _ fuel (println _ (mark address s))). lia. }
  destruct sw as [[err|] | p |];
    [cbn; split; [discriminate | set_solver]
    | | cbn; split; [discriminate | set_solver] | congruence].
  destruct (owners c !! address) as [o|] eqn:Ho;
    [| cbn; split; [discriminate | set_solver]].
  match goal with
  | |- context [forAddressable ?body o s1] =>
      destruct (forAddressable_inv
                  (fun s' => seen (mark address s) ⊆ seen s') body o s1)
        as [Hnd Hinc]
  end.
  - by rewrite Hseen1.
  - intros owner a s' Hin Ha Hs'.
    destruct (IH a s') as [Hnd' Hinc'].
    + eapply Hclosed; eauto.
    + pose proof (size_unseen_mono U _ _ Hs'). lia.
    + destruct (printAnchors fuel c a s') as [s2 [e | p |]];
        cbn in Hnd', Hinc' |- *;
        (split; [discriminate || congruence | set_solver]).
  - destruct (forAddressable _ o s1) as [s2 [[] | p |]];
      cbn in Hnd, Hinc |- *;
      (split; [discriminate || congruence | set_solver]).
Qed.
End ReachAnchors.

Lemma PrintAnchors_more (fuel fuel' : nat) (c : TreeClimber) (address : Z) :
  (fuel <= fuel')%nat ->
  ended (PrintAnchors fuel c address) <> Diverge ->
  PrintAnchors fuel' c address = PrintAnchors fuel c address.
Proof.
  unfold PrintAnchors. intros Hle Hnd.
  match goal with
  | |- context [printAnchors fuel ?c1 address ?s] =>
      rewrite (printAnchors_more fuel fuel' c1 address s Hle);
      [reflexivity |];
      destruct (printAnchors fuel c1 address s) as [s1 r]; exact Hnd
  end.
Qed.

Lemma PrintAnchors_terminates (c : TreeClimber) (address : Z) :
  acyclicFrames c ->
  terminates (fun fuel => PrintAnchors fuel c address).
Proof.
  intros Hacyc.
  set (U := {[address]} ∪ ownerAddresses c : gset Z).
  set (c1 := set_visited (Some ∅) c).
  destruct (printChildren_bound c1 Hacyc) as [M HM].
  assert (Hnd : ended (PrintAnchors (S (size U + M)) c address) <> Diverge).
  { unfold PrintAnchors. fold c1.
    destruct (printAnchors_fuel c1 U M) with
      (fuel := S (size U + M)) (address := address)
      (s := mkTrace (default ∅ (visited c1)) []) as [Hnd _].
    - intros a os owner b Hos Hin Hb. apply elem_of_union_r.
      by apply (ownerAddresses_spec c a b os owner).
    - exact HM.
    - set_solver.
    - cbn.
      assert (size (U ∖ ∅) <= size U)%nat
        by (apply subseteq_size; set_solver).
      lia.
    - destruct (printAnchors (S (size U + M)) c1 address _) as [s r].
      exact Hnd. }
  exists (S (size U + M)). split; [exact Hnd |].
  intros fuel' Hle. by apply PrintAnchors_more.
Qed.

(** A frame that is its own child keeps the walk going whatever the
    fuel. *)
Lemma printChildren_self (c : TreeClimber) (p : Z) (f : StackFrame.t) :
  p <> 0 -> memory c !! p = Some (StackFrame f) ->
  StackFrame.ChildPointer f = p ->
  forall fuel s, (printChildren fuel c p s).2 = Diverge.
Proof.
  intros Hp Hf Hchild fuel.
  induction fuel as [|fuel IH]; intros s; cbn [printChildren];
    destruct (Z.eqb_spec p 0); try contradiction; [reflexivity |].
  rewrite Hf. cbn [assertStackFrame].
  rewrite bool_decide_eq_true_2 by eauto. cbn [negb].
  rewrite Hchild. apply IH.
Qed.

Lemma printAnchors_self (c : TreeClimber) (p : Z) (f : StackFrame.t) :
  p <> 0 -> memory c !! p = Some (StackFrame f) ->
  StackFrame.ChildPointer f = p ->
  forall fuel s, p ∉ seen s -> (printAnchors fuel c p s).2 = Diverge.
Proof.
  intros Hp Hf Hchild [|fuel] s Hs; [reflexivity |].
  cbn [printAnchors]. rewrite bool_decide_eq_false_2 by exact Hs.
  rewrite Hf, Hchild.
  pose proof (printChildren_self c p f Hp Hf Hchild fuel
                (println (StackFrame.String f) (mark p s))) as Hdiv.
  destruct (printChildren fuel c p _) as [s1 r]. cbn in Hdiv. subst r.
  reflexivity.
Qed.

(** C6, counterexample: on the dump whose one StackFrame has its own
    address as ChildPointer, [PrintAnchors] at that address never
    returns. *)
Lemma PrintAnchors_diverges :
  NewTreeClimber dumpSelfFrame = Ret (builtFrom dumpSelfFrame, None) /\
  ~ terminates (fun fuel => PrintAnchors fuel (builtFrom dumpSelfFrame) 16).
Proof.
  split; [reflexivity |].
  intros (fuel & Hnd & _). apply Hnd.
  unfold PrintAnchors.
  match goal with
  | |- context [printAnchors fuel ?c 16 ?s] =>
      pose proof (printAnchors_self c 16 frameSelf ltac:(lia) eq_refl
                    eq_refl fuel s ltac:(apply not_elem_of_empty)) as Hdiv;
      destruct (printAnchors fuel c 16 s) as [s1 r]
  end.
  cbn in Hdiv. subst r. reflexivity.
Qed.

(** C6, as amended: [PrintOwners(a, d)] terminates for every analyzer,
    start address and depth, negative depths and owner cycles included;
    [PrintAnchors(a)] terminates for every analyzer and start address,
    owner cycles included, provided no chain of StackFrame ChildPointers
    comes back to a frame it has left. *)
Theorem queries_terminate (c : TreeClimber) (address : Z) :
  (forall depth, terminates (fun fuel => PrintOwners fuel c address depth)) /\
  (acyclicFrames c -> terminates (fun fuel => PrintAnchors fuel c address)).
Proof.
  split.
  - intros depth. apply PrintOwners_terminates.
  - apply PrintAnchors_terminates.
Qed.

Lemma rank_acyclic (c : TreeClimber) (rank : Z -> nat) :
  (forall a b, frameLink c a b -> (rank b < rank a)%nat) ->
  acyclicFrames c.
Proof.
  intros Hrank a Hloop.
  assert (Hlt : forall x y, tc (frameLink c) x y -> (rank y < rank x)%nat).
  { induction 1 as [x y Hxy | x y z Hxy _ IH]; [by apply Hrank |].
    apply Hrank in Hxy. lia. }
  apply Hlt in Hloop. lia.
Qed.

Lemma climberFrames_acyclic : acyclicFrames climberFrames.
Proof.
  apply (rank_acyclic _ (fun a => if a =? 16 then 1%nat else 0%nat)).
  intros a b (f & g & Ha & Hb & Hnz & _). cbn in Ha.
  destruct (decide (a = 16)) as [-> | Ha16].
  - rewrite lookup_insert_eq in Ha. inversion Ha; subst f. cbn in Hb.
    subst b. cbn. lia.
  - rewrite lookup_insert_ne in Ha by done.
    destruct (decide (a = 32)) as [-> | Ha32].
    + rewrite lookup_insert_eq in Ha. inversion Ha; subst f. cbn in Hb.
      congruence.
    + rewrite lookup_insert_ne in Ha by done.
      destruct (decide (a = 64)) as [-> | Ha64].
      * rewrite lookup_singleton_eq in Ha. discriminate.
      * rewrite lookup_singleton_ne in Ha by done. discriminate.
Qed.

Lemma queries_terminate_witness :
  terminates (fun fuel => PrintOwners fuel climberFrames 64 (-1)) /\
  terminates (fun fuel => PrintAnchors fuel climberFrames 64).
Proof.
  destruct (queries_terminate climberFrames 64) as [Howners Hanchors].
  split; [apply Howners | apply Hanchors, climberFrames_acyclic].
Defined.

(** *** Child frames without a record *)

(** The walk reaches a ChildPointer that is the address of no record: the
    type assertion on the nil interface panics; the test of [found] that
    follows it is never reached. *)
Lemma printChildren_missing (c : TreeClimber) (childPtr : Z) (fuel : nat)
    (s : Trace) :
  childPtr <> 0 -> memory c !! childPtr = None ->
  printChildren (S fuel) c childPtr s = (s, Panic NilInterfaceConversion).
Proof.
  intros Hnz Hnone. cbn [printChildren].
  destruct (Z.eqb_spec childPtr 0); [contradiction |].
  rewrite Hnone. reflexivity.
Qed.

Lemma fullStackLoop_missing (c : TreeClimber) (framePtr : Z) (fuel : nat)
    (out : list string) :
  framePtr <> 0 -> memory c !! framePtr = None ->
  fullStackLoop (S fuel) c framePtr out = Panic NilInterfaceConversion.
Proof.
  intros Hnz Hnone. cbn [fullStackLoop].
  destruct (Z.eqb_spec framePtr 0); [contradiction |].
  rewrite Hnone. reflexivity.
Qed.

(** C3, the code at the failing input: the dump's one StackFrame, at 16,
    has the ChildPointer 32, and no record has the address 32.
    [PrintAnchors(16)] prints the frame and then panics in the walk down
    the ChildPointer chain; no error is returned.  [fullStack], which
    walks the chain the same way, panics too. *)
Theorem PrintAnchors_missing_child_panics :
  let c := builtFrom dumpDanglingFrame in
  NewTreeClimber dumpDanglingFrame = Ret (c, None) /\
  memory c !! 16 = Some (StackFrame frameDangling) /\
  memory c !! 32 = None /\
  forall fuel,
    printed (PrintAnchors (S (S fuel)) c 16)
    = ["StackFrame[0] @ 0x10: main.main with 0 pointers in 0 bytes; child = 0x20"%string] /\
    ended (PrintAnchors (S (S fuel)) c 16) = Panic NilInterfaceConversion /\
    fullStack (S (S fuel)) c 16 ", " = Panic NilInterfaceConversion.
Proof.
  repeat split; reflexivity.
Qed.

(** *** Errors of recursive calls *)

(** C7, the code at the failing input: Objects X and Y point to each
    other.  In [PrintAnchors(0xA000)] the call for X's owner Y recurses
    into Y's owner X, and that call returns the Loop error; its caller
    drops the value, so the query prints nothing and returns nil. *)
Theorem PrintAnchors_drops_loop_error :
  let c := builtFrom dumpCycle in
  NewTreeClimber dumpCycle = Ret (c, None) /\
  (forall fuel,
     (printAnchors (S fuel) c 0xA000
        (mark 0xB000 (mark 0xA000 (mkTrace ∅ [])))).2
     = Ret (Some "Loop: already visited address 0xa000"%string)) /\
  forall fuel,
    printed (PrintAnchors (S (S (S fuel))) c 0xA000) = [] /\
    ended (PrintAnchors (S (S (S fuel))) c 0xA000) = Ret None.
Proof.
  repeat split; reflexivity.
Qed.

(** The sibling, on an analyzer with an owner that [memory] lacks:
    [printOwners] prints the error of the recursive call under the line of
    the record and goes on to the next owner, where [printAnchors] prints
    nothing about it. *)
Lemma printOwners_prints_branch_error :
  forall fuel,
    printed (PrintOwners (S (S fuel)) climberMissingOwner 16 (-1))
    = ["Object @ 0x10 with 0 pointers in 0 bytes";
       "  Cound not find record for address 0x20";
       "  Object @ 0x40 with 0 pointers in 0 bytes"]%string /\
    ended (PrintOwners (S (S fuel)) climberMissingOwner 16 (-1)) = Ret None /\
    printed (PrintAnchors (S (S fuel)) climberMissingOwner 16) = [] /\
    ended (PrintAnchors (S (S fuel)) climberMissingOwner 16) = Ret None.
Proof.
  intros fuel. repeat split; reflexivity.
Qed.

(** *** The scenarios of the specification *)

Example scenario_header_only :
  NewTreeClimber dumpEmpty = Ret (builtFrom dumpEmpty, None) /\
  memory (builtFrom dumpEmpty) = ∅ /\ owners (builtFrom dumpEmpty) = ∅.
Proof. repeat split; reflexivity. Qed.

Example scenario_chain :
  NewTreeClimber dumpChain = Ret (builtFrom dumpChain, None) /\
  owners (builtFrom dumpChain) !! 0x3000 = Some [Object objectA] /\
  printed (PrintOwners 3 (builtFrom dumpChain) 0x3000 1)
  = ["Object @ 0x3000 with 0 pointers in 0 bytes";
     "  Object @ 0x2000 with 1 pointers in 8 bytes"]%string /\
  PrintAnchors 3 (builtFrom dumpChain) 0x3000
  = mkAnswer (builtFrom dumpChain) [] (Ret None).
Proof. repeat split; reflexivity. Qed.

Example scenario_anchor :
  NewTreeClimber dumpAnchored = Ret (builtFrom dumpAnchored, None) /\
  printed (PrintAnchors 4 (builtFrom dumpAnchored) 0x8000)
  = ["BssSegment @ 0x6000-0x6008 with 1 pointers"%string] /\
  ended (PrintAnchors 4 (builtFrom dumpAnchored) 0x8000) = Ret None.
Proof. repeat split; reflexivity. Qed.

Example scenario_cycle :
  NewTreeClimber dumpCycle = Ret (builtFrom dumpCycle, None) /\
  printed (PrintOwners 3 (builtFrom dumpCycle) 0xA000 (-1))
  = ["Object @ 0xa000 with 1 pointers in 8 bytes";
     "  Object @ 0xb000 with 1 pointers in 8 bytes"]%string /\
  ended (PrintOwners 3 (builtFrom dumpCycle) 0xA000 (-1)) = Ret None.
Proof. repeat split; reflexivity. Qed.

(** ** Queries do not see earlier queries *)

Lemma PrintOwners_after (fuel : nat) (c : TreeClimber) (address depth : Z) :
  after (PrintOwners fuel c address depth) = set_visited None c.
Proof.
  unfold PrintOwners.
  destruct (printOwners fuel _ address _ [] _) as [s r]. reflexivity.
Qed.

Lemma PrintAnchors_after (fuel : nat) (c : TreeClimber) (address : Z) :
  after (PrintAnchors fuel c address) = set_visited None c.
Proof.
  unfold PrintAnchors.
  destruct (printAnchors fuel _ address _) as [s r]. reflexivity.
Qed.

Lemma PrintOwners_ignores_visited (fuel : nat) (c : TreeClimber)
    (v : option (gset Z)) (address depth : Z) :
  PrintOwners fuel (set_visited v c) address depth
  = PrintOwners fuel c address depth.
Proof. reflexivity. Qed.

Lemma PrintAnchors_ignores_visited (fuel : nat) (c : TreeClimber)
    (v : option (gset Z)) (address : Z) :
  PrintAnchors fuel (set_visited v c) address = PrintAnchors fuel c address.
Proof. reflexivity. Qed.

Lemma ask_after (hexDump : list byte -> string) (fuel : nat)
    (c : TreeClimber) (q : Query) :
  (ask hexDump fuel c q).1 = c \/
  (ask hexDump fuel c q).1 = set_visited None c.
Proof.
  destruct q as [address depth | address | address]; cbn.
  - right. apply PrintOwners_after.
  - right. apply PrintAnchors_after.
  - left. destruct (Hexdump hexDump c address). reflexivity.
Qed.

(** C9: a query's answer does not depend on the queries made before it on
    the same analyzer.  Whatever query [q1] ran first, [q2] afterwards
    prints and returns what it does on the analyzer as built; so the same
    query asked twice answers the same twice.  A traversal leaves
    [visited] nil again, however it ends, and no query changes an
    index. *)
Theorem queries_state_free (hexDump : list byte -> string)
    (fuel1 fuel2 : nat) (c : TreeClimber) (q1 q2 : Query) :
  let c' := (ask hexDump fuel1 c q1).1 in
  (ask hexDump fuel2 c' q2).2 = (ask hexDump fuel2 c q2).2 /\
  (ask hexDump fuel1 c' q1).2 = (ask hexDump fuel1 c q1).2 /\
  params c' = params c /\ memory c' = memory c /\ owners c' = owners c /\
  finalizers c' = finalizers c /\
  visited c' = match q1 with
               | AskOwners _ _ | AskAnchors _ => None
               | AskHexdump _ => visited c
               end.
Proof.
  intros c'.
  assert (Hsame : forall fuel q,
            (ask hexDump fuel c' q).2 = (ask hexDump fuel c q).2).
  { intros fuel q. subst c'.
    destruct (ask_after hexDump fuel1 c q1) as [-> | ->]; [reflexivity |].
    destruct q as [address depth | address | address]; cbn.
    - by rewrite PrintOwners_ignores_visited.
    - by rewrite PrintAnchors_ignores_visited.
    - change (Hexdump hexDump (set_visited None c) address)
        with (Hexdump hexDump c address).
      by destruct (Hexdump hexDump c address). }
  split; [apply Hsame |]. split; [apply Hsame |].
  subst c'.
  destruct q1 as [address depth | address | address]; cbn;
    rewrite ?PrintOwners_after, ?PrintAnchors_after;
    try (destruct (Hexdump hexDump c address));
    repeat split; reflexivity.
Qed.

(** ** Decoding an Object: the class name *)

Lemma readUvarintFrom_rest (todo i : nat) (x s : Z) (reader : list byte) :
  let '(_, err, rest) := readUvarintFrom todo i x s reader in
  (length rest <= length reader)%nat /\
  (err = None -> (length rest < length reader)%nat).
Proof.
  revert i x s reader. induction todo as [|todo IH]; intros i x s reader.
  - cbn. split; [lia | discriminate].
  - cbn [readUvarintFrom]. destruct reader as [|b reader].
    + cbn. split; [lia | discriminate].
    + destruct (byte_val b <? 128).
      * destruct ((i =? MaxVarintLen64 - 1)%nat && (1 <? byte_val b));
          cbn; split; lia || discriminate.
      * specialize (IH (S i) (Z.lor x (wrap64 (shl (Z.land (byte_val b) 127) s)))
                      (s + 7) reader).
        destruct (readUvarintFrom todo _ _ _ reader) as [[v e] rest].
        destruct IH as [Hle Hlt]. cbn. split; [lia |].
        intros He. specialize (Hlt He). lia.
Qed.

(** The loop over a field list stops before its fuel does. *)
Lemma readFields_total (fuel : nat) (Fields : list Z) (reader : list byte) :
  (length reader < fuel)%nat -> readFields fuel Fields reader <> None.
Proof.
  revert Fields reader. induction fuel as [|fuel IH]; intros Fields reader Hlt;
    [lia |].
  cbn [readFields]. unfold ReadUvarint.
  pose proof (readUvarintFrom_rest MaxVarintLen64 0 0 0 reader) as H1.
  destruct (readUvarintFrom MaxVarintLen64 0 0 0 reader) as [[kind e] r1].
  destruct H1 as [Hle1 Hlt1].
  destruct e as [e|]; [discriminate |]. specialize (Hlt1 eq_refl).
  destruct (kind =? 0); [discriminate |].
  pose proof (readUvarintFrom_rest MaxVarintLen64 0 0 0 r1) as H2.
  destruct (readUvarintFrom MaxVarintLen64 0 0 0 r1) as [[value e2] r2].
  destruct H2 as [Hle2 _]. apply IH. lia.
Qed.

Lemma Object_Read_returns (g : Registry) (reader : list byte) :
  Object_Read g reader <> Diverge.
Proof.
  unfold Object_Read.
  destruct (ReadUvarint reader) as [[Address e1] r1].
  destruct e1; [discriminate |].
  destruct (ReadUvarint r1) as [[ContentsLen e2] r2].
  destruct e2; [discriminate |].
  destruct (ReadFull ContentsLen r2) as [[Contents e3] r3].
  destruct e3; [discriminate |].
  pose proof (readFields_total (S (length r3)) [] r3 ltac:(lia)) as Htot.
  destruct (readFields (S (length r3)) [] r3) as [[[Fields e4] r4]|];
    [| congruence].
  destruct e4; [discriminate |].
  destruct (Z.ltb_spec 8 (len Contents)) as [Hlen | Hlen]; [| discriminate].
  unfold len in Hlen.
  destruct Contents as [|b0 [|b1 [|b2 [|b3 [|b4 [|b5 [|b6 [|b7 rest]]]]]]]];
    cbn in Hlen; try lia.
  cbn. destruct (oidMap g !! _); discriminate.
Qed.

(** What [Read] does about the class name, for every Object that decodes:
    the OID is looked up only when the contents are longer than 8 bytes. *)
Lemma Object_Read_name (g g' : Registry) (reader rest : list byte)
    (r : Object.t) :
  Object_Read g reader = Ret (r, None, g', rest) ->
  if 8 <? len (Object.Contents r) then
    match oidMap g !! le_value (take 8 (Object.Contents r)) with
    | Some className =>
        Object.Name r = className /\
        g' = AddName (Object.Address r) className g
    | None => Object.Name r = ""%string /\ g' = g
    end
  else Object.Name r = ""%string /\ g' = g.
Proof.
  unfold Object_Read.
  destruct (ReadUvarint reader) as [[Address e1] r1].
  destruct e1; [intros H; inversion H |].
  destruct (ReadUvarint r1) as [[ContentsLen e2] r2].
  destruct e2; [intros H; inversion H |].
  destruct (ReadFull ContentsLen r2) as [[Contents e3] r3].
  destruct e3; [intros H; inversion H |].
  destruct (readFields (S (length r3)) [] r3) as [[[Fields e4] r4]|];
    [| discriminate].
  destruct e4; [intros H; inversion H |].
  destruct (Z.ltb_spec 8 (len Contents)) as [Hlen | Hlen].
  - unfold len in Hlen.
    destruct Contents as [|b0 [|b1 [|b2 [|b3 [|b4 [|b5 [|b6 [|b7 more]]]]]]]];
      cbn in Hlen; try lia.
    rewrite (Uint64_decode false). cbn [mbind result_bind decode_uint].
    destruct (oidMap g !! _) as [className|] eqn:Hoid;
      intros H; inversion H; subst; cbn [Object.Contents Object.Name
                                           Object.Address];
      (destruct (Z.ltb_spec 8 (len (b0 :: b1 :: b2 :: b3 :: b4 :: b5 :: b6
                                      :: b7 :: more)));
       [| unfold len in *; cbn in *; lia]);
      cbn [firstn take]; change (take 0 more) with (@nil byte);
      rewrite Hoid; auto.
  - intros H; inversion H; subst. cbn [Object.Contents Object.Name].
    destruct (Z.ltb_spec 8 (len Contents)); [lia | auto].
Qed.

(** C2, the code at the failing input: the OID 1 is registered with the
    class name Foo, and the Object at 16 has as contents exactly the 8
    bytes of that OID, least significant first.  [Read] leaves the name
    empty and the symbol table untouched, while the same Object with a
    ninth byte of contents gets the name and the symbol. *)
Theorem Object_Read_eight_byte_oid :
  oidMap registryFoo !! 1 = Some "Foo"%string /\
  Uint64 LittleEndian [x01; x00; x00; x00; x00; x00; x00; x00] = Ret 1 /\
  Object_Read registryFoo objectBytes8
  = Ret (Object.mk 16 [x01; x00; x00; x00; x00; x00; x00; x00] [] "",
         None, registryFoo, []) /\
  Object_Read registryFoo objectBytes9
  = Ret (Object.mk 16 [x01; x00; x00; x00; x00; x00; x00; x00; x00] [] "Foo",
         None, AddName 16 "Foo" registryFoo, []).
Proof.
  repeat split; reflexivity.
Qed.

(** ** Loading the OID file *)

Lemma readOidsLoop_lines (lines : list (Z * string)) (tail : list Scanned)
    (oid : Z) (name : string) (g : Registry) :
  exists oid' name',
    readOidsLoop (((fun l => scanLine l.1 l.2) <$> lines) ++ tail) oid name g
    = readOidsLoop tail oid' name' (foldl keepOid g lines).
Proof.
  revert oid name g. induction lines as [|[o n] lines IH]; intros oid name g.
  - cbn. eauto.
  - cbn [fmap list_fmap app readOidsLoop scanLine scan_oid scan_name
           scan_err scan_n default foldl fst snd].
    destruct (IH o n (keepOid g (o, n))) as (oid' & name' & Heq).
    exists oid', name'. rewrite <- Heq. unfold keepOid, AddOid. cbn.
    destruct ((0 <? o) && (0 <? strlen n)); reflexivity.
Qed.

(** C4, counterexample: a blank line, on which [Fscanln] reports
    "unexpected newline", in front of a well-formed entry: [ReadOids]
    returns that error and the entry is not retained. *)
Lemma ReadOids_blank_line_fails :
  ReadOids [scanBad "unexpected newline"; scanLine 5 "Foo"] initRegistry
  = (initRegistry, Some "unexpected newline"%string).
Proof. reflexivity. Qed.

(** C4, as amended: [ReadOids] reads lines up to the first one that
    [Fscanln] does not scan.  Of the lines [<oid> <name>] read until then
    it retains in the OID map those with an oid above 0 and a name that is
    not empty, a later line replacing an earlier one with the same oid.
    When the scan stops at the end of the input it returns nil; when it
    stops at a blank or malformed line it returns the error of [Fscanln]
    and reads no further. *)
Theorem ReadOids_spec (lines : list (Z * string)) (tail : list Scanned)
    (g : Registry) :
  (tail = [] \/ exists sc tail', tail = sc :: tail' /\ is_Some (scan_err sc)) ->
  ReadOids (((fun l => scanLine l.1 l.2) <$> lines) ++ tail) g
  = (foldl keepOid g lines,
     match tail with
     | [] => None
     | sc :: _ =>
         match scan_err sc with
         | Some (scanFailed msg) => Some msg
         | _ => None
         end
     end).
Proof.
  intros Htail. unfold ReadOids.
  destruct (readOidsLoop_lines lines tail 0 "" g) as (oid & name & ->).
  destruct Htail as [-> | (sc & tail' & -> & [e He])]; [reflexivity |].
  cbn [readOidsLoop]. rewrite He. destruct e; reflexivity.
Qed.

Lemma ReadOids_spec_witness :
  ReadOids [scanLine 7 "Bar"; scanLine 0 "Zero"; scanLine 7 "Baz";
            scanBad "expected integer"; scanLine 9 "Lost"] initRegistry
  = (AddOid 7 "Baz" (AddOid 7 "Bar" initRegistry),
     Some "expected integer"%string).
Proof.
  apply (ReadOids_spec [(7, "Bar"%string); (0, "Zero"%string);
                        (7, "Baz"%string)]
           [scanBad "expected integer"; scanLine 9 "Lost"] initRegistry).
  right. eexists _, _. split; [reflexivity |]. eexists. reflexivity.
Defined.

(** ** The indices after a build *)

(** *** The last write to a key wins *)

Section LastWrite.
Context {X V : Type} (kv : X -> option (Z * V)).

Lemma writeAll_cons (m : gmap Z V) (x : X) (l : list X) :
  writeAll kv m (x :: l)
  = writeAll kv (match kv x with
                 | Some (k, v) => <[k := v]> m
                 | None => m
                 end) l.
Proof. reflexivity. Qed.

Lemma writeAll_lookup (l : list X) (m : gmap Z V) (k : Z) (v : V) :
  writeAll kv m l !! k = Some v <->
  (exists l1 x l2,
     l = l1 ++ x :: l2 /\ kv x = Some (k, v) /\
     forall y v', y ∈ l2 -> kv y <> Some (k, v')) \/
  ((forall y v', y ∈ l -> kv y <> Some (k, v')) /\ m !! k = Some v).
Proof.
  revert m. induction l as [|x l IH]; intros m.
  - cbn. split.
    + intros H. right. split; [| exact H].
      intros y v' Hy. by apply elem_of_nil in Hy.
    + intros [(l1 & x & l2 & Hl & _) | [_ H]]; [| exact H].
      by destruct l1.
  - rewrite writeAll_cons, IH. clear IH. split.
    + intros [(l1 & y & l2 & -> & Hy & Hl2) | [Hnone Hm]].
      * left. exists (x :: l1), y, l2. auto.
      * destruct (kv x) as [[k0 v0]|] eqn:Hx.
        -- destruct (decide (k0 = k)) as [-> | Hne].
           ++ rewrite lookup_insert_eq in Hm. inversion Hm; subst v0.
              left. exists [], x, l. auto.
           ++ rewrite lookup_insert_ne in Hm by done.
              right. split; [| exact Hm].
              intros y v' [-> | Hy]%elem_of_cons; [congruence | eauto].
        -- right. split; [| exact Hm].
           intros y v' [-> | Hy]%elem_of_cons; [congruence | eauto].
    + intros [(l1 & y & l2 & Hl & Hy & Hl2) | [Hnone Hm]].
      * destruct l1 as [|x' l1]; cbn in Hl; inversion Hl; subst.
        -- right. split; [exact Hl2 |]. rewrite Hy.
           apply lookup_insert_eq.
        -- left. exists l1, y, l2. auto.
      * right. split.
        -- intros y v' Hy. apply Hnone. by right.
        -- destruct (kv x) as [[k0 v0]|] eqn:Hx; [| exact Hm].
           rewrite lookup_insert_ne; [exact Hm |].
           intros ->. eapply Hnone; [left | exact Hx].
Qed.
End LastWrite.

Lemma buildRecord_finalizers (c c' : TreeClimber) (x : Record) :
  buildRecord c x = Ret c' ->
  finalizers c' =
    match finalizedObject x with
    | Some a => <[a := x]> (finalizers c)
    | None => finalizers c
    end.
Proof.
  unfold buildRecord. intros H.
  destruct x; cbn in H |- *;
    try (inversion H; subst; reflexivity);
    match type of H with
    | context [GetPointers ?o ?p] =>
        destruct (GetPointers o p) as [ts | |]; cbn in H; inversion H
    end;
    by rewrite (proj2 (proj2 (proj2 (addOwners_fields _ _ _)))).
Qed.

Lemma buildRecords_memory (records : list Record) (c c' : TreeClimber) :
  buildRecords c records = Ret c' ->
  memory c'
  = writeAll (fun r => (fun a => (a, r)) <$> GetAddress r) (memory c) records.
Proof.
  revert c. induction records as [|x records IH]; intros c H.
  - inversion H. reflexivity.
  - apply bind_Ret_inv in H as (c1 & Hb & H).
    rewrite (IH _ H), writeAll_cons, (buildRecord_memory _ _ _ Hb).
    by destruct (GetAddress x).
Qed.

Lemma buildRecords_finalizers (records : list Record) (c c' : TreeClimber) :
  buildRecords c records = Ret c' ->
  finalizers c'
  = writeAll (fun r => (fun a => (a, r)) <$> finalizedObject r)
      (finalizers c) records.
Proof.
  revert c. induction records as [|x records IH]; intros c H.
  - inversion H. reflexivity.
  - apply bind_Ret_inv in H as (c1 & Hb & H).
    rewrite (IH _ H), writeAll_cons, (buildRecord_finalizers _ _ _ Hb).
    by destruct (finalizedObject x).
Qed.

(** A successful build has taken every record in front of the first
    [Eof] through the loop. *)
Lemma build_records (reader : Reader) (c : TreeClimber)
    (pre rest : list Record) :
  NewTreeClimber reader = Ret (c, None) ->
  Records reader = pre ++ Eof :: rest -> Eof ∉ pre ->
  buildRecords zeroTreeClimber pre = Ret c.
Proof.
  intros Hbuild Hrec Hpre.
  unfold NewTreeClimber, build in Hbuild.
  destruct (ReadHeader reader); [discriminate |].
  rewrite Hrec, readloop_prefix in Hbuild by exact Hpre.
  change (set_finalizers ∅ (set_owners ∅ (set_memory ∅ zeroTreeClimber)))
    with zeroTreeClimber in Hbuild.
  apply bind_Ret_inv in Hbuild as (c1 & H1 & Hend).
  cbn in Hend. by inversion Hend; subst.
Qed.

Lemma keyed_lookup (key : Record -> option Z) (l : list Record) (a : Z)
    (r : Record) :
  writeAll (fun r => (fun a => (a, r)) <$> key r) ∅ l !! a = Some r <->
  exists l1 l2,
    l = l1 ++ r :: l2 /\ key r = Some a /\
    forall y, y ∈ l2 -> key y <> Some a.
Proof.
  rewrite writeAll_lookup. split.
  - intros [(l1 & x & l2 & -> & Hx & Hl2) | [_ H]];
      [| by rewrite lookup_empty in H].
    destruct (key x) as [b|] eqn:Hb; cbn in Hx; inversion Hx; subst.
    exists l1, l2. split; [reflexivity |]. split; [exact Hb |].
    intros y Hy Hkey. apply (Hl2 y y Hy). by rewrite Hkey.
  - intros (l1 & l2 & -> & Hr & Hl2). left.
    exists l1, r, l2. split; [reflexivity |]. split; [by rewrite Hr |].
    intros y v' Hy Hkey. apply (Hl2 y Hy).
    destruct (key y); cbn in Hkey; congruence.
Qed.

(** X1: after a successful build, [memory[a]] is the last record with the
    address [a] among the Addressable records in front of [Eof] (a later
    record replaces an earlier one with the same address), and [memory]
    has no entry for an address that none of them has. *)
Theorem memory_index (reader : Reader) (c : TreeClimber)
    (pre rest : list Record) (a : Z) (r : Record) :
  NewTreeClimber reader = Ret (c, None) ->
  Records reader = pre ++ Eof :: rest -> Eof ∉ pre ->
  memory c !! a = Some r <->
  exists l1 l2,
    pre = l1 ++ r :: l2 /\ GetAddress r = Some a /\
    forall y, y ∈ l2 -> GetAddress y <> Some a.
Proof.
  intros Hbuild Hrec Hpre.
  rewrite (buildRecords_memory _ _ _ (build_records _ _ _ _ Hbuild Hrec Hpre)).
  apply keyed_lookup.
Qed.

Lemma memory_index_witness :
  memory (builtFrom dumpChain) !! 0x3000 = Some (Object objectB) <->
  exists l1 l2,
    [DumpParams paramsLE8; Object objectA; Object objectB]
    = l1 ++ Object objectB :: l2 /\
    GetAddress (Object objectB) = Some 0x3000 /\
    forall y, y ∈ l2 -> GetAddress y <> Some 0x3000.
Proof.
  apply (memory_index dumpChain (builtFrom dumpChain)
           [DumpParams paramsLE8; Object objectA; Object objectB] []).
  - reflexivity.
  - reflexivity.
  - intros H. repeat (apply elem_of_cons in H as [H | H]; [discriminate |]).
    by apply elem_of_nil in H.
Defined.

(** X2: after a successful build, [finalizers[a]] is the last finalizer
    record, registered or queued, whose ObjectAddress is [a]; there is no
    entry for an object that no finalizer record names. *)
Theorem finalizers_index (reader : Reader) (c : TreeClimber)
    (pre rest : list Record) (a : Z) (r : Record) :
  NewTreeClimber reader = Ret (c, None) ->
  Records reader = pre ++ Eof :: rest -> Eof ∉ pre ->
  finalizers c !! a = Some r <->
  exists l1 l2,
    pre = l1 ++ r :: l2 /\ finalizedObject r = Some a /\
    forall y, y ∈ l2 -> finalizedObject y <> Some a.
Proof.
  intros Hbuild Hrec Hpre.
  rewrite (buildRecords_finalizers _ _ _
             (build_records _ _ _ _ Hbuild Hrec Hpre)).
  apply keyed_lookup.
Qed.

Lemma finalizers_index_witness :
  finalizers (builtFrom dumpFinalizers) !! 0x3000
  = Some (QueuedFinalizer finalizerQueued) <->
  exists l1 l2,
    [DumpParams paramsLE8; Object objectB;
     RegisteredFinalizer finalizerRegistered;
     QueuedFinalizer finalizerQueued]
    = l1 ++ QueuedFinalizer finalizerQueued :: l2 /\
    finalizedObject (QueuedFinalizer finalizerQueued) = Some 0x3000 /\
    forall y, y ∈ l2 -> finalizedObject y <> Some 0x3000.
Proof.
  apply (finalizers_index dumpFinalizers (builtFrom dumpFinalizers)
           [DumpParams paramsLE8; Object objectB;
            RegisteredFinalizer finalizerRegistered;
            QueuedFinalizer finalizerQueued] []).
  - reflexivity.
  - reflexivity.
  - intros H. repeat (apply elem_of_cons in H as [H | H]; [discriminate |]).
    by apply elem_of_nil in H.
Defined.

(** *** The reverse-ownership index, entry by entry *)

Lemma pointingAt_app (t : Z) (es es' : list (Z * Record)) :
  pointingAt t (es ++ es') = pointingAt t es ++ pointingAt t es'.
Proof. unfold pointingAt. by rewrite filter_app, fmap_app. Qed.

Lemma entryFor_app_one {A : Type} (l : list A) (x : A) :
  entryFor (l ++ [x]) = Some (default [] (entryFor l) ++ [x]).
Proof. destruct l; reflexivity. Qed.

Lemma addOwner_entries (c : TreeClimber) (es : list (Z * Record)) (u : Z)
    (r : Record) :
  (forall t, owners c !! t = entryFor (pointingAt t es)) ->
  forall t, owners (addOwner c u r) !! t
            = entryFor (pointingAt t (es ++ [(u, r)])).
Proof.
  intros Hinv t. rewrite pointingAt_app.
  destruct (decide (u = t)) as [-> | Hne].
  - rewrite addOwner_same, Hinv.
    replace (pointingAt t [(t, r)]) with [r].
    + by rewrite entryFor_app_one.
    + unfold pointingAt. cbn. by rewrite decide_True.
  - rewrite addOwner_other, Hinv by done.
    replace (pointingAt t [(u, r)]) with (@nil Record).
    + by rewrite app_nil_r.
    + unfold pointingAt. cbn. by rewrite decide_False.
Qed.

Lemma addOwners_entries (pointers : list Z) (c : TreeClimber)
    (es : list (Z * Record)) (r : Record) :
  (forall t, owners c !! t = entryFor (pointingAt t es)) ->
  forall t, owners (addOwners c pointers r) !! t
            = entryFor (pointingAt t
                (es ++ ((fun u => (u, r)) <$> filter (fun u => u <> 0) pointers))).
Proof.
  revert c es. induction pointers as [|u pointers IH]; intros c es Hinv t.
  - cbn. by rewrite app_nil_r.
  - cbn [addOwners]. destruct (Z.eqb_spec u 0) as [-> | Hnz].
    + rewrite filter_cons_False by (intros H; by apply H).
      by apply IH.
    + rewrite filter_cons_True by done. cbn [fmap list_fmap].
      rewrite (IH _ (es ++ [(u, r)])).
      * by rewrite <- app_assoc.
      * by apply addOwner_entries.
Qed.

Lemma buildRecord_cases (c c' : TreeClimber) (x : Record) :
  buildRecord c x = Ret c' ->
  match asOwner x with
  | Some o =>
      exists c0 ts,
        owners c0 = owners c /\ GetPointers o (params c) = Ret ts /\
        c' = addOwners c0 ts x
  | None => owners c' = owners c
  end.
Proof.
  unfold buildRecord. intros H.
  destruct x; cbn in H |- *;
    try (inversion H; subst; reflexivity);
    apply bind_Ret_inv in H as (ts & Hts & H); inversion H; subst c';
    eexists _, ts; (split; [| split; [exact Hts | reflexivity]]);
    reflexivity.
Qed.

Lemma buildRecord_entries (c c' : TreeClimber) (es : list (Z * Record))
    (x : Record) :
  buildRecord c x = Ret c' ->
  (forall t, owners c !! t = entryFor (pointingAt t es)) ->
  forall t, owners c' !! t
            = entryFor (pointingAt t
                (es ++ ((fun u => (u, x)) <$> targetsOf (params c) x))).
Proof.
  intros Hb Hinv t. apply buildRecord_cases in Hb. unfold targetsOf.
  destruct (asOwner x) as [o|].
  - destruct Hb as (c0 & ts & Heq & -> & ->).
    apply addOwners_entries. intros u. rewrite Heq. apply Hinv.
  - rewrite app_nil_r, Hb. apply Hinv.
Qed.

Lemma buildRecords_entries (records : list Record) (c c' : TreeClimber)
    (es : list (Z * Record)) :
  buildRecords c records = Ret c' ->
  (forall t, owners c !! t = entryFor (pointingAt t es)) ->
  forall t, owners c' !! t
            = entryFor (pointingAt t (es ++ edges (params c) records)).
Proof.
  revert c es. induction records as [|x records IH]; intros c es H Hinv t.
  - inversion H; subst. cbn. rewrite app_nil_r. apply Hinv.
  - apply bind_Ret_inv in H as (c1 & Hb & H).
    cbn [edges]. rewrite app_assoc.
    rewrite <- (buildRecord_params _ _ _ Hb).
    apply (IH c1); [exact H |].
    by apply buildRecord_entries.
Qed.

Lemma build_entries (reader : Reader) (c : TreeClimber)
    (pre rest : list Record) (t : Z) :
  NewTreeClimber reader = Ret (c, None) ->
  Records reader = pre ++ Eof :: rest -> Eof ∉ pre ->
  owners c !! t = entryFor (pointingAt t (edges None pre)).
Proof.
  intros Hbuild Hrec Hpre.
  apply (buildRecords_entries pre zeroTreeClimber c []
           (build_records _ _ _ _ Hbuild Hrec Hpre)).
  intros u. apply lookup_empty.
Qed.

(** X3: after a successful build, [owners[t]] lists exactly the Owner
    records in front of [Eof] that hold the non-zero pointer [t], in stream
    order and once for every pointer field that holds [t], each read under
    the DumpParams record that precedes its Owner; [owners] has no entry
    for a target that no pointer field holds. *)
Theorem owners_index (reader : Reader) (c : TreeClimber)
    (pre rest : list Record) (t : Z) :
  NewTreeClimber reader = Ret (c, None) ->
  Records reader = pre ++ Eof :: rest -> Eof ∉ pre ->
  owners c !! t = entryFor (pointingAt t (edges None pre)).
Proof.
  intros Hbuild Hrec Hpre.
  pose proof (build_records _ _ _ _ Hbuild Hrec Hpre) as Hloop.
  apply (buildRecords_entries pre zeroTreeClimber c [] Hloop).
  intros u. apply lookup_empty.
Qed.

Lemma owners_index_witness :
  owners (builtFrom dumpChain) !! 0x3000 = Some [Object objectA] /\
  owners (builtFrom dumpChain) !! 0x2000 = None.
Proof.
  split.
  - apply (owners_index dumpChain (builtFrom dumpChain)
             [DumpParams paramsLE8; Object objectA; Object objectB] []).
    + reflexivity.
    + reflexivity.
    + intros H. repeat (apply elem_of_cons in H as [H | H]; [discriminate |]).
      by apply elem_of_nil in H.
  - apply (owners_index dumpChain (builtFrom dumpChain)
             [DumpParams paramsLE8; Object objectA; Object objectB] []).
    + reflexivity.
    + reflexivity.
    + intros H. repeat (apply elem_of_cons in H as [H | H]; [discriminate |]).
      by apply elem_of_nil in H.
Defined.

Lemma edges_elem (records : list Record) (p : option DumpParams.t) (t : Z)
    (r : Record) :
  (t, r) ∈ edges p records ->
  t <> 0 /\ r ∈ records /\ is_Some (asOwner r).
Proof.
  revert p. induction records as [|x records IH]; intros p Hin.
  - by apply elem_of_nil in Hin.
  - cbn [edges] in Hin. apply elem_of_app in Hin as [Hin | Hin].
    + apply list_elem_of_fmap in Hin as (u & Heq & Hu). inversion Heq; subst.
      unfold targetsOf in Hu. destruct (asOwner x) as [o|] eqn:Ho;
        [| by apply elem_of_nil in Hu].
      destruct (GetPointers o p) as [ts | |];
        try (by apply elem_of_nil in Hu).
      apply list_elem_of_filter in Hu as [Hnz _].
      split; [exact Hnz |]. split; [left | eauto].
    + destruct (IH _ Hin) as (Hnz & Hr & Ho).
      split; [exact Hnz |]. split; [by right | exact Ho].
Qed.

Lemma asOwner_GetAddress (r : Record) (o : Owner) :
  asOwner r = Some o -> GetAddress r = Some (OwnerAddress o).
Proof.
  destruct r; cbn; intros H; try discriminate; by inversion H.
Qed.

Lemma writeAll_is_Some {X V : Type} (kv : X -> option (Z * V)) (l : list X)
    (m : gmap Z V) (k : Z) :
  is_Some (m !! k) \/ (exists x v, x ∈ l /\ kv x = Some (k, v)) ->
  is_Some (writeAll kv m l !! k).
Proof.
  revert m. induction l as [|x l IH]; intros m H.
  - destruct H as [H | (x & v & Hx & _)]; [exact H |].
    by apply elem_of_nil in Hx.
  - rewrite writeAll_cons. apply IH.
    destruct H as [H | (y & v & Hy & Hkv)].
    + left. destruct (kv x) as [[k0 v0]|]; [| exact H].
      destruct (decide (k0 = k)) as [-> | Hne].
      * rewrite lookup_insert_eq. eauto.
      * by rewrite lookup_insert_ne.
    + apply elem_of_cons in Hy as [-> | Hy].
      * left. rewrite Hkv, lookup_insert_eq. eauto.
      * right. eauto.
Qed.

Lemma entryFor_Some {A : Type} (l os : list A) :
  entryFor l = Some os -> os = l.
Proof. destruct l; cbn; intros H; by inversion H. Qed.

(** X4: after a successful build, every record listed in [owners], under
    whatever target, is an Owner record of the dump, its target is not 0,
    and [memory] has a record at the Owner's own address: walking from a
    listed owner to its own owners never meets a missing record. *)
Theorem owners_are_indexed (reader : Reader) (c : TreeClimber)
    (pre rest : list Record) (t : Z) (os : list Record) (r : Record) :
  NewTreeClimber reader = Ret (c, None) ->
  Records reader = pre ++ Eof :: rest -> Eof ∉ pre ->
  owners c !! t = Some os -> r ∈ os ->
  t <> 0 /\ r ∈ pre /\ is_Some (asOwner r) /\
  exists a, GetAddress r = Some a /\ is_Some (memory c !! a).
Proof.
  intros Hbuild Hrec Hpre Hos Hin.
  rewrite (build_entries reader c pre rest t Hbuild Hrec Hpre) in Hos.
  apply entryFor_Some in Hos. subst os. unfold pointingAt in Hin.
  apply list_elem_of_fmap in Hin as ([u r'] & Heq & He). cbn in Heq. subst r'.
  apply list_elem_of_filter in He as [Hu He]. cbn in Hu. subst u.
  destruct (edges_elem _ _ _ _ He) as (Hnz & Hr & [o Ho]).
  split; [exact Hnz |]. split; [exact Hr |]. split; [eauto |].
  exists (OwnerAddress o). split; [by apply asOwner_GetAddress |].
  rewrite (buildRecords_memory _ _ _ (build_records _ _ _ _ Hbuild Hrec Hpre)).
  apply writeAll_is_Some. right. exists r, r. split; [exact Hr |].
  by rewrite (asOwner_GetAddress r o Ho).
Qed.

Lemma owners_are_indexed_witness :
  0x3000 <> 0 /\
  Object objectA ∈ [DumpParams paramsLE8; Object objectA; Object objectB] /\
  is_Some (asOwner (Object objectA)) /\
  exists a, GetAddress (Object objectA) = Some a /\
            is_Some (memory (builtFrom dumpChain) !! a).
Proof.
  apply (owners_are_indexed dumpChain (builtFrom dumpChain)
           [DumpParams paramsLE8; Object objectA; Object objectB] []
           0x3000 [Object objectA]).
  - reflexivity.
  - reflexivity.
  - intros H. repeat (apply elem_of_cons in H as [H | H]; [discriminate |]).
    by apply elem_of_nil in H.
  - reflexivity.
  - left.
Defined.

(** ** The pointer extractor: when it returns, and whose pointer it finds *)

Lemma pointerLoop_short (byteOrder : ByteOrder) (ps address : Z)
    (contents : list byte) (f : Z) (fields : list Z) :
  supportedPointerSize ps -> 0 <= f -> len contents < f + ps ->
  exists p, pointerLoop byteOrder ps address contents (f :: fields) = Panic p.
Proof.
  intros Hps Hf Hshort. cbn [pointerLoop]. unfold slice_from.
  destruct (Z.ltb_spec (len contents) f) as [Hbeyond | Hwithin].
  { destruct Hps as [-> | [-> | ->]]; cbn; eauto. }
  assert (Hlen : (length (drop (Z.to_nat f) contents) < Z.to_nat ps)%nat).
  { rewrite length_drop. unfold len in *. lia. }
  destruct Hps as [-> | [-> | ->]]; cbn [Z.eqb Pos.eqb mbind result_bind];
    destruct (drop (Z.to_nat f) contents)
      as [|b0 [|b1 [|b2 [|b3 [|b4 [|b5 [|b6 [|b7 more]]]]]]]];
    cbn in Hlen; try lia; cbn; eauto.
Qed.

Lemma pointerLoop_Ret_fit (bigEndian : bool) (ps address : Z)
    (contents : list byte) (fields : list Z) (st : list Z * list Z) :
  supportedPointerSize ps ->
  (forall f, f ∈ fields -> 0 <= f) ->
  pointerLoop (if bigEndian then BigEndian else LittleEndian) ps address
    contents fields = Ret st ->
  forall f, f ∈ fields -> f + ps <= len contents.
Proof.
  intros Hps. revert st.
  induction fields as [|g fields IH]; intros st Hpos Hret f Hin.
  - by apply elem_of_nil in Hin.
  - assert (Hg : g + ps <= len contents).
    { destruct (Z.le_gt_cases (g + ps) (len contents)) as [H | H];
        [exact H |].
      destruct (pointerLoop_short
                  (if bigEndian then BigEndian else LittleEndian) ps address
                  contents g fields Hps) as [p Hp];
        [apply Hpos; left | lia | congruence]. }
    apply elem_of_cons in Hin as [-> | Hin]; [exact Hg |].
    cbn [pointerLoop] in Hret.
    rewrite (read_pointer bigEndian contents g ps Hps) in Hret;
      [| apply Hpos; left | exact Hg].
    cbn [mbind result_bind] in Hret.
    destruct (pointerLoop _ ps address contents fields) as [st' | |] eqn:Hrest;
      try discriminate.
    apply (IH st'); [intros h Hh; apply Hpos; by right | reflexivity | exact Hin].
Qed.

Lemma GetPointerInfo_Ret_iff (o : Owner) (p : DumpParams.t) :
  offsetsUnsigned o ->
  (exists st, GetPointerInfo o (Some p) = Ret st) <-> fieldsFit p o.
Proof.
  intros Hpos. unfold fieldsFit, GetPointerInfo. split.
  - intros [st Hst].
    destruct (GetFields o) as [|f fields] eqn:Hfields; [by left |]. right.
    assert (Hps : supportedPointerSize (DumpParams.PointerSize p)).
    { destruct (decide (DumpParams.PointerSize p = 2)) as [H2 | H2];
        [by left |].
      destruct (decide (DumpParams.PointerSize p = 4)) as [H4 | H4];
        [right; by left |].
      destruct (decide (DumpParams.PointerSize p = 8)) as [H8 | H8];
        [right; by right |].
      rewrite pointerLoop_unsupported in Hst; [discriminate |].
      unfold supportedPointerSize. tauto. }
    split; [exact Hps |].
    apply (pointerLoop_Ret_fit (DumpParams.BigEndian p) _ (OwnerAddress o) _
             _ st Hps); [| exact Hst].
    intros g Hg. apply Hpos. by rewrite Hfields.
  - intros [Hnil | [Hps Hfit]].
    + rewrite Hnil. eexists. reflexivity.
    + eexists. apply pointerLoop_supported; [exact Hps |].
      intros f Hf. split; [by apply Hpos | by apply Hfit].
Qed.

(** X5: for an Owner whose field offsets are unsigned, the extractor
    returns exactly when the field list is empty, or the pointer size is
    2, 4 or 8 and every field lies within the contents; in every other case
    it panics, and the pointers it could have read are lost with it. *)
Theorem GetPointerInfo_returns_iff (o : Owner) (p : DumpParams.t) :
  offsetsUnsigned o ->
  ((exists st, GetPointerInfo o (Some p) = Ret st) <-> fieldsFit p o) /\
  ((exists q, GetPointerInfo o (Some p) = Panic q) <-> ~ fieldsFit p o).
Proof.
  intros Hpos. pose proof (GetPointerInfo_Ret_iff o p Hpos) as Hiff.
  split; [exact Hiff |].
  assert (Hnd : GetPointerInfo o (Some p) <> Diverge).
  { unfold GetPointerInfo. generalize (GetFields o).
    induction l as [|f fields IH]; [discriminate |].
    cbn [pointerLoop].
    destruct (if DumpParams.PointerSize p =? 2 then _ else _) as [t | |] eqn:Ht;
      cbn [mbind result_bind]; [| discriminate |].
    - destruct (pointerLoop _ _ _ _ fields) as [[ss ts] | |];
        cbn; congruence.
    - exfalso. clear IH.
      destruct (DumpParams.PointerSize p =? 2);
        [| destruct (DumpParams.PointerSize p =? 4);
           [| destruct (DumpParams.PointerSize p =? 8); [| discriminate]]];
        unfold slice_from in Ht;
        destruct (len (GetContents o) <? f); cbn in Ht; try discriminate;
        destruct (drop (Z.to_nat f) (GetContents o))
          as [|b0 [|b1 [|b2 [|b3 [|b4 [|b5 [|b6 [|b7 more]]]]]]]];
        cbn in Ht; discriminate. }
  split.
  - intros [q Hq] Hfit. apply Hiff in Hfit as [st Hst]. congruence.
  - intros Hnot. destruct (GetPointerInfo o (Some p)) as [st | q |] eqn:Hres.
    + exfalso. apply Hnot, Hiff. eauto.
    + eauto.
    + congruence.
Qed.

Lemma GetPointerInfo_returns_iff_witness :
  (exists q, GetPointerInfo ownerShort (Some paramsBE2) = Panic q) <->
  ~ fieldsFit paramsBE2 ownerShort.
Proof.
  apply (GetPointerInfo_returns_iff ownerShort paramsBE2).
  intros f Hf. cbn in Hf.
  apply elem_of_cons in Hf as [-> | Hf]; [lia |].
  apply elem_of_cons in Hf as [-> | Hf]; [lia |].
  by apply elem_of_nil in Hf.
Defined.





(** ** When the build succeeds *)

Lemma GetPointers_Ret_iff (o : Owner) (p : option DumpParams.t) :
  (exists ts, GetPointers o p = Ret ts) <->
  (exists st, GetPointerInfo o p = Ret st).
Proof.
  unfold GetPointers. split.
  - intros [ts H]. apply bind_Ret_inv in H as (st & Hst & _). eauto.
  - intros [[ss ts] H]. rewrite H. cbn. eauto.
Qed.

Lemma buildRecord_Ret_iff (c : TreeClimber) (x : Record) :
  (exists c', buildRecord c x = Ret c') <->
  (forall o, asOwner x = Some o -> exists ts, GetPointers o (params c) = Ret ts).
Proof.
  split.
  - intros [c' Hb] o Ho. apply buildRecord_cases in Hb. rewrite Ho in Hb.
    destruct Hb as (c0 & ts & _ & Hts & _). eauto.
  - intros Hown. unfold buildRecord.
    destruct x; cbn in Hown |- *; eauto;
      edestruct Hown as [ts Hts]; try reflexivity;
      cbn in Hts; rewrite Hts; cbn; eauto.
Qed.

Lemma paramsAfter_cons (p0 : option DumpParams.t) (x : Record)
    (l : list Record) :
  paramsAfter p0 (x :: l) = paramsAfter (paramsAfter p0 [x]) l.
Proof. by destruct x. Qed.

Lemma buildRecords_Ret_iff (pre : list Record) (c : TreeClimber) :
  (exists c', buildRecords c pre = Ret c') <->
  (forall l1 r l2 o,
     pre = l1 ++ r :: l2 -> asOwner r = Some o ->
     exists ts, GetPointers o (paramsAfter (params c) l1) = Ret ts).
Proof.
  revert c. induction pre as [|x pre IH]; intros c.
  - split; [| cbn; eauto].
    intros _ l1 r l2 o Hl. by destruct l1.
  - cbn [buildRecords]. split.
    + intros [c' H]. apply bind_Ret_inv in H as (c1 & Hb & H).
      intros l1 r l2 o Hl Ho. destruct l1 as [|y l1]; cbn in Hl;
        inversion Hl; subst.
      * cbn. apply (proj1 (buildRecord_Ret_iff c r)); eauto.
      * rewrite paramsAfter_cons, <- (buildRecord_params _ _ _ Hb).
        apply (proj1 (IH c1) (ex_intro _ c' H) l1 r l2 o); auto.
    + intros Hall.
      destruct (proj2 (buildRecord_Ret_iff c x)) as [c1 Hb].
      { intros o Ho. apply (Hall [] x pre o); auto. }
      rewrite Hb. cbn. apply IH.
      intros l1 r l2 o Hl Ho.
      rewrite (buildRecord_params _ _ _ Hb), <- paramsAfter_cons.
      apply (Hall (x :: l1) r l2 o); [by rewrite Hl | exact Ho].
Qed.

(** X7: a dump with a good header and an [Eof] record is built without
    error and without panic exactly when every Owner record in front of the
    first [Eof] comes after a DumpParams record and has pointer fields that
    can be read under the latest one (field offsets being unsigned). *)
Theorem build_succeeds_iff (reader : Reader) (pre rest : list Record) :
  ReadHeader reader = None ->
  Records reader = pre ++ Eof :: rest -> Eof ∉ pre ->
  (forall r o, r ∈ pre -> asOwner r = Some o -> offsetsUnsigned o) ->
  (exists c, NewTreeClimber reader = Ret (c, None)) <->
  (forall l1 r l2 o,
     pre = l1 ++ r :: l2 -> asOwner r = Some o ->
     exists p, paramsAfter None l1 = Some p /\ fieldsFit p o).
Proof.
  intros Hhead Hrec Hpre Hpos.
  assert (Hloop : (exists c, NewTreeClimber reader = Ret (c, None)) <->
                  (exists c, buildRecords zeroTreeClimber pre = Ret c)).
  { unfold NewTreeClimber, build.
    rewrite Hhead, Hrec, readloop_prefix by exact Hpre.
    change (set_finalizers ∅ (set_owners ∅ (set_memory ∅ zeroTreeClimber)))
      with zeroTreeClimber.
    split; intros [c H].
    - apply bind_Ret_inv in H as (c1 & H1 & _). eauto.
    - exists c. rewrite H. reflexivity. }
  rewrite Hloop, buildRecords_Ret_iff. cbn [params zeroTreeClimber].
  split; intros Hall l1 r l2 o Hl Ho.
  - destruct (Hall l1 r l2 o Hl Ho) as [ts Hts].
    destruct (paramsAfter None l1) as [p|] eqn:Hp; [| discriminate].
    exists p. split; [reflexivity |].
    apply GetPointerInfo_Ret_iff.
    + apply (Hpos r); [| exact Ho]. rewrite Hl.
      apply elem_of_app. right. left.
    + apply GetPointers_Ret_iff. eauto.
  - destruct (Hall l1 r l2 o Hl Ho) as (p & -> & Hfit).
    apply GetPointers_Ret_iff, GetPointerInfo_Ret_iff; [| exact Hfit].
    apply (Hpos r); [| exact Ho]. rewrite Hl.
    apply elem_of_app. right. left.
Qed.

Lemma build_succeeds_iff_witness :
  (exists c, NewTreeClimber dumpChain = Ret (c, None)) <->
  (forall l1 r l2 o,
     [DumpParams paramsLE8; Object objectA; Object objectB]
     = l1 ++ r :: l2 ->
     asOwner r = Some o ->
     exists p, paramsAfter None l1 = Some p /\ fieldsFit p o).
Proof.
  apply (build_succeeds_iff dumpChain
           [DumpParams paramsLE8; Object objectA; Object objectB] []).
  - reflexivity.
  - reflexivity.
  - intros H. repeat (apply elem_of_cons in H as [H | H]; [discriminate |]).
    by apply elem_of_nil in H.
  - intros r o Hr Ho f Hf.
    repeat (apply elem_of_cons in Hr as [-> | Hr];
            [cbn in Ho; try discriminate; inversion Ho; subst o; cbn in Hf;
             repeat (apply elem_of_cons in Hf as [-> | Hf]; [lia |]);
             by apply elem_of_nil in Hf |]).
    by apply elem_of_nil in Hr.
Defined.

(** X8: the build reads up to the first [Eof] record and no further: the
    records behind it change neither the analyzer nor the outcome; and a
    stream that has no [Eof] record is never built without error, however
    well its records decode. *)
Theorem build_stops_at_Eof (magic : list byte) (pre : list Record) :
  Eof ∉ pre ->
  (forall rest,
     NewTreeClimber (mkReader magic (pre ++ Eof :: rest))
     = NewTreeClimber (mkReader magic (pre ++ [Eof]))) /\
  (forall c, NewTreeClimber (mkReader magic pre) <> Ret (c, None)).
Proof.
  intros Hpre. split.
  - intros rest. unfold NewTreeClimber, build. cbn [Records ReadHeader Magic].
    destruct (ReadHeader _); [reflexivity |].
    rewrite !readloop_prefix by exact Hpre. reflexivity.
  - intros c Hbuild. unfold NewTreeClimber, build in Hbuild.
    destruct (ReadHeader _); [discriminate |].
    apply readloop_success in Hbuild as (l1 & l2 & Heq & _).
    cbn in Heq. apply Hpre. rewrite Heq.
    apply elem_of_app. right. left.
Qed.

Lemma build_stops_at_Eof_witness :
  (forall rest,
     NewTreeClimber
       (mkReader (bytes_of_string Header)
          ([DumpParams paramsLE8; Object objectB] ++ Eof :: rest))
     = NewTreeClimber
         (mkReader (bytes_of_string Header)
            ([DumpParams paramsLE8; Object objectB] ++ [Eof]))) /\
  (forall c, NewTreeClimber dumpTruncated <> Ret (c, None)).
Proof.
  apply (build_stops_at_Eof (bytes_of_string Header)
           [DumpParams paramsLE8; Object objectB]).
  intros H. repeat (apply elem_of_cons in H as [H | H]; [discriminate |]).
  by apply elem_of_nil in H.
Defined.

(** ** What the anchor query prints *)

Lemma printChildren_trace (fuel : nat) (c : TreeClimber) (a p : Z)
    (f : StackFrame.t) (s : Trace) :
  memory c !! a = Some (StackFrame f) -> StackFrame.ChildPointer f = p ->
  let out := printChildren fuel c p s in
  seen out.1 = seen s /\
  (forall err, out.2 <> Ret (Some err)) /\
  exists more,
    stdout out.1 = stdout s ++ more /\
    forall line, line ∈ more ->
      exists b g,
        tc (frameLink c) a b /\ memory c !! b = Some (StackFrame g) /\
        line = ("  " +:+ StackFrame.String g)%string.
Proof.
  revert a p f s. induction fuel as [|fuel IH]; intros a p f s Ha Hp.
  - cbn. destruct (p =? 0); cbn;
      (split; [done | split; [done |]]);
      exists []; (split; [by rewrite app_nil_r |]);
      intros line Hl; by apply elem_of_nil in Hl.
  - cbn [printChildren]. destruct (p =? 0) eqn:Hz.
    { cbn. split; [done | split; [done |]].
      exists []. split; [by rewrite app_nil_r |].
      intros line Hl. by apply elem_of_nil in Hl. }
    apply Z.eqb_neq in Hz.
    assert (Hnil : forall q : panic,
              seen s = seen s /\
              (forall err, @Panic (option error) q <> Ret (Some err)) /\
              exists more : list string,
                stdout s = stdout s ++ more /\
                forall line, line ∈ more ->
                  exists b g,
                    tc (frameLink c) a b /\
                    memory c !! b = Some (StackFrame g) /\
                    line = ("  " +:+ StackFrame.String g)%string).
    { intros q. split; [done | split; [done |]].
      exists []. split; [by rewrite app_nil_r |].
      intros line Hl. by apply elem_of_nil in Hl. }
    destruct (memory c !! p) as [r|] eqn:Hmem; cbn; [| apply Hnil].
    destruct r; cbn; try apply Hnil.
    rewrite ?bool_decide_eq_true_2 by eauto. cbn.
    match goal with
    | |- context [printChildren fuel c ?q ?s1] =>
        destruct (IH p q r s1 Hmem eq_refl) as (Hseen & Herr & more & Hout & Hmore)
    end.
    assert (Hlink : frameLink c a p) by (exists f, r; auto).
    split; [exact Hseen | split; [exact Herr |]].
    eexists (_ :: more). split.
    + rewrite Hout. cbn. rewrite <- app_assoc. reflexivity.
    + intros line Hl. apply elem_of_cons in Hl as [-> | Hl].
      * exists p, r. split; [by apply tc_once | done].
      * destruct (Hmore line Hl) as (b & g & Htc & Hb & ->).
        exists b, g. split; [by eapply tc_l | done].
Qed.

Lemma forAddressable_preserves (P : Trace -> Prop)
    (body : Z -> Trace -> Trace * result unit) (o : list Record) (s : Trace) :
  P s ->
  (forall owner a s, owner ∈ o -> GetAddress owner = Some a -> P s ->
     P (body a s).1) ->
  P (forAddressable body o s).1.
Proof.
  revert s. induction o as [|owner o IH]; intros s Hs Hbody; [exact Hs |].
  cbn [forAddressable].
  assert (Htail : forall s', P s' -> P (forAddressable body o s').1).
  { intros s' Hs'. apply IH; [exact Hs' |].
    intros owner' a' s'' Hin. apply Hbody. by right. }
  destruct (GetAddress owner) as [a|] eqn:Ha; [| by apply Htail].
  assert (HP : P (body a s).1) by (apply (Hbody owner); [left | exact Ha | exact Hs]).
  destruct (body a s) as [s1 [[] | p |]]; cbn in HP; [by apply Htail | done ..].
Qed.

Lemma anchorOf_step (c : TreeClimber) (address a : Z) (r : Record)
    (s : Trace) (line : string) :
  rtc (ownerStep c) address a -> memory c !! a = Some r ->
  anchorLine r = Some line ->
  (forall l, l ∈ stdout s -> anchorOf c address l) ->
  forall l, l ∈ stdout (println line s) -> anchorOf c address l.
Proof.
  intros Hreach Hmem Hline Hs l Hl. cbn in Hl.
  apply elem_of_app in Hl as [Hl | Hl]; [by apply Hs |].
  apply list_elem_of_singleton in Hl as ->.
  exists a. split; [exact Hreach |]. left. eauto.
Qed.

Lemma printAnchors_sound (fuel : nat) (c : TreeClimber) (address a : Z)
    (s : Trace) :
  rtc (ownerStep c) address a ->
  (forall line, line ∈ stdout s -> anchorOf c address line) ->
  forall line,
    line ∈ stdout (printAnchors fuel c a s).1 -> anchorOf c address line.
Proof.
  revert a s. induction fuel as [|fuel IH]; intros a s Hreach Hs; [exact Hs |].
  cbn [printAnchors].
  destruct (bool_decide (a ∈ seen s)); [exact Hs |].
  destruct (memory c !! a) as [r|] eqn:Hmem; [| exact Hs].
  set (P := fun s : Trace =>
              forall line, line ∈ stdout s -> anchorOf c address line).
  assert (Hloop : forall s1, P s1 ->
            P (match owners c !! a with
               | None => (s1, Ret (None : option error))
               | Some o =>
                   match
                     forAddressable
                       (fun a0 s0 =>
                          match printAnchors fuel c a0 s0 with
                          | (s2, Ret _) => (s2, Ret tt)
                          | (s2, Panic p) => (s2, Panic p)
                          | (s2, Diverge) => (s2, Diverge)
                          end) o s1
                   with
                   | (s2, Ret _) => (s2, Ret None)
                   | (s2, Panic p) => (s2, Panic p)
                   | (s2, Diverge) => (s2, Diverge)
                   end
               end).1).
  { intros s1 Hs1. destruct (owners c !! a) as [o|] eqn:Hown; [| exact Hs1].
    match goal with
    | |- P (match forAddressable ?body o s1 with _ => _ end).1 =>
        pose proof (forAddressable_preserves P body o s1 Hs1) as Hfor;
        destruct (forAddressable body o s1) as [s2 [[] | p |]]
    end; cbn in Hfor |- *; apply Hfor;
      intros owner y s0 Hin Hy Hs0;
      (assert (Hy' : rtc (ownerStep c) address y)
         by (eapply rtc_r; [exact Hreach |];
             split; [eauto |]; exists owner; split; [exists o |]; eauto));
      pose proof (IH y s0 Hy' Hs0) as Hrec;
      destruct (printAnchors fuel c y s0) as [s3 [e | p' |]];
      exact Hrec. }
  assert (Hplain : forall line0,
            anchorLine r = Some line0 -> P (println line0 (mark a s))).
  { intros line0 Hline0. unfold P.
    eapply anchorOf_step; [exact Hreach | exact Hmem | exact Hline0 | exact Hs]. }
  destruct r; try (apply Hloop; exact Hs);
    try (apply Hloop; apply Hplain; reflexivity).
  (* a root StackFrame: its line, then the lines of the frames below *)
  match goal with
  | |- context [printChildren fuel c ?p ?s1] =>
      destruct (printChildren_trace fuel c a p r s1 Hmem eq_refl)
        as (_ & Herr & more & Hout & Hmore);
      assert (Hkids : P (printChildren fuel c p s1).1);
      [| destruct (printChildren fuel c p s1) as [s2 [[err|] | q |]]]
  end.
  - intros line Hl. rewrite Hout in Hl.
    apply elem_of_app in Hl as [Hl | Hl].
    + revert line Hl. apply Hplain. reflexivity.
    + destruct (Hmore line Hl) as (b & g & Htc & Hb & ->).
      exists a. split; [exact Hreach |]. right. eauto.
  - by destruct (Herr err).
  - apply Hloop. exact Hkids.
  - exact Hkids.
  - exact Hkids.
Qed.

(** X10: whatever the anchor query prints, and however it ends, every
    line is the line of a root record (OtherRoot, StackFrame, BssSegment,
    DataSegment) that owns the address directly or through other records,
    or the indented line of a frame below such a root StackFrame. *)
Theorem PrintAnchors_prints_only_anchors (fuel : nat) (c : TreeClimber)
    (address : Z) (line : string) :
  line ∈ printed (PrintAnchors fuel c address) ->
  anchorOf c address line.
Proof.
  unfold PrintAnchors. intros Hl.
  match type of Hl with
  | context [printAnchors fuel ?c1 address ?s0] =>
      pose proof (printAnchors_sound fuel c1 address address s0) as Hsound;
      destruct (printAnchors fuel c1 address s0) as [s r]
  end.
  cbn in Hl, Hsound. apply Hsound; [done | | exact Hl].
  intros l Hin. by apply elem_of_nil in Hin.
Qed.

Lemma PrintAnchors_prints_only_anchors_witness :
  anchorOf (builtFrom dumpAnchored) 0x8000
    "BssSegment @ 0x6000-0x6008 with 1 pointers".
Proof.
  apply (PrintAnchors_prints_only_anchors 4).
  vm_compute. left.
Defined.

Section Explored.
Context (c : TreeClimber) (written : Z -> list string -> Prop).
Context (Hkept : keptWhenExtended written).

Lemma explored_refl (s : Trace) : explored c written s s.
Proof.
  split; [done | split; [exists []; by rewrite app_nil_r |]].
  intros x Hx Hnx. done.
Qed.

Lemma explored_trans (s1 s2 s3 : Trace) :
  explored c written s1 s2 -> explored c written s2 s3 ->
  explored c written s1 s3.
Proof.
  intros (Hsub1 & [m1 Hout1] & Hnew1) (Hsub2 & [m2 Hout2] & Hnew2).
  split; [set_solver | split].
  - exists (m1 ++ m2). by rewrite Hout2, Hout1, app_assoc.
  - intros x Hx Hnx. destruct (decide (x ∈ seen s2)) as [Hx2 | Hx2].
    + destruct (Hnew1 x Hx2 Hnx) as [Hstep Hline]. split.
      * intros y Hy. apply Hsub2. by apply Hstep.
      * rewrite Hout2. by apply Hkept.
    + by apply Hnew2.
Qed.

Lemma forAddressable_explored (base : gset Z)
    (body : Z -> Trace -> Trace * result unit) (o : list Record)
    (s s' : Trace) (u : unit) :
  (forall a s0 s1 u0,
     base ⊆ seen s0 -> body a s0 = (s1, Ret u0) ->
     explored c written s0 s1 /\ a ∈ seen s1) ->
  base ⊆ seen s ->
  forAddressable body o s = (s', Ret u) ->
  explored c written s s' /\
  forall r y, r ∈ o -> GetAddress r = Some y -> y ∈ seen s'.
Proof.
  intros Hbody. revert s. induction o as [|owner o IH]; intros s Hbase Hfor.
  - cbn in Hfor. inversion Hfor; subst. split; [apply explored_refl |].
    intros r y Hr. by apply elem_of_nil in Hr.
  - cbn [forAddressable] in Hfor.
    destruct (GetAddress owner) as [a|] eqn:Ha.
    + destruct (body a s) as [s1 [[] | p |]] eqn:Hb; try discriminate.
      destruct (Hbody _ _ _ _ Hbase Hb) as [Hexp1 Ha1].
      assert (Hbase1 : base ⊆ seen s1)
        by (destruct Hexp1 as [Hsub _]; set_solver).
      destruct (IH _ Hbase1 Hfor) as [Hexp2 Hrest].
      split; [by eapply explored_trans |].
      intros r y Hr Hy. apply elem_of_cons in Hr as [-> | Hr].
      * replace y with a by congruence.
        destruct Hexp2 as [Hsub _]. by apply Hsub.
      * by eapply Hrest.
    + destruct (IH _ Hbase Hfor) as [Hexp2 Hrest]. split; [exact Hexp2 |].
      intros r y Hr Hy. apply elem_of_cons in Hr as [-> | Hr];
        [congruence | by eapply Hrest].
Qed.

(** Every address that owner steps lead to from a marked one is marked,
    once the calls that marked them all have returned. *)
Lemma explored_closed (s : Trace) (x y : Z) :
  explored c written (mkTrace ∅ []) s ->
  rtc (ownerStep c) x y -> x ∈ seen s -> y ∈ seen s.
Proof.
  intros (_ & _ & Hnew). induction 1 as [x | x y z Hxy _ IHr]; [done |].
  intros Hx. apply IHr.
  apply (proj1 (Hnew x Hx (not_elem_of_empty x))). exact Hxy.
Qed.

End Explored.

Lemma anchorWritten_kept (c : TreeClimber) :
  keptWhenExtended (anchorWritten c).
Proof.
  intros x out more Hw r line Hr Hl. apply elem_of_app. left. by eapply Hw.
Qed.

Lemma printAnchors_explored (fuel : nat) (c : TreeClimber) (a : Z)
    (s s' : Trace) (e : option error) :
  printAnchors fuel c a s = (s', Ret e) ->
  explored c (anchorWritten c) s s' /\ a ∈ seen s'.
Proof.
  revert a s s' e. induction fuel as [|fuel IH]; intros a s s' e Hrun;
    [discriminate |].
  cbn [printAnchors] in Hrun.
  destruct (bool_decide (a ∈ seen s)) eqn:Hseen.
  { apply bool_decide_eq_true in Hseen. inversion Hrun; subst.
    split; [apply explored_refl | exact Hseen]. }
  apply bool_decide_eq_false in Hseen.
  destruct (memory c !! a) as [r|] eqn:Hmem.
  2:{ inversion Hrun; subst. split; [| cbn; set_solver].
      split; [cbn; set_solver | split; [exists []; by rewrite app_nil_r |]].
      intros x Hx Hnx. assert (x = a) as -> by (cbn in Hx; set_solver).
      split.
      - intros y [[r0 Hr0] _]. congruence.
      - intros r0 line Hr0. congruence. }
  (* the switch: it marks nothing, and writes the line of a root *)
  match type of Hrun with
  | (let '(_, _) := ?switch in _) = _ =>
      assert (Hswitch :
                seen switch.1 = {[a]} ∪ seen s /\
                (exists more, stdout switch.1 = stdout s ++ more) /\
                (forall line, anchorLine r = Some line ->
                              line ∈ stdout switch.1) /\
                (forall err, switch.2 <> Ret (Some err)));
      [| destruct switch as [s1 sw]]
  end.
  { destruct r; cbn;
      try (split; [done | split; [exists []; by rewrite app_nil_r |];
           split; [done | done]]);
      try (split; [done | split; [by eexists |];
           split; [| done]];
           intros line [= <-]; apply elem_of_app; right; left).
    match goal with
    | |- context [printChildren fuel c ?p ?s1] =>
        destruct (printChildren_trace fuel c a p r s1 Hmem eq_refl)
          as (Hseen' & Herr & more & Hout & _)
    end.
    split; [by rewrite Hseen' | split; [| split; [| exact Herr]]].
    - rewrite Hout. cbn. rewrite <- app_assoc. by eexists.
    - intros line [= <-]. rewrite Hout. cbn.
      apply elem_of_app. left. apply elem_of_app. right. left. }
  cbn in Hswitch. destruct Hswitch as (Hseen1 & [m1 Hout1] & Hline1 & Herr1).
  destruct sw as [[err|] | p |]; try discriminate; [by destruct (Herr1 err) |].
  destruct (owners c !! a) as [o|] eqn:Hown.
  2:{ inversion Hrun; subst. split; [| set_solver].
      split; [set_solver | split; [by eexists |]].
      intros x Hx Hnx. assert (x = a) as -> by set_solver. split.
      - intros y (_ & r0 & (os & Hos & _) & _). congruence.
      - intros r0 line Hr0 Hl. apply Hline1. congruence. }
  match type of Hrun with
  | match forAddressable ?body o s1 with _ => _ end = _ =>
      destruct (forAddressable body o s1) as [s2 [[] | p |]] eqn:Hfor;
      try discriminate;
      apply (forAddressable_explored c (anchorWritten c)
               (anchorWritten_kept c) ∅) in Hfor as [Hexp Hall]
  end.
  3:{ set_solver. }
  2:{ intros a0 s0 s3 u0 _ Hb.
      destruct (printAnchors fuel c a0 s0) as [s4 [e0 | p |]] eqn:Hrec;
        try discriminate.
      inversion Hb; subst. by eapply IH. }
  inversion Hrun; subst.
  destruct Hexp as (Hsub & [m2 Hout2] & Hnew).
  split; [| set_solver].
  split; [set_solver | split].
  - exists (m1 ++ m2). by rewrite Hout2, Hout1, app_assoc.
  - intros x Hx Hnx. destruct (decide (x = a)) as [-> | Hxa].
    + split.
      * intros y (_ & r0 & (os & Hos & Hin) & Hy).
        assert (os = o) as -> by congruence. by eapply Hall.
      * intros r0 line Hr0 Hl. rewrite Hout2. apply elem_of_app. left.
        apply Hline1. congruence.
    + apply Hnew; [exact Hx | set_solver].
Qed.

(** X9: when the anchor query returns, it has printed the line of every
    root record (OtherRoot, StackFrame, BssSegment, DataSegment) that owns
    the address directly or through a chain of owner records held in
    memory. *)
Theorem PrintAnchors_prints_every_anchor (fuel : nat) (c : TreeClimber)
    (address a : Z) (e : option error) (r : Record) (line : string) :
  ended (PrintAnchors fuel c address) = Ret e ->
  rtc (ownerStep c) address a ->
  memory c !! a = Some r -> anchorLine r = Some line ->
  line ∈ printed (PrintAnchors fuel c address).
Proof.
  unfold PrintAnchors. intros Hend Hreach Hmem Hline.
  match type of Hend with
  | context [printAnchors fuel ?c1 address ?s0] =>
      pose proof (printAnchors_explored fuel c1 address s0) as Hexp;
      destruct (printAnchors fuel c1 address s0) as [s res]
  end.
  cbn in Hend |- *. subst res.
  destruct (Hexp s e eq_refl) as [Hdone Haddr]. cbn in Hdone.
  pose proof (explored_closed _ _ s address a Hdone Hreach Haddr) as Hin.
  destruct Hdone as (_ & _ & Hnew).
  apply (proj2 (Hnew a Hin (not_elem_of_empty a)) r line Hmem Hline).
Qed.

Lemma PrintAnchors_prints_every_anchor_witness :
  ("BssSegment @ 0x6000-0x6008 with 1 pointers"%string
   ∈ printed (PrintAnchors 4 (builtFrom dumpAnchored) 0x8000)).
Proof.
  apply (PrintAnchors_prints_every_anchor 4 (builtFrom dumpAnchored)
           0x8000 0x6000 None (BssSegment bssAt6000)).
  - reflexivity.
  - apply (rtc_l _ _ 0x7000).
    { split; [exists (Object objectAt8000); reflexivity |].
      exists (Object objectAt7000). split; [| reflexivity].
      exists [Object objectAt7000]. split; [reflexivity | left]. }
    apply rtc_once.
    split; [exists (Object objectAt7000); reflexivity |].
    exists (BssSegment bssAt6000). split; [| reflexivity].
    exists [BssSegment bssAt6000]. split; [reflexivity | left].
  - reflexivity.
  - reflexivity.
Defined.

(** ** What the owners query prints *)

Lemma append_assoc (s1 s2 s3 : string) :
  ((s1 +:+ s2) +:+ s3 = s1 +:+ (s2 +:+ s3))%string.
Proof.
  induction s1 as [|ch s1 IH]; [done |].
  change (String ch ((s1 +:+ s2) +:+ s3) = String ch (s1 +:+ (s2 +:+ s3))).
  by rewrite IH.
Qed.





Lemma ownerWritten_kept (c : TreeClimber) :
  keptWhenExtended (ownerWritten c).
Proof.
  intros x out more (k & text & Htext & Hin). exists k, text.
  split; [exact Htext |]. apply elem_of_app. by left.
Qed.

Lemma wrap_int_id (z : Z) : - 2 ^ 63 <= z < 2 ^ 63 -> wrap_int z = z.
Proof.
  intros Hz. unfold wrap_int.
  change (2 ^ 63) with 9223372036854775808 in *.
  change (2 ^ 64) with 18446744073709551616.
  rewrite Z.mod_small; lia.
Qed.

Lemma wrap_int_pred (z : Z) : wrap_int (wrap_int z - 1) = wrap_int (z - 1).
Proof.
  unfold wrap_int. f_equal.
  replace ((z + 2 ^ 63) mod 2 ^ 64 - 2 ^ 63 - 1 + 2 ^ 63)
    with ((z + 2 ^ 63) mod 2 ^ 64 - 1) by lia.
  replace (z - 1 + 2 ^ 63) with (z + 2 ^ 63 - 1) by lia.
  apply Zminus_mod_idemp_l.
Qed.

(** A negative depth does not come down to 0 within [2 ^ 63] levels. *)
Lemma wrap_int_unlimited (depth k : Z) :
  - 2 ^ 63 <= depth < 0 -> 0 <= k < 2 ^ 63 -> wrap_int (depth - k) <> 0.
Proof.
  intros Hd Hk. unfold wrap_int.
  change (2 ^ 63) with 9223372036854775808 in *.
  change (2 ^ 64) with 18446744073709551616.
  pose proof (Z.div_mod (depth - k + 9223372036854775808)
                18446744073709551616 ltac:(lia)) as Hdiv.
  pose proof (Z.mod_pos_bound (depth - k + 9223372036854775808)
                18446744073709551616 ltac:(lia)) as Hmod.
  lia.
Qed.

Lemma printOwners_explored (fuel : nat) (c : TreeClimber) (depth : Z) :
  - 2 ^ 63 <= depth < 0 ->
  Z.of_nat (size (dom (memory c))) < 2 ^ 63 ->
  forall (a : Z) (k : nat) (prefix : list string) (s s' : Trace)
         (e : option error) (A : gset Z),
    A ⊆ seen s -> A ⊆ dom (memory c) -> size A = k ->
    fold_left String.append prefix ""%string = indentation k ->
    printOwners fuel c a (wrap_int (depth - Z.of_nat k)) prefix s
    = (s', Ret e) ->
    explored c (ownerWritten c) s
      (match e with
       | Some err => println (indentation k +:+ err) s'
       | None => s'
       end) /\
    a ∈ seen s'.
Proof.
  intros Hdepth Hsize.
  induction fuel as [|fuel IH];
    intros a k prefix s s' e A HAs HAm HAk Hind Hrun; [discriminate |].
  cbn [printOwners] in Hrun.
  assert (Hk : Z.of_nat k < 2 ^ 63).
  { apply subseteq_size in HAm. lia. }
  destruct (wrap_int (depth - Z.of_nat k) =? 0) eqn:HD.
  { apply Z.eqb_eq in HD. by apply wrap_int_unlimited in HD; [| | lia]. }
  clear HD.
  destruct (bool_decide (a ∈ seen s)) eqn:Hseen.
  { apply bool_decide_eq_true in Hseen. inversion Hrun; subst.
    split; [by apply explored_refl | exact Hseen]. }
  apply bool_decide_eq_false in Hseen.
  destruct (memory c !! a) as [r|] eqn:Hmem.
  2:{ inversion Hrun; subst. split; [| cbn; set_solver].
      split; [cbn; set_solver | split; [by eexists |]].
      intros x Hx Hnx. assert (x = a) as -> by (cbn in Hx; set_solver).
      split.
      - intros y [[r0 Hr0] _]. congruence.
      - exists (size A), (notFound a). unfold ownerText. rewrite Hmem.
        split; [done |]. cbn. apply elem_of_app. right. left. }
  destruct (asStringer r) as [str|] eqn:Hstr; [| discriminate].
  rewrite Hind in Hrun.
  assert (Hown : ownerWritten c a
                   (stdout (println (indentation k +:+ str) (mark a s)))).
  { exists k, str. unfold ownerText. rewrite Hmem.
    split; [done |]. cbn. apply elem_of_app. right. left. }
  destruct (owners c !! a) as [o|] eqn:Howners.
  2:{ inversion Hrun; subst. split; [| cbn; set_solver].
      split; [cbn; set_solver | split; [by eexists |]].
      intros x Hx Hnx. assert (x = a) as -> by (cbn in Hx; set_solver).
      split; [| exact Hown].
      intros y (_ & r0 & (os & Hos & _) & _). congruence. }
  match type of Hrun with
  | match forAddressable ?body o ?s1 with _ => _ end = _ =>
      destruct (forAddressable body o s1) as [s2 [[] | p |]] eqn:Hfor;
      try discriminate;
      apply (forAddressable_explored c (ownerWritten c)
               (ownerWritten_kept c) ({[a]} ∪ A)) in Hfor as [Hexp Hall]
  end.
  3:{ cbn. set_solver. }
  2:{ intros a0 s0 s3 u0 Hbase Hb.
      assert (HA' : size ({[a]} ∪ A) = S k).
      { rewrite size_union by set_solver. rewrite size_singleton. lia. }
      assert (HAm' : {[a]} ∪ A ⊆ dom (memory c)).
      { apply union_subseteq. split; [| exact HAm].
        apply singleton_subseteq_l, elem_of_dom. eauto. }
      pose proof (IH a0 (S k) [indentation k; "  "%string] s0) as IHa.
      replace (wrap_int (depth - Z.of_nat (S k)))
        with (wrap_int (wrap_int (depth - Z.of_nat k) - 1)) in IHa
        by (rewrite wrap_int_pred; f_equal; lia).
      destruct (printOwners fuel c a0 _ _ s0) as [s4 [[err|] | p |]] eqn:Hrec;
        try discriminate; inversion Hb; subst;
        destruct (IHa _ _ _ Hbase HAm' HA' eq_refl eq_refl) as [Hexp Hin];
        [| done].
      cbn [indentation] in Hexp. rewrite append_assoc in Hexp. done. }
  inversion Hrun; subst.
  destruct Hexp as (Hsub & [m2 Hout2] & Hnew). cbn in Hsub, Hout2.
  split; [| set_solver].
  split; [set_solver | split].
  - eexists. rewrite Hout2, <- app_assoc. reflexivity.
  - intros x Hx Hnx. destruct (decide (x = a)) as [-> | Hxa].
    + split.
      * intros y (_ & r0 & (os & Hos & Hin) & Hy).
        assert (os = o) as -> by congruence. by eapply Hall.
      * rewrite Hout2. by apply ownerWritten_kept.
    + apply Hnew; [exact Hx | cbn; set_solver].
Qed.

Lemma printOwners_error (fuel : nat) (c : TreeClimber) (a D : Z)
    (prefix : list string) (s : Trace) (err : error) :
  (printOwners fuel c a D prefix s).2 = Ret (Some err) ->
  memory c !! a = None.
Proof.
  destruct fuel as [|fuel]; [discriminate |]. cbn [printOwners].
  destruct (D =? 0); [discriminate |].
  destruct (bool_decide (a ∈ seen s)); [discriminate |].
  destruct (memory c !! a) as [r|]; [| done].
  destruct (asStringer r); [| discriminate].
  destruct (owners c !! a) as [o|]; [| discriminate].
  match goal with
  | |- context [forAddressable ?body o ?s1] =>
      destruct (forAddressable body o s1) as [s2 [[] | p |]]
  end; discriminate.
Qed.

(** X12: with a negative depth the owners query is not limited in depth:
    when it returns for an address that holds a record, it has printed a
    line for every address that owner steps lead to, the description of
    the record there or the not-found error.  (The analyzer holds fewer
    than [2 ^ 63] records.) *)
Theorem PrintOwners_unlimited_prints_every_owner (fuel : nat)
    (c : TreeClimber) (address depth a : Z) (e : option error) :
  - 2 ^ 63 <= depth < 0 ->
  Z.of_nat (size (dom (memory c))) < 2 ^ 63 ->
  ended (PrintOwners fuel c address depth) = Ret e ->
  is_Some (memory c !! address) ->
  rtc (ownerStep c) address a ->
  exists k text,
    ownerText c a text /\
    (indentation k +:+ text)%string
    ∈ printed (PrintOwners fuel c address depth).
Proof.
  intros Hdepth Hsize Hend [r0 Hmem] Hreach. unfold PrintOwners in *.
  assert (Hneg : (0 <? depth) = false) by (apply Z.ltb_ge; lia).
  rewrite Hneg in *.
  match type of Hend with
  | context [printOwners fuel ?c1 address depth [] ?s0] =>
      pose proof (printOwners_explored fuel c1 depth Hdepth Hsize address 0
                    [] s0) as Hexp;
      pose proof (printOwners_error fuel c1 address depth [] s0) as Herr;
      replace (wrap_int (depth - Z.of_nat 0)) with depth in Hexp
        by (rewrite wrap_int_id; lia);
      destruct (printOwners fuel c1 address depth [] s0) as [s res]
  end.
  cbn in Hend |- *. subst res.
  destruct e as [err|].
  { specialize (Herr err eq_refl). cbn in Herr. congruence. }
  destruct (Hexp s None ∅) as [Hdone Haddr];
    [set_solver | set_solver | apply size_empty | reflexivity | reflexivity |].
  cbn in Hdone.
  pose proof (explored_closed _ _ s address a Hdone Hreach Haddr) as Hin.
  destruct Hdone as (_ & _ & Hnew).
  exact (proj2 (Hnew a Hin (not_elem_of_empty a))).
Qed.

Lemma PrintOwners_unlimited_prints_every_owner_witness :
  exists k text,
    ownerText (builtFrom dumpCycle) 0xB000 text /\
    (indentation k +:+ text)%string
    ∈ printed (PrintOwners 3 (builtFrom dumpCycle) 0xA000 (-1)).
Proof.
  apply (PrintOwners_unlimited_prints_every_owner 3 (builtFrom dumpCycle)
           0xA000 (-1) 0xB000 None).
  - split; [vm_compute; discriminate | reflexivity].
  - reflexivity.
  - reflexivity.
  - exists (Object objectX). reflexivity.
  - apply rtc_once. split; [exists (Object objectX); reflexivity |].
    exists (Object objectY). split; [| reflexivity].
    exists [Object objectY]. split; [reflexivity | left].
Defined.

(** ** The walk down a stack *)

Lemma fullStackLoop_chain (fuel : nat) (c : TreeClimber) (p : Z)
    (out out' : list string) :
  fullStackLoop fuel c p out = Ret out' <->
  exists fs,
    frameChain c p fs /\ (length fs <= fuel)%nat /\
    out' = out ++ (frameLabel <$> fs).
Proof.
  revert p out. induction fuel as [|fuel IH]; intros p out.
  - cbn. destruct (p =? 0) eqn:Hp.
    + apply Z.eqb_eq in Hp. split.
      * intros [= <-]. exists []. cbn. by rewrite app_nil_r.
      * intros ([|f fs] & Hfs & Hlen & ->); cbn in *;
          [by rewrite app_nil_r | lia].
    + apply Z.eqb_neq in Hp. split; [discriminate |].
      intros ([|f fs] & Hfs & Hlen & ->); cbn in *; [done | lia].
  - cbn [fullStackLoop]. destruct (p =? 0) eqn:Hp.
    + apply Z.eqb_eq in Hp. split.
      * intros [= <-]. exists []. cbn. split; [done |].
        split; [lia | by rewrite app_nil_r].
      * intros ([|f fs] & Hfs & Hlen & ->); cbn in *;
          [by rewrite app_nil_r | by destruct Hfs].
    + apply Z.eqb_neq in Hp.
      destruct (memory c !! p) as [r|] eqn:Hmem; cbn.
      2:{ split; [discriminate |].
          intros ([|f fs] & Hfs & _); cbn in Hfs; [done |].
          destruct Hfs as (_ & Hf & _). congruence. }
      assert (Hother : (forall f, r <> StackFrame f) ->
                forall X : Prop,
                  @Panic (list string) WrongInterfaceConversion = Ret out'
                  <-> exists fs,
                        frameChain c p fs /\ (length fs <= S fuel)%nat /\
                        out' = out ++ (frameLabel <$> fs)).
      { intros Hr _. split; [discriminate |].
        intros ([|f fs] & Hfs & _); cbn in Hfs; [done |].
        destruct Hfs as (_ & Hf & _). destruct (Hr f). congruence. }
      destruct r; try (apply Hother; [discriminate | exact True]).
      rewrite ?bool_decide_eq_true_2 by eauto. cbn.
      rewrite IH. split.
      * intros (fs & Hfs & Hlen & ->). exists (r :: fs). cbn.
        split; [done |]. split; [lia |]. by rewrite <- app_assoc.
      * intros ([|f fs] & Hfs & Hlen & ->); cbn in Hfs; [done |].
        destruct Hfs as (_ & Hf & Hfs).
        assert (f = r) as -> by congruence.
        exists fs. cbn in Hlen |- *. split; [done |].
        split; [lia |]. by rewrite <- app_assoc.
Qed.

Lemma printChildren_chain (fuel : nat) (c : TreeClimber) (p : Z)
    (fs : list StackFrame.t) (s : Trace) :
  frameChain c p fs -> (length fs <= fuel)%nat ->
  printChildren fuel c p s
  = (mkTrace (seen s) (stdout s ++ (childLine <$> fs)), Ret None).
Proof.
  revert p fuel s. induction fs as [|f fs IH]; intros p fuel s Hfs Hlen.
  - cbn in Hfs. subst p. destruct fuel; cbn; rewrite app_nil_r; by destruct s.
  - destruct Hfs as (Hp & Hf & Hfs). destruct fuel as [|fuel]; [cbn in Hlen; lia |].
    cbn [printChildren]. apply Z.eqb_neq in Hp. rewrite Hp, Hf. cbn.
    rewrite ?bool_decide_eq_true_2 by eauto. cbn.
    rewrite (IH _ fuel) by (done || (cbn in Hlen; lia)).
    cbn. by rewrite <- app_assoc.
Qed.

(** X13: [fullStack] returns exactly when the ChildPointer links from the
    address lead through StackFrame records down to a frame without child,
    and it then returns their entries, in order, joined by the separator;
    on a chain that is broken by a missing record or by a record of
    another kind it does not return.  The anchor query writes one indented
    line for each frame of the same chain, in the same order. *)
Theorem fullStack_walks_the_chain (fuel : nat) (c : TreeClimber)
    (address : Z) (separator text : string) :
  (fullStack fuel c address separator = Ret text <->
   exists fs,
     frameChain c address fs /\ (length fs <= fuel)%nat /\
     text = String.concat separator (frameLabel <$> fs)) /\
  (forall fs s,
     frameChain c address fs -> (length fs <= fuel)%nat ->
     printChildren fuel c address s
     = (mkTrace (seen s) (stdout s ++ (childLine <$> fs)), Ret None)).
Proof.
  split; [| intros fs s; apply printChildren_chain].
  unfold fullStack. split.
  - intros Hrun. apply bind_Ret_inv in Hrun as (out & Hloop & [= <-]).
    apply fullStackLoop_chain in Hloop as (fs & Hfs & Hlen & ->).
    exists fs. done.
  - intros (fs & Hfs & Hlen & ->).
    assert (Hloop : fullStackLoop fuel c address [] = Ret (frameLabel <$> fs))
      by (apply fullStackLoop_chain; exists fs; done).
    rewrite Hloop. reflexivity.
Qed.

Lemma fullStack_walks_the_chain_witness :
  fullStack 2 climberFrames 16 ", "
  = Ret (String.concat ", " (frameLabel <$> [frameOuter; frameInner])) /\
  printChildren 2 climberFrames 16 (mkTrace ∅ [])
  = (mkTrace ∅ ([] ++ (childLine <$> [frameOuter; frameInner])), Ret None).
Proof.
  assert (Hchain : frameChain climberFrames 16 [frameOuter; frameInner]).
  { split; [done |]. split; [reflexivity |].
    split; [done |]. split; [reflexivity |]. reflexivity. }
  destruct (fullStack_walks_the_chain 2 climberFrames 16 ", "
              (String.concat ", " (frameLabel <$> [frameOuter; frameInner])))
    as [Hfull Hkids].
  split.
  - apply Hfull. exists [frameOuter; frameInner]. split; [exact Hchain |].
    split; [cbn; lia | reflexivity].
  - apply (Hkids [frameOuter; frameInner] (mkTrace ∅ []) Hchain).
    cbn. lia.
Defined.

(** ** Loading the symbols *)

Lemma readSymbolsLoop_spec (r : list Scanned3) (addr kind name : string)
    (g : Registry) :
  Forall scannedWhole r ->
  readSymbolsLoop r addr kind name g
  = (mkRegistry (writeAll symbolOf (nameMap g) (beforeEOF r)) (oidMap g),
     None).
Proof.
  intros Hr. revert addr kind name g.
  induction Hr as [|sc r Hsc _ IH]; intros addr kind name g;
    [by destruct g |].
  cbn [readSymbolsLoop beforeEOF]. unfold scannedWhole in Hsc.
  destruct (scan3_err sc) as [[|msg]|] eqn:Herr.
  - by destruct g.
  - rewrite IH, writeAll_cons. cbn.
    unfold symbolOf. rewrite Herr. reflexivity.
  - destruct (Hsc eq_refl) as ([a Ha] & [k Hk] & [n Hn]).
    rewrite IH, writeAll_cons. unfold symbolOf.
    rewrite Herr, Ha, Hn. cbn.
    destruct (scan3_n sc =? 3); [| reflexivity].
    destruct (ParseUint a) as [addrInt [e|]]; reflexivity.
Qed.

(** X14: [ReadSymbols] never returns an error, and a line that does not
    scan does not stop it: it reads on to the end of the input.  It leaves
    the OID map alone.  Afterwards an address has the name of the last line
    of three fields whose first field is that address as a hexadecimal
    number of at most 64 bits; an address that no such line gives keeps
    the name it had. *)
Theorem ReadSymbols_spec (r : list Scanned3) (g : Registry) :
  Forall scannedWhole r ->
  (ReadSymbols r g).2 = None /\
  oidMap (ReadSymbols r g).1 = oidMap g /\
  forall a name,
    nameMap (ReadSymbols r g).1 !! a = Some name <->
    (exists l1 sc l2,
       beforeEOF r = l1 ++ sc :: l2 /\ symbolOf sc = Some (a, name) /\
       forall sc' name', sc' ∈ l2 -> symbolOf sc' <> Some (a, name')) \/
    ((forall sc' name', sc' ∈ beforeEOF r -> symbolOf sc' <> Some (a, name')) /\
     nameMap g !! a = Some name).
Proof.
  intros Hr. unfold ReadSymbols. rewrite readSymbolsLoop_spec by exact Hr.
  cbn. split; [reflexivity |]. split; [reflexivity |].
  intros a name. apply writeAll_lookup.
Qed.

Lemma ReadSymbols_spec_witness :
  (ReadSymbols symbolLines initRegistry).2 = None /\
  oidMap (ReadSymbols symbolLines initRegistry).1 = oidMap initRegistry /\
  forall a name,
    nameMap (ReadSymbols symbolLines initRegistry).1 !! a = Some name <->
    (exists l1 sc l2,
       beforeEOF symbolLines = l1 ++ sc :: l2 /\
       symbolOf sc = Some (a, name) /\
       forall sc' name', sc' ∈ l2 -> symbolOf sc' <> Some (a, name')) \/
    ((forall sc' name',
        sc' ∈ beforeEOF symbolLines -> symbolOf sc' <> Some (a, name')) /\
     nameMap initRegistry !! a = Some name).
Proof.
  apply (ReadSymbols_spec symbolLines initRegistry).
  repeat (apply Forall_cons_2; [intros H; try discriminate; cbn; eauto |]).
  apply Forall_nil_2.
Defined.

(** ** Decoding what was encoded *)

Lemma byte_val_of (z : Z) : 0 <= z < 256 -> byte_val (byte_of z) = z.
Proof.
  intros Hz. unfold byte_val, byte_of.
  destruct (Byte.of_N (Z.to_N z)) as [b|] eqn:Hb.
  - apply Byte.to_of_N in Hb. cbn. lia.
  - apply Byte.of_N_None_iff in Hb. lia.
Qed.

Lemma readUvarintFrom_put (todo i : nat) (acc s v : Z) (rest : list byte) :
  (todo + i = MaxVarintLen64)%nat -> s = 7 * Z.of_nat i ->
  0 <= acc < 2 ^ s -> 0 <= v < 2 ^ (64 - s) ->
  readUvarintFrom todo i acc s (putUvarintFrom todo v ++ rest)
  = (acc + v * 2 ^ s, None, rest).
Proof.
  unfold MaxVarintLen64.
  revert i acc s v. induction todo as [|todo IH]; intros i acc s v Hi Hs Hacc Hv.
  { assert (64 - s < 0) by lia. rewrite Z.pow_neg_r in Hv by lia. lia. }
  assert (Hs0 : 0 <= s <= 63) by lia.
  assert (Hpow : 2 ^ (64 - s) * 2 ^ s = 2 ^ 64)
    by (rewrite <- Z.pow_add_r by lia; f_equal; lia).
  assert (HP : 0 < 2 ^ s) by (apply Z.pow_pos_nonneg; lia).
  cbn [putUvarintFrom readUvarintFrom].
  destruct (v <? 128) eqn:Hsmall.
  - apply Z.ltb_lt in Hsmall. cbn [app].
    rewrite byte_val_of by lia.
    replace (v <? 128) with true by (symmetry; apply Z.ltb_lt; lia).
    assert (Hlast : (i =? MaxVarintLen64 - 1)%nat && (1 <? v) = false).
    { destruct (Nat.eqb_spec i (MaxVarintLen64 - 1)) as [-> | _]; [| done].
      cbn. apply Z.ltb_ge. subst s.
      change (2 ^ (64 - 7 * Z.of_nat (MaxVarintLen64 - 1))) with 2 in Hv.
      lia. }
    rewrite Hlast. f_equal. f_equal.
    replace (wrap64 (shl v s)) with (shl v s); [by apply lor_shl; lia |].
    unfold wrap64, shl. rewrite Z.shiftl_mul_pow2 by lia.
    symmetry. apply Z.mod_small. nia.
  - apply Z.ltb_ge in Hsmall. cbn [app].
    assert (Hs56 : s <= 56).
    { destruct (Z.le_gt_cases s 56) as [|Hgt]; [done |].
      assert (2 ^ (64 - s) <= 2 ^ 7) by (apply Z.pow_le_mono_r; lia).
      change (2 ^ 7) with 128 in *. lia. }
    pose proof (Z.mod_pos_bound v 128 ltac:(lia)) as Hm.
    pose proof (Z.div_mod v 128 ltac:(lia)) as Hdm.
    rewrite byte_val_of by lia.
    replace (v mod 128 + 128 <? 128) with false
      by (symmetry; apply Z.ltb_ge; lia).
    assert (Hland : Z.land (v mod 128 + 128) 127 = v mod 128).
    { change 127 with (Z.ones 7). rewrite Z.land_ones by lia.
      change (2 ^ 7) with 128.
      rewrite <- Z.add_mod_idemp_r, Z.mod_same, Z.add_0_r by lia.
      apply Z.mod_small. lia. }
    rewrite Hland.
    assert (Hstep : 2 ^ (s + 7) = 2 ^ s * 128)
      by (rewrite Z.pow_add_r by lia; reflexivity).
    assert (Hpow' : 2 ^ (64 - (s + 7)) * 128 = 2 ^ (64 - s)).
    { change 128 with (2 ^ 7). rewrite <- Z.pow_add_r by lia. f_equal. lia. }
    assert (Hacc' : Z.lor acc (wrap64 (shl (v mod 128) s))
                    = acc + v mod 128 * 2 ^ s).
    { replace (wrap64 (shl (v mod 128) s)) with (shl (v mod 128) s);
        [by apply lor_shl; lia |].
      unfold wrap64, shl. rewrite Z.shiftl_mul_pow2 by lia.
      symmetry. apply Z.mod_small. nia. }
    rewrite Hacc'.
    assert (Hq : 0 <= v / 128 < 2 ^ (64 - (s + 7))).
    { split; [apply Z.div_pos; lia |].
      apply Z.div_lt_upper_bound; lia. }
    assert (Hacc2 : 0 <= acc + v mod 128 * 2 ^ s < 2 ^ (s + 7))
      by (rewrite Hstep; nia).
    rewrite (IH (S i) _ (s + 7) (v / 128) ltac:(lia) ltac:(lia) Hacc2 Hq).
    f_equal. f_equal. rewrite Hstep. nia.
Qed.

Lemma ReadUvarint_PutUvarint (x : Z) (rest : list byte) :
  isUint64 x -> ReadUvarint (PutUvarint x ++ rest) = (x, None, rest).
Proof.
  intros Hx. unfold ReadUvarint, PutUvarint.
  rewrite (readUvarintFrom_put MaxVarintLen64 0 0 0 x) by (done || lia).
  f_equal. f_equal. change (2 ^ 0) with 1. lia.
Qed.

Lemma PutUvarint_length (x : Z) : (1 <= length (PutUvarint x))%nat.
Proof.
  unfold PutUvarint, MaxVarintLen64. cbn [putUvarintFrom].
  destruct (x <? 128); cbn [length]; lia.
Qed.

Lemma ReadFull_exact (bs rest : list byte) :
  ReadFull (len bs) (bs ++ rest) = (bs, None, rest).
Proof.
  unfold ReadFull, len. rewrite Nat2Z.id, length_app.
  replace (length bs + length rest <? length bs)%nat with false
    by (symmetry; apply Nat.ltb_ge; lia).
  by rewrite take_app_length, drop_app_length.
Qed.

Lemma readFields_put (fs : list Z) (fuel : nat) (acc : list Z)
    (rest : list byte) :
  (length fs < fuel)%nat -> Forall isUint64 fs ->
  readFields fuel acc (putFieldList fs ++ rest) = Some (acc ++ fs, None, rest).
Proof.
  assert (H0 : isUint64 0) by (unfold isUint64; lia).
  assert (H1 : isUint64 1) by (unfold isUint64; lia).
  revert fuel acc. induction fs as [|f fs IH]; intros fuel acc Hfuel Hfs;
    (destruct fuel as [|fuel]; [cbn in Hfuel; lia |]).
  - unfold putFieldList. cbn [flat_map app readFields].
    rewrite ReadUvarint_PutUvarint by exact H0. cbn.
    by rewrite app_nil_r.
  - apply Forall_cons in Hfs as [Hf Hfs].
    unfold putFieldList. cbn [flat_map readFields].
    rewrite <- !app_assoc.
    rewrite ReadUvarint_PutUvarint by exact H1. cbn [Z.eqb Pos.eqb].
    rewrite ReadUvarint_PutUvarint by exact Hf. cbn [Z.eqb Pos.eqb].
    change (flat_map (fun f0 => PutUvarint 1 ++ PutUvarint f0) fs
            ++ PutUvarint 0 ++ rest)
      with (flat_map (fun f0 => PutUvarint 1 ++ PutUvarint f0) fs
            ++ (PutUvarint 0 ++ rest)).
    rewrite app_assoc. fold (putFieldList fs).
    rewrite IH by (done || (cbn in Hfuel; lia)).
    by rewrite <- app_assoc.
Qed.

Lemma putFieldList_length (fs : list Z) :
  (length fs < S (length (putFieldList fs)))%nat.
Proof.
  unfold putFieldList. rewrite length_app.
  pose proof (PutUvarint_length 0).
  induction fs as [|f fs IH]; cbn [flat_map length]; [lia |].
  rewrite !length_app.
  pose proof (PutUvarint_length 1). pose proof (PutUvarint_length f). lia.
Qed.

(** [Read] on the encoding of an address, of contents and of a field
    list. *)
Lemma Object_Read_put (g : Registry) (Address : Z) (Contents : list byte)
    (Fields : list Z) (rest : list byte) :
  isUint64 Address -> isUint64 (len Contents) -> Forall isUint64 Fields ->
  Object_Read g
    (PutUvarint Address ++ putBytes Contents ++ putFieldList Fields ++ rest)
  = Ret match classOf g Contents with
        | Some className =>
            (Object.mk Address Contents Fields className, None,
             AddName Address className g, rest)
        | None => (Object.mk Address Contents Fields "", None, g, rest)
        end.
Proof.
  intros Ha Hc Hf. unfold Object_Read, putBytes.
  rewrite <- !app_assoc.
  rewrite ReadUvarint_PutUvarint by exact Ha.
  rewrite ReadUvarint_PutUvarint by exact Hc.
  rewrite ReadFull_exact.
  rewrite readFields_put; [| | exact Hf].
  2:{ rewrite length_app. pose proof (putFieldList_length Fields). lia. }
  cbn [app]. unfold classOf.
  destruct (Z.ltb_spec 8 (len Contents)) as [Hlen | Hlen]; [| reflexivity].
  unfold len in Hlen.
  destruct Contents as [|b0 [|b1 [|b2 [|b3 [|b4 [|b5 [|b6 [|b7 more]]]]]]]];
    cbn in Hlen; try lia.
  rewrite (Uint64_decode false). cbn [mbind result_bind decode_uint].
  cbn [firstn take]. change (take 0 more) with (@nil byte).
  destruct (oidMap g !! _); reflexivity.
Qed.

(** X15: [Read] decodes the encoding of every Object, and leaves the
    stream exactly behind it; an Object of more than 8 bytes whose first 8
    bytes are a registered OID comes back with the class name, which is
    also entered in the name map for the address of the Object. *)
Theorem Object_Read_decodes (g : Registry) (o : Object.t)
    (rest : list byte) :
  isUint64 (Object.Address o) -> isUint64 (len (Object.Contents o)) ->
  Forall isUint64 (Object.Fields o) -> Object.Name o = ""%string ->
  Object_Read g (putObject o ++ rest)
  = Ret match classOf g (Object.Contents o) with
        | Some className =>
            (Object.mk (Object.Address o) (Object.Contents o)
               (Object.Fields o) className,
             None, AddName (Object.Address o) className g, rest)
        | None => (o, None, g, rest)
        end.
Proof.
  destruct o as [Address Contents Fields Name].
  cbn [Object.Address Object.Contents Object.Fields Object.Name].
  intros Ha Hc Hf ->. unfold putObject.
  cbn [Object.Address Object.Contents Object.Fields].
  rewrite <- !app_assoc.
  exact (Object_Read_put g Address Contents Fields rest Ha Hc Hf).
Qed.

Lemma Object_Read_decodes_witness :
  Object_Read registryFoo
    (putObject
       (Object.mk 16 [x01; x00; x00; x00; x00; x00; x00; x00; x00] [0; 300] "")
     ++ [xff])
  = Ret match
          classOf registryFoo [x01; x00; x00; x00; x00; x00; x00; x00; x00]
        with
        | Some className =>
            (Object.mk 16 [x01; x00; x00; x00; x00; x00; x00; x00; x00]
               [0; 300] className,
             None, AddName 16 className registryFoo, [xff])
        | None =>
            (Object.mk 16 [x01; x00; x00; x00; x00; x00; x00; x00; x00]
               [0; 300] "",
             None, registryFoo, [xff])
        end.
Proof.
  apply (Object_Read_decodes registryFoo
           (Object.mk 16 [x01; x00; x00; x00; x00; x00; x00; x00; x00]
              [0; 300] "") [xff]).
  - unfold isUint64. cbn. lia.
  - unfold isUint64, len. cbn. lia.
  - repeat (apply Forall_cons_2; [unfold isUint64; lia |]). apply Forall_nil_2.
  - reflexivity.
Defined.

(** ** Decoding the other records *)

Lemma list_byte_of_string_length (s : string) :
  length (list_byte_of_string s) = String.length s.
Proof.
  unfold list_byte_of_string. rewrite List.length_map.
  induction s as [|ch s IH]; [reflexivity |]. cbn. by rewrite IH.
Qed.

Section Fields.
Context {R : Type}.

Lemma andThen_ok (a b : Reading R) (r r' : R) (reader reader' : list byte) :
  a r reader = (r', None, reader') -> (a ;; b) r reader = b r' reader'.
Proof. intros H. unfold andThen. by rewrite H. Qed.

Lemma uvarint_put (set : Z -> R -> R) (r : R) (x : Z) (rest : list byte) :
  isUint64 x -> uvarint set r (PutUvarint x ++ rest) = (set x r, None, rest).
Proof. intros Hx. unfold uvarint. by rewrite ReadUvarint_PutUvarint. Qed.

Lemma status_put (set : Z -> R -> R) (r : R) (x : Z) (rest : list byte) :
  isUint64 x -> status set r (PutUvarint x ++ rest) = (set x r, None, rest).
Proof. intros Hx. unfold status. by rewrite ReadUvarint_PutUvarint. Qed.

Lemma boolean_put (set : bool -> R -> R) (r : R) (b : bool)
    (rest : list byte) :
  boolean set r (putBool b ++ rest) = (set b r, None, rest).
Proof.
  unfold boolean, putBool.
  rewrite ReadUvarint_PutUvarint by (unfold isUint64; destruct b; lia).
  by destruct b.
Qed.

Lemma bytes_put (set : list byte -> R -> R) (r : R) (bs rest : list byte) :
  isUint64 (len bs) ->
  bytes set r (putBytes bs ++ rest) = (set bs r, None, rest).
Proof.
  intros Hlen. unfold bytes, putBytes. rewrite <- app_assoc.
  by rewrite ReadUvarint_PutUvarint, ReadFull_exact.
Qed.

Lemma text_put (set : string -> R -> R) (r : R) (s : string)
    (rest : list byte) :
  isUint64 (strlen s) ->
  text set r (putString s ++ rest) = (set s r, None, rest).
Proof.
  intros Hlen. unfold text, putString, putBytes. rewrite <- app_assoc.
  rewrite ReadUvarint_PutUvarint, ReadFull_exact.
  - by rewrite string_of_list_byte_of_string.
  - unfold len. by rewrite list_byte_of_string_length.
Qed.

Lemma fieldlist_put (set : list Z -> R -> R) (r : R) (fs : list Z)
    (rest : list byte) :
  Forall isUint64 fs ->
  fieldlist set r (putFieldList fs ++ rest) = (set fs r, None, rest).
Proof.
  intros Hfs. unfold fieldlist, ReadFieldList.
  rewrite readFields_put; [reflexivity | | exact Hfs].
  rewrite length_app. pose proof (putFieldList_length fs). lia.
Qed.

End Fields.

Ltac decode_field :=
  first [ apply uvarint_put | apply status_put | apply boolean_put
        | apply bytes_put | apply text_put | apply fieldlist_put ].

Ltac decode_fields :=
  rewrite <- ?app_assoc;
  repeat (erewrite andThen_ok; [| decode_field; assumption]);
  try (etransitivity; [decode_field; assumption |]).
Lemma OtherRoot_Read_put (r : OtherRoot.t)
    (rest : list byte) :
  wellFormedOtherRoot r ->
  OtherRoot_Read OtherRoot_zero
    (putOtherRoot r ++ rest)
  = (r, None, rest).
Proof.
  unfold wellFormedOtherRoot, OtherRoot_Read,
    putOtherRoot.
  intros (H0 & H1).
  decode_fields. by destruct r.
Qed.

Lemma TypeDescriptor_Read_put (r : TypeDescriptor.t)
    (rest : list byte) :
  wellFormedTypeDescriptor r ->
  TypeDescriptor_Read TypeDescriptor_zero
    (putTypeDescriptor r ++ rest)
  = (r, None, rest).
Proof.
  unfold wellFormedTypeDescriptor, TypeDescriptor_Read,
    putTypeDescriptor.
  intros (H0 & H1 & H2).
  decode_fields. by destruct r.
Qed.

Lemma Goroutine_Read_put (r : Goroutine.t)
    (rest : list byte) :
  wellFormedGoroutine r ->
  Goroutine_Read Goroutine_zero
    (putGoroutine r ++ rest)
  = (r, None, rest).
Proof.
  unfold wellFormedGoroutine, Goroutine_Read,
    putGoroutine.
  intros (H0 & H1 & H2 & H3 & H4 & H5 & H6 & H7 & H8 & H9 & H10).
  decode_fields. by destruct r.
Qed.

Lemma StackFrame_Read_put (r : StackFrame.t)
    (rest : list byte) :
  wellFormedStackFrame r ->
  StackFrame_Read StackFrame_zero
    (putStackFrame r ++ rest)
  = (r, None, rest).
Proof.
  unfold wellFormedStackFrame, StackFrame_Read,
    putStackFrame.
  intros (H0 & H1 & H2 & H3 & H4 & H5 & H6 & H7 & H8).
  decode_fields. by destruct r.
Qed.

Lemma DumpParams_Read_put (r : DumpParams.t)
    (rest : list byte) :
  wellFormedDumpParams r ->
  DumpParams_Read DumpParams_zero
    (putDumpParams r ++ rest)
  = (r, None, rest).
Proof.
  unfold wellFormedDumpParams, DumpParams_Read,
    putDumpParams.
  intros (H0 & H1 & H2 & H3 & H4 & H5).
  decode_fields. by destruct r.
Qed.

Lemma RegisteredFinalizer_Read_put (r : RegisteredFinalizer.t)
    (rest : list byte) :
  wellFormedRegisteredFinalizer r ->
  RegisteredFinalizer_Read RegisteredFinalizer_zero
    (putRegisteredFinalizer r ++ rest)
  = (r, None, rest).
Proof.
  unfold wellFormedRegisteredFinalizer, RegisteredFinalizer_Read,
    putRegisteredFinalizer.
  intros (H0 & H1 & H2 & H3 & H4).
  decode_fields. by destruct r.
Qed.

Lemma Itab_Read_put (r : Itab.t)
    (rest : list byte) :
  wellFormedItab r ->
  Itab_Read Itab_zero
    (putItab r ++ rest)
  = (r, None, rest).
Proof.
  unfold wellFormedItab, Itab_Read,
    putItab.
  intros (H0 & H1).
  decode_fields. by destruct r.
Qed.

Lemma OsThread_Read_put (r : OsThread.t)
    (rest : list byte) :
  wellFormedOsThread r ->
  OsThread_Read OsThread_zero
    (putOsThread r ++ rest)
  = (r, None, rest).
Proof.
  unfold wellFormedOsThread, OsThread_Read,
    putOsThread.
  intros (H0 & H1 & H2).
  decode_fields. by destruct r.
Qed.

Lemma QueuedFinalizer_Read_put (r : QueuedFinalizer.t)
    (rest : list byte) :
  wellFormedQueuedFinalizer r ->
  QueuedFinalizer_Read QueuedFinalizer_zero
    (putQueuedFinalizer r ++ rest)
  = (r, None, rest).
Proof.
  unfold wellFormedQueuedFinalizer, QueuedFinalizer_Read,
    putQueuedFinalizer.
  intros (H0 & H1 & H2 & H3 & H4).
  decode_fields. by destruct r.
Qed.

Lemma DataSegment_Read_put (r : DataSegment.t)
    (rest : list byte) :
  wellFormedDataSegment r ->
  DataSegment_Read DataSegment_zero
    (putDataSegment r ++ rest)
  = (r, None, rest).
Proof.
  unfold wellFormedDataSegment, DataSegment_Read,
    putDataSegment.
  intros (H0 & H1 & H2).
  decode_fields. by destruct r.
Qed.

Lemma BssSegment_Read_put (r : BssSegment.t)
    (rest : list byte) :
  wellFormedBssSegment r ->
  BssSegment_Read BssSegment_zero
    (putBssSegment r ++ rest)
  = (r, None, rest).
Proof.
  unfold wellFormedBssSegment, BssSegment_Read,
    putBssSegment.
  intros (H0 & H1 & H2).
  decode_fields. by destruct r.
Qed.

Lemma DeferRecord_Read_put (r : DeferRecord.t)
    (rest : list byte) :
  wellFormedDeferRecord r ->
  DeferRecord_Read DeferRecord_zero
    (putDeferRecord r ++ rest)
  = (r, None, rest).
Proof.
  unfold wellFormedDeferRecord, DeferRecord_Read,
    putDeferRecord.
  intros (H0 & H1 & H2 & H3 & H4 & H5 & H6).
  decode_fields. by destruct r.
Qed.

Lemma PanicRecord_Read_put (r : PanicRecord.t)
    (rest : list byte) :
  wellFormedPanicRecord r ->
  PanicRecord_Read PanicRecord_zero
    (putPanicRecord r ++ rest)
  = (r, None, rest).
Proof.
  unfold wellFormedPanicRecord, PanicRecord_Read,
    putPanicRecord.
  intros (H0 & H1 & H2 & H3 & H4 & H5).
  decode_fields. by destruct r.
Qed.

Lemma AllocStackTraceSample_Read_put (r : AllocStackTraceSample.t)
    (rest : list byte) :
  wellFormedAllocStackTraceSample r ->
  AllocStackTraceSample_Read AllocStackTraceSample_zero
    (putAllocStackTraceSample r ++ rest)
  = (r, None, rest).
Proof.
  unfold wellFormedAllocStackTraceSample, AllocStackTraceSample_Read,
    putAllocStackTraceSample.
  intros (H0 & H1).
  decode_fields. by destruct r.
Qed.

Lemma MemStats_PauseNs_put (vs : list Z) (n i : nat) (r : MemStats.t)
    (rest : list byte) :
  length vs = n -> Forall isUint64 vs ->
  (i + n <= length (MemStats.PauseNs r))%nat ->
  uvarints n i MemStats_set_PauseNs_at r (flat_map PutUvarint vs ++ rest)
  = (MemStats_set_PauseNs
       (take i (MemStats.PauseNs r) ++ vs ++
        drop (i + n) (MemStats.PauseNs r)) r,
     None, rest).
Proof.
  intros <-. revert i r. induction vs as [|v vs IH]; intros i r Hvs Hlen.
  - cbn. rewrite Nat.add_0_r, take_drop. by destruct r.
  - apply Forall_cons in Hvs as [Hv Hvs].
    cbn [length uvarints flat_map] in Hlen |- *. rewrite <- app_assoc.
    erewrite andThen_ok by (apply uvarint_put; exact Hv).
    rewrite IH; [| exact Hvs |].
    2:{ destruct r; cbn. rewrite length_insert. cbn in Hlen. lia. }
    f_equal. f_equal. destruct r.
    unfold MemStats_set_PauseNs_at, MemStats_set_PauseNs.
    cbn in Hlen |- *. f_equal.
    rewrite (take_S_r _ _ v) by (apply list_lookup_insert_eq; lia).
    rewrite take_insert_ge by lia. rewrite drop_insert_lt by lia.
    rewrite <- app_assoc, Nat.add_succ_r. reflexivity.
Qed.

Lemma MemStats_Read_put (r : MemStats.t) (rest : list byte) :
  wellFormedMemStats r ->
  MemStats_Read MemStats_zero (putMemStats r ++ rest) = (r, None, rest).
Proof.
  unfold wellFormedMemStats, MemStats_Read, putMemStats.
  intros (H0 & H1 & H2 & H3 & H4 & H5 & H6 & H7 & H8 & H9 & H10 & H11 &
          H12 & H13 & H14 & H15 & H16 & H17 & H18 & H19 & H20 & H21 & H22 &
          H23 & Hlen & Hpause & HnumGC).
  decode_fields.
  erewrite andThen_ok
    by (apply MemStats_PauseNs_put; [exact Hlen | exact Hpause | cbn; lia]).
  etransitivity; [apply uvarint_put; exact HnumGC |].
  clear - Hlen. destruct r. cbn in Hlen |- *.
  by rewrite app_nil_r.
Qed.

Lemma frame_alters (l : list AllocFreeProfileRecord.frame) (i : nat)
    (Name Filename : string) (Line : Z) :
  alter (fun f => AllocFreeProfileRecord.mkframe
                    (AllocFreeProfileRecord.Name f)
                    (AllocFreeProfileRecord.Filename f) Line) i
    (alter (fun f => AllocFreeProfileRecord.mkframe
                       (AllocFreeProfileRecord.Name f) Filename
                       (AllocFreeProfileRecord.Line f)) i
       (alter (fun f => AllocFreeProfileRecord.mkframe Name
                          (AllocFreeProfileRecord.Filename f)
                          (AllocFreeProfileRecord.Line f)) i l))
  = <[i := AllocFreeProfileRecord.mkframe Name Filename Line]> l.
Proof.
  revert i. induction l as [|f l IH]; intros [|i]; cbn; try done.
  by rewrite IH.
Qed.

Lemma readFramesFrom_put (fs : list AllocFreeProfileRecord.frame) (i : nat)
    (r : AllocFreeProfileRecord.t) (rest : list byte) :
  Forall wellFormedFrame fs ->
  (i + length fs <= length (AllocFreeProfileRecord.Frames r))%nat ->
  readFramesFrom (length fs) i r (flat_map putFrame fs ++ rest)
  = (AllocFreeProfileRecord_set_Frames
       (take i (AllocFreeProfileRecord.Frames r) ++ fs ++
        drop (i + length fs) (AllocFreeProfileRecord.Frames r)) r,
     None, rest).
Proof.
  revert i r. induction fs as [|f fs IH]; intros i r Hfs Hlen.
  - cbn. rewrite Nat.add_0_r, take_drop. by destruct r.
  - apply Forall_cons in Hfs as [(Hname & Hfile & Hline) Hfs].
    cbn [length readFramesFrom flat_map] in Hlen |- *.
    unfold putFrame at 1. rewrite <- !app_assoc.
    erewrite andThen_ok by (apply text_put; exact Hname).
    erewrite andThen_ok by (apply text_put; exact Hfile).
    erewrite andThen_ok by (apply uvarint_put; exact Hline).
    destruct r as [Id Size Frames AllocationCount FreeCount].
    destruct f as [Name Filename Line].
    unfold AllocFreeProfileRecord_set_Frame_Name,
      AllocFreeProfileRecord_set_Frame_Filename,
      AllocFreeProfileRecord_set_Frame_Line,
      AllocFreeProfileRecord_set_Frames.
    cbn [AllocFreeProfileRecord.Frames AllocFreeProfileRecord.Id
           AllocFreeProfileRecord.Size AllocFreeProfileRecord.AllocationCount
           AllocFreeProfileRecord.FreeCount] in Hlen |- *.
    rewrite frame_alters.
    rewrite IH; [| exact Hfs | cbn; rewrite length_insert; lia].
    unfold AllocFreeProfileRecord_set_Frames.
    cbn [AllocFreeProfileRecord.Frames AllocFreeProfileRecord.Id
           AllocFreeProfileRecord.Size AllocFreeProfileRecord.AllocationCount
           AllocFreeProfileRecord.FreeCount].
    f_equal. f_equal. f_equal.
    rewrite (take_S_r _ _ (AllocFreeProfileRecord.mkframe Name Filename Line))
      by (apply list_lookup_insert_eq; lia).
    rewrite take_insert_ge by lia. rewrite drop_insert_lt by lia.
    rewrite <- app_assoc, Nat.add_succ_r. reflexivity.
Qed.

Lemma readFrames_put (fs : list AllocFreeProfileRecord.frame)
    (r : AllocFreeProfileRecord.t) (rest : list byte) :
  isUint64 (len fs) -> Forall wellFormedFrame fs ->
  readFrames r (putFrames fs ++ rest)
  = (AllocFreeProfileRecord_set_Frames fs r, None, rest).
Proof.
  intros Hlen Hfs. unfold readFrames, putFrames. rewrite <- app_assoc.
  rewrite ReadUvarint_PutUvarint by exact Hlen.
  unfold len. rewrite Nat2Z.id.
  rewrite readFramesFrom_put; [| exact Hfs |].
  2:{ destruct r; cbn. rewrite length_replicate. lia. }
  destruct r; cbn. rewrite drop_ge by (rewrite length_replicate; lia).
  by rewrite app_nil_r.
Qed.

Lemma AllocFreeProfileRecord_Read_put (r : AllocFreeProfileRecord.t)
    (rest : list byte) :
  wellFormedAllocFreeProfileRecord r ->
  AllocFreeProfileRecord_Read AllocFreeProfileRecord_zero
    (putAllocFreeProfileRecord r ++ rest)
  = (r, None, rest).
Proof.
  unfold wellFormedAllocFreeProfileRecord, AllocFreeProfileRecord_Read,
    putAllocFreeProfileRecord.
  intros (H0 & H1 & Hlen & Hframes & H2 & H3).
  decode_fields.
  erewrite andThen_ok by (apply readFrames_put; assumption).
  decode_fields. by destruct r.
Qed.

(** [ReadRecord] on the encoding of a record. *)
Lemma ReadRecord_put (g : Registry) (r : Record) (rest : list byte) :
  wellFormed r ->
  ReadRecord g (putRecord r ++ rest)
  = Ret (Some (classed g r), None, registered g r, rest).
Proof.
  intros Hwf. unfold ReadRecord, putRecord. rewrite <- app_assoc.
  rewrite ReadUvarint_PutUvarint by (unfold isUint64; destruct r; cbn; lia).
  destruct r; cbn [recordType Z.eqb Pos.eqb putFields wellFormed classed
                     registered] in Hwf |- *; try reflexivity;
    unfold readInto.
  - destruct Hwf as (Ha & Hc & Hf & Hn).
    destruct r as [Address Contents Fields Name].
    cbn [Object.Address Object.Contents Object.Fields Object.Name] in *.
    subst Name. unfold putObject.
    cbn [Object.Address Object.Contents Object.Fields].
    rewrite <- !app_assoc, Object_Read_put by assumption.
    by destruct (classOf g Contents).
  - by rewrite OtherRoot_Read_put.
  - by rewrite TypeDescriptor_Read_put.
  - by rewrite Goroutine_Read_put.
  - by rewrite StackFrame_Read_put.
  - by rewrite DumpParams_Read_put.
  - by rewrite RegisteredFinalizer_Read_put.
  - by rewrite Itab_Read_put.
  - by rewrite OsThread_Read_put.
  - by rewrite MemStats_Read_put.
  - by rewrite QueuedFinalizer_Read_put.
  - by rewrite DataSegment_Read_put.
  - by rewrite BssSegment_Read_put.
  - by rewrite DeferRecord_Read_put.
  - by rewrite PanicRecord_Read_put.
  - by rewrite AllocFreeProfileRecord_Read_put.
  - by rewrite AllocStackTraceSample_Read_put.
Qed.

(** X16: [ReadRecord] decodes the encoding of every record of the 18
    kinds, whatever follows it on the stream, and leaves the stream
    exactly behind the record.  The record that comes back is of the kind
    that the tag names; the OID registry is as it was, and so is the name
    map unless the record is an Object with a registered OID. *)
Theorem ReadRecord_decodes (g : Registry) (r : Record) (rest : list byte) :
  wellFormed r ->
  ReadRecord g (putRecord r ++ rest)
  = Ret (Some (classed g r), None, registered g r, rest) /\
  recordType (classed g r) = recordType r /\
  oidMap (registered g r) = oidMap g /\
  ((forall o, r <> Object o) -> registered g r = g).
Proof.
  intros Hwf. split; [by apply ReadRecord_put |].
  split; [| split].
  - destruct r; try reflexivity. cbn. by destruct (classOf g _).
  - destruct r; try reflexivity. cbn. by destruct (classOf g _).
  - intros Hobj. destruct r; try reflexivity. by destruct (Hobj r).
Qed.

Lemma ReadRecord_decodes_witness :
  ReadRecord initRegistry (putRecord (StackFrame frameOuter) ++ [x00])
  = Ret (Some (classed initRegistry (StackFrame frameOuter)), None,
         registered initRegistry (StackFrame frameOuter), [x00]) /\
  recordType (classed initRegistry (StackFrame frameOuter))
  = recordType (StackFrame frameOuter) /\
  oidMap (registered initRegistry (StackFrame frameOuter))
  = oidMap initRegistry /\
  ((forall o, StackFrame frameOuter <> Object o) ->
   registered initRegistry (StackFrame frameOuter) = initRegistry).
Proof.
  apply (ReadRecord_decodes initRegistry (StackFrame frameOuter) [x00]).
  cbn. unfold wellFormedStackFrame, isUint64, len, strlen. cbn.
  repeat split; try lia.
  repeat (apply Forall_cons_2; [lia |]). apply Forall_nil_2.
Defined.

(** ** The build on the bytes of a dump *)

Lemma ReadUvarint_rest (reader : list byte) :
  (length (ReadUvarint reader).2 <= length reader)%nat /\
  ((ReadUvarint reader).1.2 = None ->
   (length (ReadUvarint reader).2 < length reader)%nat).
Proof.
  unfold ReadUvarint.
  pose proof (readUvarintFrom_rest MaxVarintLen64 0 0 0 reader) as H.
  by destruct (readUvarintFrom MaxVarintLen64 0 0 0 reader) as [[v e] rest].
Qed.

Lemma ReadFull_rest (n : Z) (reader : list byte) :
  (length (ReadFull n reader).2 <= length reader)%nat.
Proof.
  unfold ReadFull. destruct (_ <? _)%nat; cbn; [lia |].
  rewrite length_drop. lia.
Qed.

Lemma readFields_rest (fuel : nat) (Fields : list Z) (reader : list byte)
    (out : list Z * option error * list byte) :
  readFields fuel Fields reader = Some out ->
  (length out.2 <= length reader)%nat.
Proof.
  revert Fields reader. induction fuel as [|fuel IH]; intros Fields reader;
    [discriminate |].
  cbn [readFields].
  pose proof (ReadUvarint_rest reader) as [H1 _].
  destruct (ReadUvarint reader) as [[kind e1] r1]. cbn in H1.
  destruct e1; [intros [= <-]; exact H1 |].
  destruct (kind =? 0); [intros [= <-]; exact H1 |].
  pose proof (ReadUvarint_rest r1) as [H2 _].
  destruct (ReadUvarint r1) as [[value e2] r2]. cbn in H2.
  intros H. apply IH in H. lia.
Qed.

Section Shrinking.
Context {R : Type}.

Lemma shrinking_andThen (a b : Reading R) :
  shrinking a -> shrinking b -> shrinking (a ;; b).
Proof.
  intros Ha Hb r reader. unfold andThen.
  specialize (Ha r reader). destruct (a r reader) as [[r1 e] reader1].
  cbn in Ha. destruct e; [exact Ha |].
  specialize (Hb r1 reader1). lia.
Qed.

Lemma shrinking_uvarint (set : Z -> R -> R) : shrinking (uvarint set).
Proof.
  intros r reader. unfold uvarint.
  pose proof (ReadUvarint_rest reader) as [H _].
  by destruct (ReadUvarint reader) as [[v e] rest].
Qed.

Lemma shrinking_status (set : Z -> R -> R) : shrinking (status set).
Proof.
  intros r reader. unfold status.
  pose proof (ReadUvarint_rest reader) as [H _].
  by destruct (ReadUvarint reader) as [[v [e|]] rest].
Qed.

Lemma shrinking_boolean (set : bool -> R -> R) : shrinking (boolean set).
Proof.
  intros r reader. unfold boolean.
  pose proof (ReadUvarint_rest reader) as [H _].
  by destruct (ReadUvarint reader) as [[v [e|]] rest].
Qed.

Lemma shrinking_text (set : string -> R -> R) : shrinking (text set).
Proof.
  intros r reader. unfold text.
  pose proof (ReadUvarint_rest reader) as [H _].
  destruct (ReadUvarint reader) as [[v [e|]] rest]; [exact H |].
  pose proof (ReadFull_rest v rest) as H2.
  destruct (ReadFull v rest) as [[buf [e|]] rest2]; cbn in *; lia.
Qed.

Lemma shrinking_bytes (set : list byte -> R -> R) : shrinking (bytes set).
Proof.
  intros r reader. unfold bytes.
  pose proof (ReadUvarint_rest reader) as [H _].
  destruct (ReadUvarint reader) as [[v [e|]] rest]; [exact H |].
  pose proof (ReadFull_rest v rest) as H2.
  destruct (ReadFull v rest) as [[buf e] rest2]; cbn in *; lia.
Qed.

Lemma shrinking_fieldlist (set : list Z -> R -> R) :
  shrinking (fieldlist set).
Proof.
  intros r reader. unfold fieldlist, ReadFieldList.
  destruct (readFields _ [] reader) as [[[fs e] rest]|] eqn:H; [| cbn; lia].
  by apply readFields_rest in H.
Qed.

Lemma shrinking_uvarints (todo i : nat) (set : nat -> Z -> R -> R) :
  shrinking (uvarints todo i set).
Proof.
  revert i. induction todo as [|todo IH]; intros i; [intros r reader; cbn; lia |].
  cbn [uvarints]. apply shrinking_andThen; [apply shrinking_uvarint | apply IH].
Qed.

End Shrinking.

Lemma shrinking_readFramesFrom (todo i : nat) :
  shrinking (readFramesFrom todo i).
Proof.
  revert i. induction todo as [|todo IH]; intros i; [intros r reader; cbn; lia |].
  cbn [readFramesFrom].
  repeat (apply shrinking_andThen;
          [apply shrinking_text || apply shrinking_uvarint |]).
  apply IH.
Qed.

Lemma shrinking_readFrames : shrinking readFrames.
Proof.
  intros r reader. unfold readFrames.
  pose proof (ReadUvarint_rest reader) as [H _].
  destruct (ReadUvarint reader) as [[v [e|]] rest]; [exact H |].
  cbn in H.
  match goal with
  | |- context [readFramesFrom ?n 0 ?r1 rest] =>
      pose proof (shrinking_readFramesFrom n 0 r1 rest)
  end. lia.
Qed.

Ltac shrinks :=
  repeat first
    [ apply shrinking_uvarints | apply shrinking_readFrames
    | apply shrinking_andThen | apply shrinking_uvarint
    | apply shrinking_status | apply shrinking_boolean
    | apply shrinking_text | apply shrinking_bytes
    | apply shrinking_fieldlist ].

Lemma Object_Read_rest (g : Registry) (reader : list byte) :
  exists r err g' rest,
    Object_Read g reader = Ret (r, err, g', rest) /\
    (length rest <= length reader)%nat.
Proof.
  unfold Object_Read.
  pose proof (ReadUvarint_rest reader) as [H1 _].
  destruct (ReadUvarint reader) as [[Address e1] r1]. cbn in H1.
  destruct e1; [by eauto 10 |].
  pose proof (ReadUvarint_rest r1) as [H2 _].
  destruct (ReadUvarint r1) as [[ContentsLen e2] r2]. cbn in H2.
  destruct e2; [eexists _, _, _, _; split; [done | lia] |].
  pose proof (ReadFull_rest ContentsLen r2) as H3.
  destruct (ReadFull ContentsLen r2) as [[Contents e3] r3]. cbn in H3.
  destruct e3; [eexists _, _, _, _; split; [done | lia] |].
  pose proof (readFields_total (S (length r3)) [] r3 ltac:(lia)) as Htot.
  destruct (readFields (S (length r3)) [] r3) as [[[Fields e4] r4]|] eqn:H4;
    [| congruence].
  apply readFields_rest in H4. cbn in H4.
  destruct e4; [eexists _, _, _, _; split; [done | lia] |].
  destruct (Z.ltb_spec 8 (len Contents)) as [Hlen | Hlen];
    [| eexists _, _, _, _; split; [done | lia]].
  unfold len in Hlen.
  destruct Contents as [|b0 [|b1 [|b2 [|b3 [|b4 [|b5 [|b6 [|b7 more]]]]]]]];
    cbn in Hlen; try lia.
  cbn. destruct (oidMap g !! _);
    eexists _, _, _, _; (split; [done | lia]).
Qed.

(** [ReadRecord] returns, with a record unless with an error; and a call
    without error has consumed some of the stream. *)
Lemma ReadRecord_returns (g : Registry) (reader : list byte) :
  exists record err g' rest,
    ReadRecord g reader = Ret (record, err, g', rest) /\
    (err = None -> is_Some record /\ (length rest < length reader)%nat).
Proof.
  unfold ReadRecord.
  pose proof (ReadUvarint_rest reader) as [_ Hlt].
  destruct (ReadUvarint reader) as [[rt e] r1]. cbn in Hlt.
  destruct e as [e|];
    [eexists _, _, _, _; split; [reflexivity | discriminate] |].
  specialize (Hlt eq_refl).
  assert (Hinto : forall (R : Type) (wrap : R -> Record) (Read : Reading R)
                         (zero : R),
            shrinking Read ->
            exists record err g' rest,
              readInto wrap Read zero g r1 = Ret (record, err, g', rest) /\
              (err = None ->
               is_Some record /\ (length rest < length reader)%nat)).
  { intros R wrap Read zero HRead. unfold readInto.
    specialize (HRead zero r1).
    destruct (Read zero r1) as [[r err] rest]. cbn in HRead.
    eexists _, _, _, _. split; [reflexivity |].
    intros _. split; [by eexists | lia]. }
  destruct (rt =? 0).
  { eexists _, _, _, _. split; [reflexivity |]. intros _.
    split; [by eexists | lia]. }
  destruct (rt =? 1).
  { destruct (Object_Read_rest g r1) as (r & err & g' & rest & -> & Hle).
    cbn. eexists _, _, _, _. split; [reflexivity |]. intros _.
    split; [by eexists | lia]. }
  repeat (destruct (rt =? _);
          [apply Hinto;
           unfold OtherRoot_Read, TypeDescriptor_Read, Goroutine_Read,
             StackFrame_Read, DumpParams_Read, RegisteredFinalizer_Read,
             Itab_Read, OsThread_Read, MemStats_Read, QueuedFinalizer_Read,
             DataSegment_Read, BssSegment_Read, DeferRecord_Read,
             PanicRecord_Read, AllocFreeProfileRecord_Read,
             AllocStackTraceSample_Read; shrinks |]).
  eexists _, _, _, _. split; [reflexivity | discriminate].
Qed.



Lemma bind_returns {A B : Type} (m : result A) (k : A -> result B) :
  m <> Diverge -> (forall a, k a <> Diverge) -> m ≫= k <> Diverge.
Proof. intros Hm Hk. destruct m; cbn; [apply Hk | done | done]. Qed.

Lemma pointerLoop_returns (byteOrder : ByteOrder) (PointerSize address : Z)
    (contents : list byte) (fields : list Z) :
  pointerLoop byteOrder PointerSize address contents fields <> Diverge.
Proof.
  induction fields as [|offset fields IH]; [discriminate |].
  cbn [pointerLoop]. apply bind_returns.
  - assert (Hslice : forall read : list byte -> result Z,
              (forall b, read b <> Diverge) ->
              slice_from contents offset ≫= read <> Diverge).
    { intros read Hread. apply bind_returns; [| exact Hread].
      unfold slice_from. repeat case_match; discriminate. }
    repeat case_match; try discriminate; apply Hslice; intros b;
      unfold Uint16, Uint32, Uint64; repeat case_match; discriminate.
  - intros target. apply bind_returns; [exact IH |].
    intros [s t]. discriminate.
Qed.




(** ** Printing the records *)

(** One turn of the build on a record other than [Eof] is the call of the
    pointer extractor on an Owner and nothing that could fail on another
    record; only a DumpParams record changes [params]. *)
Lemma buildRecord_as_pointers (c : TreeClimber) (r : Record) :
  match asOwner r with
  | Some o =>
      match GetPointers o (params c) with
      | Ret _ => exists c', buildRecord c r = Ret c' /\ params c' = params c
      | Panic p => buildRecord c r = Panic p
      | Diverge => buildRecord c r = Diverge
      end
  | None =>
      exists c',
        buildRecord c r = Ret c' /\
        params c' = match r with
                    | DumpParams p => Some p
                    | _ => params c
                    end
  end.
Proof.
  unfold buildRecord.
  destruct r; cbn [asOwner GetAddress];
    try (eexists; split; reflexivity);
    match goal with
    | |- context [GetPointers ?o (params ?c1)] =>
        change (params c1) with (params c);
        destruct (GetPointers o (params c)) as [ps | p |];
        cbn [mbind result_bind]; [| reflexivity ..];
        eexists; split; [reflexivity |]
    end.
  all: match goal with
       | |- params (addOwners ?c1 ?ps ?r) = _ =>
           exact (proj1 (addOwners_fields c1 ps r))
       end.
Qed.

Lemma printRecordsLoop_like_readloop (re : string -> bool) (fuel : nat)
    (c : TreeClimber) (g : Registry) (reader : list byte)
    (out : list string) :
  ending (printRecordsLoop fuel re "" (params c) g reader out).2 id
  = ending (readloopFrom fuel c g reader) (fun a => a.1.2).
Proof.
  revert c g reader out. induction fuel as [|fuel IH]; intros c g reader out;
    [reflexivity |].
  cbn [printRecordsLoop readloopFrom].
  destruct (ReadRecord g reader) as [[[[record [e|]] g'] rest] | p |];
    cbn [mbind result_bind]; try reflexivity.
  change (0 <? strlen "") with false. cbn [andb].
  destruct record as [r|]; [| apply (IH c)].
  cbn [mbind option_bind].
  pose proof (buildRecord_as_pointers c r) as Hturn.
  destruct r; cbn [asOwner] in Hturn |- *; try reflexivity;
    try (destruct Hturn as (c' & -> & Hparams);
         cbn [mbind result_bind]; rewrite <- Hparams; apply IH);
    match type of Hturn with
    | match GetPointers ?o (params c) with _ => _ end =>
        destruct (GetPointers o (params c)) as [ps | p |];
        cbn [mbind result_bind];
        [destruct Hturn as (c' & -> & Hparams);
         cbn [mbind result_bind]; rewrite <- Hparams; apply IH
        | rewrite Hturn; reflexivity ..]
    end.
Qed.

Lemma GetPointers_returns (o : Owner) (p : option DumpParams.t) :
  GetPointers o p <> Diverge.
Proof.
  unfold GetPointers. apply bind_returns; [| by intros [s t]].
  unfold GetPointerInfo. case_match; [| discriminate].
  apply pointerLoop_returns.
Qed.

Lemma printRecordsLoop_returns (re : string -> bool) (search : string)
    (fuel : nat) (params : option DumpParams.t) (g : Registry)
    (reader : list byte) (out : list string) :
  (length reader < fuel)%nat ->
  (printRecordsLoop fuel re search params g reader out).2 <> Diverge.
Proof.
  revert params g reader out.
  induction fuel as [|fuel IH]; intros params g reader out Hfuel; [lia |].
  cbn [printRecordsLoop].
  destruct (ReadRecord_returns g reader)
    as (record & err & g' & rest & -> & Hok).
  destruct err as [e|]; [discriminate |].
  destruct (Hok eq_refl) as [_ Hlt].
  assert (Hrest : (length rest < fuel)%nat) by lia.
  destruct (_ && _); [by apply IH |].
  match goal with
  | |- context [match ?pointers with Ret _ => _ | _ => _ end] =>
      assert (Hp : pointers <> Diverge);
      [| destruct pointers as [lines | p |]; [| discriminate | done]]
  end.
  { destruct (record ≫= asOwner) as [o|]; [| discriminate].
    apply bind_returns; [apply GetPointers_returns | discriminate]. }
  destruct (match record with Some Eof => true | _ => false end);
    [discriminate | by apply IH].
Qed.

Section PrintRecordsProperties.
Context (Compile : string -> error + (string -> bool)).

(** X18: with an empty search expression, which compiles, [PrintRecords]
    ends as the build of the analyzer does on the same stream: both
    return without error, both return an error, or both panic in the same
    way.  (An Owner record ahead of the DumpParams record stops the one as
    it stops the other.) *)
Theorem PrintRecords_like_build (re : string -> bool) (fuel : nat)
    (g : Registry) (reader : list byte) :
  Compile "" = inr re ->
  ending (PrintRecordsFrom Compile fuel "" g reader).2 id
  = ending (NewTreeClimberFrom fuel g reader) (fun a => a.1.2).
Proof.
  intros Hre. unfold PrintRecordsFrom, NewTreeClimberFrom, buildFrom.
  rewrite Hre. destruct (ReadHeaderFrom reader) as [[e|] rest];
    [reflexivity |].
  apply (printRecordsLoop_like_readloop re fuel
           (set_finalizers ∅ (set_owners ∅ (set_memory ∅ zeroTreeClimber)))).
Qed.

(** X19: [PrintRecords] comes to an end on every stream and for every
    search expression: with more fuel than the stream has bytes it returns
    or panics. *)
Theorem PrintRecords_terminates (search : string) (g : Registry)
    (reader : list byte) :
  (PrintRecordsFrom Compile (S (length reader)) search g reader).2
  <> Diverge.
Proof.
  unfold PrintRecordsFrom. destruct (Compile search) as [err | re];
    [discriminate |].
  unfold ReadHeaderFrom.
  pose proof (ReadFull_rest (strlen Header) reader) as Hrest.
  destruct (ReadFull (strlen Header) reader) as [[val [e|]] rest];
    [discriminate |]. cbn in Hrest.
  destruct (bool_decide _); [| discriminate].
  apply printRecordsLoop_returns. lia.
Qed.

End PrintRecordsProperties.

Lemma PrintRecords_like_build_witness :
  ending
    (PrintRecordsFrom (fun _ => inr (fun _ => true)) 3 "" initRegistry
       (bytes_of_string Header ++ putRecord (Object objectA) ++
        putRecord Eof)).2 id
  = ending
      (NewTreeClimberFrom 3 initRegistry
         (bytes_of_string Header ++ putRecord (Object objectA) ++
          putRecord Eof))
      (fun a => a.1.2).
Proof.
  apply (PrintRecords_like_build (fun _ => inr (fun _ => true))
           (fun _ => true)).
  reflexivity.
Defined.
